(** * The engine loop of lmdeploy's PyTorch backend, and chat-template resolution

  A shallow embedding of the parts of
  [lmdeploy/pytorch/engine/engine.py] and [lmdeploy/model.py] that the
  specification talks about: the counting event that guards the forward
  pipeline, the prefill/decode decision, the request callbacks of the
  engine (sessions, messages, responses), the migration loop, the assembly
  of forward inputs, and the resolution of a chat template from a model
  path.

  Python integers are unbounded, so they are [Z].  Objects that the code
  shares by reference (response handles, sequences) live in stores indexed
  by their identity.  Code that can raise is written in a state-and-exception
  monad whose failures keep the state reached when the exception left. *)

From stdpp Require Import base gmap list strings.
From Stdlib Require Import ZArith QArith Lia.

Open Scope Z_scope.

(* ===================================================================== *)
(** ** Enumerations shared by the engine *)
(* ===================================================================== *)

(** [lmdeploy.pytorch.disagg.config.EngineRole] *)
Inductive EngineRole := Hybrid | Prefill | Decode.

#[global] Instance EngineRole_eq_dec : EqDecision EngineRole.
Proof. solve_decision. Defined.

(* ===================================================================== *)
(** ** [CounterEvent] (engine.py, class CounterEvent) *)
(* ===================================================================== *)

Module CounterEvent.

(** [self._counter] and the flag of [self._event] (an [asyncio.Event],
    whose [set]/[clear]/[is_set] act on one boolean). *)
Record t := mk { _counter : Z; _event : bool }.

(** [__init__]: counter 0, a fresh event is not set. *)
Definition init : t := {| _counter := 0; _event := false |}.

Definition is_set (e : t) : bool := _event e.

(** [set]: decrement when positive, then fire when the counter is zero. *)
Definition set (e : t) : t :=
  let c := if 0 <? _counter e then _counter e - 1 else _counter e in
  {| _counter := c; _event := if c =? 0 then true else _event e |}.

(** [clear]: reset the flag only on the 0 -> 1 edge, always count up. *)
Definition clear (e : t) : t :=
  let ev := if (_counter e =? 0) && is_set e then false else _event e in
  {| _counter := _counter e + 1; _event := ev |}.

(** The states a [CounterEvent] object can be in: it is built by
    [__init__] and touched only through [set] and [clear]. *)
Inductive reachable : t -> Prop :=
| reach_init : reachable init
| reach_set e : reachable e -> reachable (set e)
| reach_clear e : reachable e -> reachable (clear e).

(** Waiters are released exactly when the flag is up. *)
Definition releases_waiters (e : t) : Prop := is_set e = true.

(** The forward event in the middle of two nested pipeline stages:
    [async_loop] sets it once, the main loop has cleared it twice. *)
Definition busy_event : t := clear (clear (set init)).

End CounterEvent.

(* ===================================================================== *)
(** ** [InputsMakerAsync]: the prefill/decode decision *)
(* ===================================================================== *)

Module InputsMaker.

(** What the inputs maker reads off the scheduler: the results of
    [has_waiting()], [has_running()], [num_running()], [num_waiting()].
    The scheduler itself lives in [lmdeploy/pytorch/paging]. *)
Record SchedulerView := {
  has_waiting : bool;
  has_running : bool;
  num_running : Z;
  num_waiting : Z
}.

Record InputsMakerAsync := {
  dp : Z;                    (* engine.dist_config.dp *)
  role : EngineRole;         (* engine.cache_config.role *)
  engine_role : EngineRole;  (* engine.engine_config.role *)
  max_batches : Z;           (* scheduler_config.max_batches *)
  next_is_prefill : bool
}.

(** [n < m * 0.5] for integers [n], [m]: the product with 0.5 is exact in
    binary floating point and Python compares an int with a float by
    value, so the test is the one on rationals. *)
Definition lt_half (n m : Z) : bool :=
  negb (Qle_bool (inject_Z m * (1 # 2)) (inject_Z n)).

Definition do_prefill_dp (im : InputsMakerAsync) (s : SchedulerView) : bool :=
  if decide (role im = Prefill) then true
  else if next_is_prefill im then has_waiting s
  else negb (has_running s).

Definition permitted_waiting (im : InputsMakerAsync) : Z :=
  if decide (engine_role im <> Prefill) then 4 else 1.

Definition do_prefill_default (im : InputsMakerAsync) (s : SchedulerView) : bool :=
  (* decoding if no waiting *)
  if negb (has_waiting s) then false
  (* prefill if too much waiting *)
  else if permitted_waiting im <=? num_waiting s then true
  (* prefill if no enough running *)
  else if lt_half (num_running s) (max_batches im) then true
  (* decoding *)
  else false.

(** [__init__] binds [self.do_prefill] by [dp]. *)
Definition do_prefill (im : InputsMakerAsync) (s : SchedulerView) : bool :=
  if dp im =? 1 then do_prefill_default im s else do_prefill_dp im s.

(** The decision rule as the specification words it, for comparison:
    prefill exactly when (a) or (b). *)
Definition spec_do_prefill (im : InputsMakerAsync) (s : SchedulerView) : Prop :=
  permitted_waiting im <= num_waiting s \/ 2 * num_running s < max_batches im.

(** An engine with nothing waiting and nothing running. *)
Definition idle_view : SchedulerView :=
  {| has_waiting := false; has_running := false; num_running := 0; num_waiting := 0 |}.

Definition idle_maker : InputsMakerAsync :=
  {| dp := 1; role := Hybrid; engine_role := Hybrid; max_batches := 2;
     next_is_prefill := true |}.

End InputsMaker.

(* ===================================================================== *)
(** ** The engine: stores, exceptions, request callbacks *)
(* ===================================================================== *)

Module Engine.

(** [lmdeploy.messages.ResponseType]: the control-plane response codes. *)
Inductive ResponseType :=
| SUCCESS | FINISH | SESSION_REPEAT | SESSION_NOT_EXIST
| INPUT_LENGTH_ERROR | INTERNAL_ENGINE_ERROR | CANCEL.

#[global] Instance ResponseType_eq_dec : EqDecision ResponseType.
Proof. solve_decision. Defined.

(** [lmdeploy.pytorch.messages.MessageStatus] *)
Inductive MessageStatus :=
| WAITING | RUNNING | LOCKED | WAITING_MIGRATION | MIGRATION_LOCKED
| TO_BE_MIGRATED | STOPPED.

#[global] Instance MessageStatus_eq_dec : EqDecision MessageStatus.
Proof. solve_decision. Defined.

(** The exceptions the modelled code can raise.  [Dangling] has no Python
    counterpart: it marks a reference to a sequence that is not in the
    store, which a Python program cannot hold. *)
Inductive exn :=
| AssertionError (msg : string)
| TypeError
| AttributeError
| KeyError
| ValueError
| Dangling.

(** The body of a generation response, the dict built by [__send_resp];
    logits and metrics are opaque to the engine loop and left out. *)
Record RespData := {
  data_token_ids : list Z;
  data_cache_block_ids : option (list Z)
}.

(** [request.Response]: a mutable handle shared by the request, the
    sequence that answers it and the infer outputs that carry it. *)
Record Response := {
  type : option ResponseType;   (* [None]: nothing written to it yet *)
  data : option RespData;
  err_msg : string
}.

Record SamplingParam := {
  max_new_tokens : Z;
  min_new_tokens : Z;
  repetition_penalty : Q;
  logits_processors : option (list nat);   (* callables, by identity *)
  out_logits : bool
}.

Record MigrationRequest := {
  protocol : nat;
  remote_engine_id : Z;
  remote_session_id : Z;
  remote_block_ids : list Z;
  remote_token_id : Z;
  is_dummy_prefill : bool
}.

(** [messages.SchedulerSequence], with the attributes the engine loop
    reads or writes.  [block_table] stands for what
    [scheduler.block_manager.get_block_table(msg)] returns. *)
Record SchedulerSequence := {
  session_id : Z;
  all_ids : list Z;
  num_new_tokens : Z;
  sampling_param : SamplingParam;
  adapter_name : option string;
  return_logits : bool;
  status : MessageStatus;
  resp : option nat;
  resp_cache : bool;
  preserve_cache : bool;
  migration_request : option MigrationRequest;
  block_table : list Z
}.

Definition set_status (st : MessageStatus) (m : SchedulerSequence) : SchedulerSequence :=
  {| session_id := session_id m; all_ids := all_ids m;
     num_new_tokens := num_new_tokens m; sampling_param := sampling_param m;
     adapter_name := adapter_name m; return_logits := return_logits m;
     status := st; resp := resp m; resp_cache := resp_cache m;
     preserve_cache := preserve_cache m;
     migration_request := migration_request m; block_table := block_table m |}.

Definition set_resp (r : option nat) (m : SchedulerSequence) : SchedulerSequence :=
  {| session_id := session_id m; all_ids := all_ids m;
     num_new_tokens := num_new_tokens m; sampling_param := sampling_param m;
     adapter_name := adapter_name m; return_logits := return_logits m;
     status := status m; resp := r; resp_cache := resp_cache m;
     preserve_cache := preserve_cache m;
     migration_request := migration_request m; block_table := block_table m |}.

Definition set_sampling_param (sp : SamplingParam) (m : SchedulerSequence) : SchedulerSequence :=
  {| session_id := session_id m; all_ids := all_ids m;
     num_new_tokens := num_new_tokens m; sampling_param := sp;
     adapter_name := adapter_name m; return_logits := return_logits m;
     status := status m; resp := resp m; resp_cache := resp_cache m;
     preserve_cache := preserve_cache m;
     migration_request := migration_request m; block_table := block_table m |}.

Definition set_return_logits (b : bool) (m : SchedulerSequence) : SchedulerSequence :=
  {| session_id := session_id m; all_ids := all_ids m;
     num_new_tokens := num_new_tokens m; sampling_param := sampling_param m;
     adapter_name := adapter_name m; return_logits := b;
     status := status m; resp := resp m; resp_cache := resp_cache m;
     preserve_cache := preserve_cache m;
     migration_request := migration_request m; block_table := block_table m |}.

Definition set_tokens (ids : list Z) (n : Z) (m : SchedulerSequence) : SchedulerSequence :=
  {| session_id := session_id m; all_ids := ids;
     num_new_tokens := n; sampling_param := sampling_param m;
     adapter_name := adapter_name m; return_logits := return_logits m;
     status := status m; resp := resp m; resp_cache := resp_cache m;
     preserve_cache := preserve_cache m;
     migration_request := migration_request m; block_table := block_table m |}.

Definition set_block_table (bt : list Z) (m : SchedulerSequence) : SchedulerSequence :=
  {| session_id := session_id m; all_ids := all_ids m;
     num_new_tokens := num_new_tokens m; sampling_param := sampling_param m;
     adapter_name := adapter_name m; return_logits := return_logits m;
     status := status m; resp := resp m; resp_cache := resp_cache m;
     preserve_cache := preserve_cache m;
     migration_request := migration_request m; block_table := bt |}.

Definition set_max_new_tokens (n : Z) (sp : SamplingParam) : SamplingParam :=
  {| max_new_tokens := n; min_new_tokens := min_new_tokens sp;
     repetition_penalty := repetition_penalty sp;
     logits_processors := logits_processors sp; out_logits := out_logits sp |}.

(** [InferOutput]; [out_resp] is the handle of the sequence it came from. *)
Record InferOutput := {
  out_session_id : Z;
  out_resp : option nat;
  out_token_ids : list Z;
  out_finish : bool;
  out_cache_block_ids : option (list Z)
}.

(** [disagg.messages.MigrationExecutionBatch] *)
Record MigrationExecutionBatch := {
  mig_protocol : nat;
  mig_requests : list (Z * list (Z * Z))
}.

(** The mutable state the engine loop works on.

    - [handles], [seqs]: the [Response] and [SchedulerSequence] objects;
    - [sessions]: [scheduler.sessions], each session with the ids of its
      sequences in insertion order ([session.sequences] is a dict);
    - [mailbox]: every [req_manager.response(resp)] so far, oldest first,
      with the handle's content at that moment;
    - [resp_que]: the queue between the loops and the response activity;
    - the executor, seen through the calls made on it. *)
Record Engine := {
  handles : gmap nat Response;
  seqs : gmap nat SchedulerSequence;
  sessions : gmap Z (list nat);
  mailbox : list (nat * Response);
  resp_que : list (list (Z * InferOutput));
  migration_event : bool;
  has_runable_event : bool;
  migrated : list MigrationExecutionBatch;
  zmq_sent : list (Z * Z);
  executor_stopped : bool;
  executor_released : bool
}.

(** The engine's configuration, fixed after [__init__]. *)
Record Config := {
  session_len : option Z;       (* scheduler_config.max_session_len *)
  num_gpu_blocks : Z;           (* cache_config.num_gpu_blocks *)
  block_size : Z;               (* cache_config.block_size *)
  window_size : Z;              (* cache_config.window_size *)
  engine_role : EngineRole;     (* engine_config.role *)
  prefill_interval : Z;         (* scheduler_config.prefill_interval *)
  bos_token_id : option Z       (* model_config.bos_token_id *)
}.

Definition _get_max_session_len (cfg : Config) : Z :=
  let max_tokens := num_gpu_blocks cfg * block_size cfg in
  let max_tokens :=
    if (0 <? window_size cfg) && (window_size cfg <=? max_tokens)
    then Z.shiftl 1 63 - 1 else max_tokens in
  let session_len :=
    match session_len cfg with
    | None => max_tokens
    | Some session_len => Z.min max_tokens session_len
    end in
  session_len - block_size cfg.

(** [self.max_session_len], computed once in [__init__]. *)
Definition max_session_len (cfg : Config) : Z := _get_max_session_len cfg.

Inductive result (A : Type) :=
| Ok (a : A) (e : Engine)
| Raised (x : exn) (e : Engine).
Arguments Ok {A} a e.
Arguments Raised {A} x e.

(** The state a computation leaves behind, returned or raised. *)
Definition state_of {A} (r : result A) : Engine :=
  match r with Ok _ e => e | Raised _ e => e end.

Definition M (A : Type) : Type := Engine -> result A.

#[global] Instance M_ret : MRet M := fun A a e => Ok a e.
#[global] Instance M_bind : MBind M := fun A B f m e =>
  match m e with
  | Ok a e' => f a e'
  | Raised x e' => Raised x e'
  end.

Definition raise {A} (x : exn) : M A := fun e => Raised x e.
Definition get : M Engine := fun e => Ok e e.
Definition modify (f : Engine -> Engine) : M unit := fun e => Ok tt (f e).

(** [for x in l: body(x)] *)
Fixpoint for_each {A} (l : list A) (body : A -> M unit) : M unit :=
  match l with
  | [] => mret tt
  | x :: l' => body x ;; for_each l' body
  end.

Definition with_handles (f : gmap nat Response -> gmap nat Response) (e : Engine) : Engine :=
  {| handles := f (handles e); seqs := seqs e; sessions := sessions e;
     mailbox := mailbox e; resp_que := resp_que e;
     migration_event := migration_event e; has_runable_event := has_runable_event e;
     migrated := migrated e; zmq_sent := zmq_sent e;
     executor_stopped := executor_stopped e; executor_released := executor_released e |}.

Definition with_seqs (f : gmap nat SchedulerSequence -> gmap nat SchedulerSequence) (e : Engine) : Engine :=
  {| handles := handles e; seqs := f (seqs e); sessions := sessions e;
     mailbox := mailbox e; resp_que := resp_que e;
     migration_event := migration_event e; has_runable_event := has_runable_event e;
     migrated := migrated e; zmq_sent := zmq_sent e;
     executor_stopped := executor_stopped e; executor_released := executor_released e |}.

Definition with_sessions (f : gmap Z (list nat) -> gmap Z (list nat)) (e : Engine) : Engine :=
  {| handles := handles e; seqs := seqs e; sessions := f (sessions e);
     mailbox := mailbox e; resp_que := resp_que e;
     migration_event := migration_event e; has_runable_event := has_runable_event e;
     migrated := migrated e; zmq_sent := zmq_sent e;
     executor_stopped := executor_stopped e; executor_released := executor_released e |}.

Definition with_mailbox (f : list (nat * Response) -> list (nat * Response)) (e : Engine) : Engine :=
  {| handles := handles e; seqs := seqs e; sessions := sessions e;
     mailbox := f (mailbox e); resp_que := resp_que e;
     migration_event := migration_event e; has_runable_event := has_runable_event e;
     migrated := migrated e; zmq_sent := zmq_sent e;
     executor_stopped := executor_stopped e; executor_released := executor_released e |}.

Definition with_resp_que (f : list (list (Z * InferOutput)) -> list (list (Z * InferOutput)))
    (e : Engine) : Engine :=
  {| handles := handles e; seqs := seqs e; sessions := sessions e;
     mailbox := mailbox e; resp_que := f (resp_que e);
     migration_event := migration_event e; has_runable_event := has_runable_event e;
     migrated := migrated e; zmq_sent := zmq_sent e;
     executor_stopped := executor_stopped e; executor_released := executor_released e |}.

Definition with_migration_event (b : bool) (e : Engine) : Engine :=
  {| handles := handles e; seqs := seqs e; sessions := sessions e;
     mailbox := mailbox e; resp_que := resp_que e;
     migration_event := b; has_runable_event := has_runable_event e;
     migrated := migrated e; zmq_sent := zmq_sent e;
     executor_stopped := executor_stopped e; executor_released := executor_released e |}.

Definition with_has_runable_event (b : bool) (e : Engine) : Engine :=
  {| handles := handles e; seqs := seqs e; sessions := sessions e;
     mailbox := mailbox e; resp_que := resp_que e;
     migration_event := migration_event e; has_runable_event := b;
     migrated := migrated e; zmq_sent := zmq_sent e;
     executor_stopped := executor_stopped e; executor_released := executor_released e |}.

Definition with_executor_calls (mig : list MigrationExecutionBatch) (zmq : list (Z * Z))
    (e : Engine) : Engine :=
  {| handles := handles e; seqs := seqs e; sessions := sessions e;
     mailbox := mailbox e; resp_que := resp_que e;
     migration_event := migration_event e; has_runable_event := has_runable_event e;
     migrated := migrated e ++ mig; zmq_sent := zmq_sent e ++ zmq;
     executor_stopped := executor_stopped e; executor_released := executor_released e |}.

Definition with_executor_down (e : Engine) : Engine :=
  {| handles := handles e; seqs := seqs e; sessions := sessions e;
     mailbox := mailbox e; resp_que := resp_que e;
     migration_event := migration_event e; has_runable_event := has_runable_event e;
     migrated := migrated e; zmq_sent := zmq_sent e;
     executor_stopped := true; executor_released := true |}.

(** Reading and writing the objects behind a reference. *)
Definition blank : Response := {| type := None; data := None; err_msg := "" |}.

(** [handles] holds the handles the engine has written to; any other handle
    is as its sender created it. *)
Definition get_resp (h : nat) : M Response := fun e =>
  Ok (default blank (handles e !! h)) e.

Definition put_resp (h : nat) (r : Response) : M unit :=
  modify (with_handles (insert h r)).

Definition get_seq (m : nat) : M SchedulerSequence := fun e =>
  match seqs e !! m with
  | Some msg => Ok msg e
  | None => Raised Dangling e
  end.

Definition update_seq (m : nat) (f : SchedulerSequence -> SchedulerSequence) : M unit :=
  msg ← get_seq m; modify (with_seqs (insert m (f msg))).

(** *** Collaborators that live outside engine.py *)

(** Modelled from the spec: [RequestManager.response] (defined in
    request.py, outside engine.py) posts the handle to its originator; the
    mailbox records the handle and what it held when it was posted. *)
Definition req_manager_response (h : nat) : M unit :=
  r ← get_resp h; modify (with_mailbox (fun mb => mb ++ [(h, r)])).

(** Modelled from the spec: [Scheduler.add_session] (defined in
    paging/scheduler.py, outside engine.py) creates a session without
    sequences. *)
Definition scheduler_add_session (sid : Z) : M unit :=
  modify (with_sessions (insert sid [])).

(** Modelled from the spec: [Scheduler._set_message_status] writes the
    status of a sequence. *)
Definition _set_message_status (m : nat) (st : MessageStatus) : M unit :=
  update_seq m (set_status st).

(** Modelled from the spec: [Scheduler.stop_session] moves the sequences of
    the session to STOPPED. *)
Definition scheduler_stop_session (sid : Z) : M unit :=
  e ← get;
  match sessions e !! sid with
  | Some ms => for_each ms (fun m => _set_message_status m STOPPED)
  | None => raise KeyError
  end.

(** Modelled from the spec: [Scheduler.end_session] destroys the session
    and the sequences it owns. *)
Definition scheduler_end_session (sid : Z) : M unit :=
  e ← get;
  match sessions e !! sid with
  | Some ms =>
      modify (with_seqs (fun sq => foldr delete sq ms)) ;;
      modify (with_sessions (delete sid))
  | None => raise KeyError
  end.

(** Modelled from the spec: [Scheduler.add_sequence] enters the sequence
    into the scheduler, where it begins in WAITING. *)
Definition scheduler_add_sequence (m : nat) : M unit :=
  _set_message_status m WAITING.

(** Python truthiness of [dict.get(key)] for a boolean entry. *)
Definition truthy (o : option bool) : bool := default false o.

(** Requests on sessions: [req.resp] and the keys of [req.data];
    [response] may be absent ([req.data.get('response', True)]). *)
Record SessionRequest := {
  sreq_resp : nat;
  sreq_session_id : Z;
  sreq_response : option bool
}.

(** ADD_MESSAGE requests.  The expansion of multimodal inputs by the
    external pre-processor is outside the model: these requests carry no
    [input_multimodals]. *)
Record MessageRequest := {
  mreq_resp : nat;
  mreq_session_id : Z;
  mreq_token_ids : list Z;
  mreq_sampling_param : SamplingParam;
  mreq_adapter_name : option string;
  mreq_migration_request : option MigrationRequest;
  mreq_with_cache : option bool;
  mreq_preserve_cache : option bool
}.

(** Modelled from the spec: [SchedulerSession.add_sequence] (defined in
    messages.py, outside engine.py) creates the sequence of a message: it
    holds the message's tokens, has produced nothing yet and waits. *)
Definition sess_add_sequence (req : MessageRequest) (return_logits : bool) : M nat :=
  e ← get;
  let m := fresh (dom (seqs e)) in
  let msg :=
    {| session_id := mreq_session_id req; all_ids := mreq_token_ids req;
       num_new_tokens := 0; sampling_param := mreq_sampling_param req;
       adapter_name := mreq_adapter_name req; return_logits := return_logits;
       status := WAITING; resp := None;
       resp_cache := truthy (mreq_with_cache req);
       preserve_cache := truthy (mreq_preserve_cache req);
       migration_request := mreq_migration_request req; block_table := [] |} in
  modify (with_seqs (insert m msg)) ;;
  modify (with_sessions (alter (fun ms => ms ++ [m]) (mreq_session_id req))) ;;
  mret m.

(** Modelled from the spec: [SchedulerSequence.num_all_tokens] counts the
    tokens the sequence holds, history and generated. *)
Definition num_all_tokens (msg : SchedulerSequence) : Z := Z.of_nat (length (all_ids msg)).

(** Modelled from the spec: [SchedulerSequence.update_token_ids] appends to
    the append-only [all_ids]. *)
Definition update_token_ids (tokens : list Z) (msg : SchedulerSequence) : SchedulerSequence :=
  set_tokens (all_ids msg ++ tokens) (num_new_tokens msg) msg.

(** *** [Engine._response] *)

Definition _response (h : nat) (resp_type : ResponseType)
    (d : option RespData) (msg : string) : M unit :=
  r ← get_resp h;
  if decide (type r = Some FINISH) then mret tt
  else
    put_resp h {| type := Some resp_type; data := d; err_msg := msg |} ;;
    req_manager_response h.

(** *** Session callbacks *)

Definition _on_add_session (reqs : list SessionRequest) : M unit :=
  for_each reqs (fun req =>
    let session_id := sreq_session_id req in
    let resp := default true (sreq_response req) in
    e ← get;
    resp_type ←
      (match sessions e !! session_id with
       | None => scheduler_add_session session_id ;; mret SUCCESS
       | Some _ => mret SESSION_REPEAT
       end);
    if resp then _response (sreq_resp req) resp_type None "" else mret tt).

Definition _on_stop_session (reqs : list SessionRequest) : M unit :=
  for_each reqs (fun req =>
    let session_id := sreq_session_id req in
    let resp := default true (sreq_response req) in
    e ← get;
    resp_type ←
      (match sessions e !! session_id with
       | Some ms =>
           scheduler_stop_session session_id ;;
           for_each ms (fun m =>
             seq ← get_seq m;
             match Engine.resp seq with
             | Some _resp =>
                 r ← get_resp _resp;
                 put_resp _resp {| type := Some FINISH; data := data r; err_msg := err_msg r |} ;;
                 req_manager_response _resp
             | None => mret tt
             end) ;;
           mret SUCCESS
       | None => mret SESSION_NOT_EXIST
       end);
    if resp then _response (sreq_resp req) resp_type None "" else mret tt).

Definition _on_end_session (reqs : list SessionRequest) : M unit :=
  for_each reqs (fun req =>
    let session_id := sreq_session_id req in
    let resp := default true (sreq_response req) in
    e ← get;
    resp_type ←
      (match sessions e !! session_id with
       | Some msgs =>
           match msgs with
           | m0 :: _ =>
               msg0 ← get_seq m0;
               if preserve_cache msg0
               then _set_message_status m0 TO_BE_MIGRATED
               else scheduler_end_session session_id
           | [] => scheduler_end_session session_id
           end ;;
           mret SUCCESS
       | None => mret SESSION_NOT_EXIST
       end);
    if resp then _response (sreq_resp req) resp_type None "" else mret tt).

(** *** Admission of messages *)

Definition __update_max_new_tokens (cfg : Config) (m : nat) : M unit :=
  msg ← get_seq m;
  let sampling_param := sampling_param msg in
  let max_new_tokens := max_new_tokens sampling_param in
  let num_all_tokens := num_all_tokens msg in
  if max_session_len cfg <? max_new_tokens + num_all_tokens
  then update_seq m (set_sampling_param
         (set_max_new_tokens (max_session_len cfg - num_all_tokens) sampling_param))
  else mret tt.

(** [_add_message].  The engine always has its scheduler ([__init__]
    builds it), so the branch [if scheduler is None] is never taken and is
    left out.  [sessions[session_id]] raises KeyError on an unknown id. *)
Definition _add_message (cfg : Config) (reqs : list MessageRequest) : M unit :=
  for_each reqs (fun req =>
    let session_id := mreq_session_id req in
    e ← get;
    match sessions e !! session_id with
    | None => raise KeyError
    | Some sess =>
        let sampling_param := mreq_sampling_param req in
        let return_logits := out_logits sampling_param in
        msg ←
          (match sess with
           | [] =>
               let migration_request := mreq_migration_request req in
               if bool_decide (0 < length (mreq_token_ids req))%nat then
                 sess_add_sequence req return_logits ;;
                 e' ← get;
                 match sessions e' !! session_id with
                 | Some (msg :: _) =>
                     __update_max_new_tokens cfg msg ;;
                     scheduler_add_sequence msg ;;
                     (if migration_request is Some _ then
                        _set_message_status msg WAITING_MIGRATION ;;
                        modify (with_migration_event true)
                      else mret tt) ;;
                     mret msg
                 | _ => raise Dangling
                 end
               else raise (AssertionError "Empty input is not allowed.")
           | msg :: _ =>
               update_seq msg (fun s =>
                 set_status WAITING
                   (set_return_logits return_logits
                      (set_sampling_param sampling_param
                         (set_tokens (all_ids s ++ mreq_token_ids req) 0 s)))) ;;
               __update_max_new_tokens cfg msg ;;
               mret msg
           end);
        update_seq msg (set_resp (Some (mreq_resp req)))
    end).

(** The first loop of [_on_add_message]: answer the requests whose session
    is unknown, keep the others. *)
Fixpoint collect_valid_reqs (reqs valid_reqs : list MessageRequest) : M (list MessageRequest) :=
  match reqs with
  | [] => mret valid_reqs
  | req :: reqs' =>
      e ← get;
      match sessions e !! mreq_session_id req with
      | None =>
          _response (mreq_resp req) SESSION_NOT_EXIST None "" ;;
          collect_valid_reqs reqs' valid_reqs
      | Some _ => collect_valid_reqs reqs' (valid_reqs ++ [req])
      end
  end.

Definition _on_add_message (cfg : Config) (reqs : list MessageRequest) : M unit :=
  valid_reqs ← collect_valid_reqs reqs [];
  if bool_decide (0 < length valid_reqs)%nat then _add_message cfg valid_reqs else mret tt.

(** *** The response activity ([_async_loop_send_responses]) *)

Definition __send_resp (out : InferOutput) : M unit :=
  let resp_type := if out_finish out then FINISH else SUCCESS in
  match out_resp out with
  | Some h =>
      _response h resp_type
        (Some {| data_token_ids := out_token_ids out;
                 data_cache_block_ids := out_cache_block_ids out |}) ""
  | None => raise AttributeError
  end.

Definition __send_resps (step_outputs : list InferOutput) : M unit :=
  for_each step_outputs __send_resp.

(** *** The migration loop ([_async_loop_migration]) *)

(** Modelled from the spec: [Scheduler.lock_running_migration] moves the
    sequences of the round to MIGRATION_LOCKED for the transfer. *)
Definition lock_running_migration (running : list nat) : M unit :=
  for_each running (fun m => _set_message_status m MIGRATION_LOCKED).

(** Modelled from the spec: [Scheduler.unlock_running_migration] lets the
    sequences still MIGRATION_LOCKED rejoin the RUNNING pool. *)
Definition unlock_running_migration (running : list nat) : M unit :=
  for_each running (fun m =>
    msg ← get_seq m;
    if decide (status msg = MIGRATION_LOCKED) then _set_message_status m RUNNING
    else mret tt).

(** Modelled from the spec: [Scheduler.has_unfinished], the scheduler has
    something to do while a sequence waits or runs. *)
Definition has_unfinished (e : Engine) : bool :=
  bool_decide (map_Exists (fun _ msg => status msg = WAITING \/ status msg = RUNNING) (seqs e)).

(** [RunableEventAsnyc.set] *)
Definition has_runable_event_set : M unit :=
  e ← get; modify (with_has_runable_event (has_unfinished e)).

(** [outputs[session_id] = out] on a dict kept in insertion order. *)
Fixpoint dict_set {V} (k : Z) (v : V) (d : list (Z * V)) : list (Z * V) :=
  match d with
  | [] => [(k, v)]
  | (k', v') :: d' =>
      if decide (k' = k) then (k, v) :: d' else (k', v') :: dict_set k v d'
  end.

(** [update_running_migration]: [zip] stops at the shortest argument. *)
Fixpoint update_running_migration (running : list nat)
    (next_token_ids : list (list Z)) (stopped : list bool) : M unit :=
  match running, next_token_ids, stopped with
  | m :: running', token :: next', stop :: stopped' =>
      msg ← get_seq m;
      (if decide (status msg <> MIGRATION_LOCKED) then mret tt
       else
         (* fill token *)
         update_seq m (fun s =>
           set_tokens (all_ids s ++ token) (num_new_tokens s + 1) s) ;;
         if stop : bool then
           (* the empty token is appended, then the sequence stops *)
           update_seq m (fun s => set_status STOPPED (update_token_ids [] s))
         else mret tt) ;;
      update_running_migration running' next' stopped'
  | _, _, _ => mret tt
  end.

(** The body of [for msg in migration_running] up to the transfer.  When
    the assertion on the block counts fails, Python builds its message,
    which takes [len()] of the integer [msg.num_token_ids]: what leaves the
    loop is that TypeError. *)
Definition migrate_one (m : nat) : M unit :=
  msg ← get_seq m;
  match migration_request msg with
  | None => raise AttributeError
  | Some migration_request =>
      let prefill_block_ids := remote_block_ids migration_request in
      let decode_block_ids := block_table msg in
      if is_dummy_prefill migration_request then mret tt
      else if bool_decide (length prefill_block_ids = length decode_block_ids) then
        modify (with_executor_calls
          [ {| mig_protocol := protocol migration_request;
               mig_requests := [(remote_engine_id migration_request,
                                 zip prefill_block_ids decode_block_ids)] |} ]
          [ (remote_engine_id migration_request, remote_session_id migration_request) ])
      else raise TypeError
  end.

(** The loop that builds the first output of each migrated sequence. *)
Fixpoint migration_outputs (running : list nat)
    (outputs : list (Z * InferOutput)) : M (list (Z * InferOutput)) :=
  match running with
  | [] => mret outputs
  | m :: running' =>
      msg ← get_seq m;
      match resp msg with
      | None => raise AttributeError
      | Some h =>
          (* msg.resp.type = ResponseType.SUCCESS *)
          r ← get_resp h;
          put_resp h {| type := Some SUCCESS; data := data r; err_msg := err_msg r |} ;;
          match migration_request msg with
          | None => raise AttributeError
          | Some migration_request =>
              let token_ids := [remote_token_id migration_request] in
              let out := {| out_session_id := session_id msg; out_resp := Some h;
                            out_token_ids := token_ids; out_finish := false;
                            out_cache_block_ids := None |} in
              let outputs := dict_set (session_id msg) out outputs in
              update_running_migration [m] [token_ids] [false] ;;
              migration_outputs running' outputs
          end
      end
  end.

(** One turn of the loop with sequences to migrate (the branch
    [elif migration_running]); [migration_running] is what
    [scheduler._schedule_migration()] returned. *)
Definition migration_round (migration_running : list nat) : M unit :=
  modify (with_migration_event false) ;;
  for_each migration_running migrate_one ;;
  (* generate output *)
  lock_running_migration migration_running ;;
  outputs ← migration_outputs migration_running [];
  modify (with_resp_que (fun q => q ++ [outputs])) ;;
  unlock_running_migration migration_running ;;
  has_runable_event_set.

(** *** The loop tasks and their done-callback *)

Inductive Outcome := Returned | Failed (x : exn) | Cancelled.

(** A task runs, has been asked to cancel (it meets CancelledError at its
    next [await]), or is done. *)
Inductive TaskState := Alive | CancelRequested | Done (o : Outcome).

Definition done (t : TaskState) : bool :=
  match t with Done _ => true | _ => false end.

(** [task.cancel()] *)
Definition cancel (t : TaskState) : TaskState :=
  match t with Alive => CancelRequested | _ => t end.

(** [__task_callback]: whatever the outcome of the finished task -- the
    [finally] clause also runs after the [return] of the CancelledError
    branch -- every task that is not done is cancelled. *)
Definition __task_callback (tasks : list (string * TaskState)) : list (string * TaskState) :=
  (fun t => (t.1, if done t.2 then t.2 else cancel t.2)) <$> tasks.

(** A task ends with outcome [o]; asyncio then runs its done-callback. *)
Definition task_finishes (name : string) (o : Outcome)
    (tasks : list (string * TaskState)) : list (string * TaskState) :=
  __task_callback
    ((fun t => if decide (t.1 = name) then (t.1, Done o) else t) <$> tasks).

(** [loop_tasks] of [async_loop]; the migration loop exists unless the
    role is Hybrid. *)
Definition loop_tasks (cfg : Config) : list (string * TaskState) :=
  [("MainLoop", Alive); ("MainLoopPreprocessMessage", Alive);
   ("MainLoopResponse", Alive)] ++
  (if decide (engine_role cfg <> Hybrid) then [("MainLoopMigration", Alive)] else []).

(** [_loop_finally] *)
Definition _loop_finally : M unit := modify with_executor_down.

(** The [try/except/finally] of [async_loop] around the main loop, which
    never returns: an [Exception] is logged and swallowed, CancelledError
    passes through, and [_loop_finally] runs in both cases. *)
Definition async_loop_exit (o : Outcome) : M Outcome :=
  _loop_finally ;;
  mret (match o with Failed _ => Returned | _ => o end).

(** *** Forward inputs ([Engine._make_forward_inputs]) *)

(** [paging.scheduler.SchedulerOutput]; the sequences are read, not
    written, while the inputs are assembled. *)
Record SchedulerOutput := {
  running : list SchedulerSequence;
  swap_in_map : list (Z * Z);
  swap_out_map : list (Z * Z)
}.

(** [logits_process.SamplingInputs], the two fields that decide about the
    token histories. *)
Record SamplingInputs := {
  batch_repetition_penalty : option (list Q);
  batch_logits_processors : list (option (list nat))
}.

(** Truthiness of an optional list: [None] and [[]] are false. *)
Definition truthy_list {A} (o : option (list A)) : bool :=
  match o with Some (_ :: _) => true | _ => false end.

(** A repetition penalty is active when it is not the neutral 1.0. *)
Definition penalty_active (seq : SchedulerSequence) : bool :=
  negb (Qeq_bool (repetition_penalty (sampling_param seq)) 1).

Definition has_logits_processor (seq : SchedulerSequence) : bool :=
  truthy_list (logits_processors (sampling_param seq)).

(** Modelled from the spec: [SamplingInputs.from_sampling_params]
    (defined in logits_process.py, outside engine.py) gathers the
    sampling parameters of the batch; the batched repetition penalty is
    present only if some sequence has an active one, and each sequence
    contributes its logits processors. *)
Definition from_sampling_params (seqs : list SchedulerSequence) : SamplingInputs :=
  {| batch_repetition_penalty :=
       if existsb penalty_active seqs
       then Some ((fun seq => repetition_penalty (sampling_param seq)) <$> seqs)
       else None;
     batch_logits_processors :=
       (fun seq => logits_processors (sampling_param seq)) <$> seqs |}.

(** Modelled from the spec: [SchedulerSequence.num_all_ids] is the length of
    [all_ids]. *)
Definition num_all_ids (seq : SchedulerSequence) : nat := length (all_ids seq).

(** [__gather_all_ids]: [None], or one row per sequence holding its token
    history, left-padded to the longest.  [max()] of an empty batch raises
    ValueError. *)
Definition __gather_all_ids (cfg : Config) (seqs : list SchedulerSequence)
    (sampling_inputs : SamplingInputs) : M (option (list (list Z))) :=
  if bool_decide (batch_repetition_penalty sampling_inputs = None)
     && negb (existsb truthy_list (batch_logits_processors sampling_inputs))
  then mret None
  else
    match seqs with
    | [] => raise ValueError
    | _ =>
        let max_len := max_list (num_all_ids <$> seqs) in
        let pad_id := default 0 (bos_token_id cfg) in
        mret (Some ((fun seq =>
                replicate (max_len - num_all_ids seq) pad_id ++ all_ids seq) <$> seqs))
    end.

Definition __get_num_appendable_ids (seqs : list SchedulerSequence) : list Z :=
  (fun seq => max_new_tokens (sampling_param seq) - num_new_tokens seq) <$> seqs.

Definition __get_num_ignore_eos (seqs : list SchedulerSequence) : list Z :=
  (fun seq => min_new_tokens (sampling_param seq) - num_new_tokens seq) <$> seqs.

Definition __need_logits (seqs : list SchedulerSequence) : bool :=
  existsb return_logits seqs.

(** The dict [_make_forward_inputs] returns.  Of [inputs] (the tensors of
    [create_model_inputs]) the bundle keeps [is_decoding]; the tensors
    themselves, [guided_input_ids] and [sync_long_context], which is
    computed from them, belong to the executor's side and are left out. *)
Record ForwardInputs := {
  fi_running : list SchedulerSequence;
  fi_is_decoding : bool;
  fi_swap_in_map : list (Z * Z);
  fi_swap_out_map : list (Z * Z);
  loop_count : Z;
  fi_all_ids : option (list (list Z));
  fi_sampling_inputs : SamplingInputs;
  num_appendable_ids : list Z;
  num_ignore_eos : list Z;
  fi_return_logits : bool;
  is_dummy : bool
}.

Section MakeForwardInputs.

(** [scheduler.schedule(is_prefill, prealloc_size)], which lives in
    paging/scheduler.py: any stateful procedure that returns a
    [SchedulerOutput]. *)
Variable schedule : bool -> Z -> M SchedulerOutput.

Definition _make_forward_inputs (cfg : Config) (prefill enable_empty : bool)
    : M (option ForwardInputs) :=
  let prefill_interval := prefill_interval cfg in
  scheduler_output ← schedule prefill prefill_interval;
  if enable_empty && bool_decide (length (running scheduler_output) = 0%nat)
  then mret None
  else
    (* schedule decoding if no valid prefill reqs. *)
    '(prefill, scheduler_output) ←
      (if prefill && bool_decide (length (running scheduler_output) = 0%nat)
          && bool_decide (engine_role cfg <> Prefill)
       then
         scheduler_output ← schedule false prefill_interval;
         mret (false, scheduler_output)
       else mret (prefill, scheduler_output));
    let num_loops := if prefill : bool then 1 else prefill_interval in
    let running := running scheduler_output in
    if bool_decide (length running = 0%nat) then mret None
    else
      (* create inputs *)
      let sampling_inputs := from_sampling_params running in
      all_ids ← __gather_all_ids cfg running sampling_inputs;
      mret (Some
        {| fi_running := running;
           fi_is_decoding := negb prefill;
           fi_swap_in_map := swap_in_map scheduler_output;
           fi_swap_out_map := swap_out_map scheduler_output;
           loop_count := num_loops;
           fi_all_ids := all_ids;
           fi_sampling_inputs := sampling_inputs;
           num_appendable_ids := __get_num_appendable_ids running;
           num_ignore_eos := __get_num_ignore_eos running;
           fi_return_logits := __need_logits running;
           is_dummy := false |}).

(** An empty prefill schedule as the specification states it: unless the
    role is Prefill, the step comes back as a decode batch. *)
Definition empty_prefill_claim (cfg : Config) (enable_empty : bool) (e : Engine) : Prop :=
  forall out1 e1,
    schedule true (prefill_interval cfg) e = Ok out1 e1 ->
    running out1 = [] ->
    if decide (engine_role cfg = Prefill)
    then exists e2, _make_forward_inputs cfg true enable_empty e = Ok None e2
    else exists fi e2,
      _make_forward_inputs cfg true enable_empty e = Ok (Some fi) e2 /\
      fi_is_decoding fi = true /\ loop_count fi = prefill_interval cfg.

End MakeForwardInputs.

(** The sequence asks for its token history: its repetition penalty is
    active or it has a logits processor attached. *)
Definition needs_history (seq : SchedulerSequence) : Prop :=
  penalty_active seq = true \/ has_logits_processor seq = true.

(** A scheduler that answers with fixed batches, for the examples. *)
Definition fixed_schedule (prefill_batch decode_batch : list SchedulerSequence)
    : bool -> Z -> M SchedulerOutput :=
  fun is_prefill _ =>
    mret {| running := if is_prefill then prefill_batch else decode_batch;
            swap_in_map := []; swap_out_map := [] |}.

(** *** Vocabulary of the statements about the callbacks *)

(** A sequence of a migration round that the loop can transfer. *)
Definition migratable (e : Engine) (m : nat) : Prop :=
  exists msg mr,
    seqs e !! m = Some msg /\ migration_request msg = Some mr /\
    (is_dummy_prefill mr = true \/
     length (remote_block_ids mr) = length (block_table msg)).

(** A sequence whose remote and local block counts differ. *)
Definition mismatched (e : Engine) (m : nat) : Prop :=
  exists msg mr,
    seqs e !! m = Some msg /\ migration_request msg = Some mr /\
    is_dummy_prefill mr = false /\
    length (remote_block_ids mr) <> length (block_table msg).

(** The stream of sequence [m] has been closed by a FINISH without tokens:
    posted on its handle, or queued for the response activity. *)
Definition finish_delivered (e e' : Engine) (m : nat) : Prop :=
  exists msg h,
    seqs e !! m = Some msg /\ resp msg = Some h /\
    ((exists r, (h, r) ∈ mailbox e' /\ type r = Some FINISH) \/
     (exists outs sid out, outs ∈ resp_que e' /\ (sid, out) ∈ outs /\
        out_resp out = Some h /\ out_finish out = true /\ out_token_ids out = [])).

(** A block-count mismatch as the specification states it: the round goes
    on (the loop keeps serving) and the sequence's stream is closed. *)
Definition mismatch_is_local (e : Engine) (running : list nat) (m : nat) : Prop :=
  exists e', migration_round running e = Ok tt e' /\ finish_delivered e e' m.

(** Nothing was posted, queued or changed on the sessions and sequences
    between [e] and [e']. *)
Definition untouched (e e' : Engine) : Prop :=
  mailbox e' = mailbox e /\ handles e' = handles e /\ resp_que e' = resp_que e /\
  seqs e' = seqs e /\ sessions e' = sessions e.

(** The response types posted through handle [h] so far, oldest first. *)
Definition posted_on (h : nat) (e : Engine) : list (option ResponseType) :=
  (type ∘ snd) <$> filter (fun p => p.1 = h) (mailbox e).

(** The type handle [h] holds now. *)
Definition type_of (h : nat) (e : Engine) : option ResponseType :=
  type (default blank (handles e !! h)).

(** "Once FINISH has been posted on [h], nothing more is emitted through
    [h]", for a later state [e'] of an engine in state [e]. *)
Definition finish_is_last (h : nat) (e e' : Engine) : Prop :=
  Some FINISH ∈ posted_on h e -> posted_on h e' = posted_on h e.


(** The reply of a session callback: a code, no body, no error text. *)
Definition reply (ty : ResponseType) : Response :=
  {| type := Some ty; data := None; err_msg := "" |}.

(** The caller behind handle [h] is posted exactly one more response, a
    bare [ty]. *)
Definition caller_receives (e e' : Engine) (h : nat) (ty : ResponseType) : Prop :=
  mailbox e' = mailbox e ++ [(h, reply ty)].

(** Does the session's first sequence ask to keep its cache? *)
Definition first_preserves (e : Engine) (msgs : list nat) : bool :=
  match msgs with
  | m0 :: _ => if seqs e !! m0 is Some msg0 then preserve_cache msg0 else false
  | [] => false
  end.

(** What END_SESSION does to the sessions and sequences, and the code it
    answers with. *)
Definition end_session_outcome (e : Engine) (sid : Z) (e' : Engine) (ty : ResponseType) : Prop :=
  match sessions e !! sid with
  | None => ty = SESSION_NOT_EXIST /\ sessions e' = sessions e /\ seqs e' = seqs e
  | Some msgs =>
      ty = SUCCESS /\
      if first_preserves e msgs then
        sessions e' = sessions e /\
        seqs e' = alter (set_status TO_BE_MIGRATED) (default 0%nat (head msgs)) (seqs e)
      else
        sessions e' !! sid = None /\
        (forall m, m ∈ msgs -> seqs e' !! m = None) /\
        (forall m, m ∉ msgs -> seqs e' !! m = seqs e !! m)
  end.

(** The sessions only refer to sequences that exist. *)
Definition sessions_wf (e : Engine) : Prop :=
  forall sid msgs m, sessions e !! sid = Some msgs -> m ∈ msgs -> is_Some (seqs e !! m).

(** END_SESSION as the specification states it: whatever the request, the
    caller is answered. *)
Definition end_session_claim (e : Engine) (req : SessionRequest) : Prop :=
  exists e' ty,
    _on_end_session [req] e = Ok tt e' /\
    end_session_outcome e (sreq_session_id req) e' ty /\
    caller_receives e e' (sreq_resp req) ty.


(** What [__update_max_new_tokens] makes of a sequence. *)
Definition capped (cfg : Config) (msg : SchedulerSequence) : SchedulerSequence :=
  if max_session_len cfg <? max_new_tokens (sampling_param msg) + num_all_tokens msg
  then set_sampling_param
         (set_max_new_tokens (max_session_len cfg - num_all_tokens msg) (sampling_param msg)) msg
  else msg.

(** After admission the session's sequence holds the request's budget of
    new tokens, cut down to what the session length leaves. *)
Definition admitted_capped (cfg : Config) (req : MessageRequest) (e' : Engine) : Prop :=
  exists m ms msg,
    sessions e' !! mreq_session_id req = Some (m :: ms) /\
    seqs e' !! m = Some msg /\
    max_new_tokens (sampling_param msg) =
      (if max_session_len cfg <? max_new_tokens (mreq_sampling_param req) + num_all_tokens msg
       then max_session_len cfg - num_all_tokens msg
       else max_new_tokens (mreq_sampling_param req)) /\
    max_new_tokens (sampling_param msg) + num_all_tokens msg <= max_session_len cfg.

(** The responses in [posted] all carry the code [ty]. *)
Definition all_of_type (ty : ResponseType) (posted : list (nat * Response)) : Prop :=
  Forall (fun p => type p.2 = Some ty) posted.

(** *** Concrete engines for the examples *)

Definition empty_engine : Engine :=
  {| handles := ∅; seqs := ∅; sessions := ∅; mailbox := []; resp_que := [];
     migration_event := false; has_runable_event := false;
     migrated := []; zmq_sent := [];
     executor_stopped := false; executor_released := false |}.

(** 8 blocks of 16 tokens, sessions of at most 32 tokens: the engine caps
    a session at 32 - 16 = 16 tokens. *)
Definition cfg0 : Config :=
  {| session_len := Some 32; num_gpu_blocks := 8; block_size := 16;
     window_size := 0; engine_role := Hybrid; prefill_interval := 4;
     bos_token_id := Some 1 |}.

Definition greedy : SamplingParam :=
  {| max_new_tokens := 32; min_new_tokens := 0; repetition_penalty := 1;
     logits_processors := None; out_logits := false |}.

Definition message (h : nat) (sid : Z) (tokens : list Z) : MessageRequest :=
  {| mreq_resp := h; mreq_session_id := sid; mreq_token_ids := tokens;
     mreq_sampling_param := greedy; mreq_adapter_name := None;
     mreq_migration_request := None; mreq_with_cache := None;
     mreq_preserve_cache := None |}.

(** Two sessions opened, nothing sent yet. *)
Definition two_sessions : Engine :=
  state_of (_on_add_session
    [ {| sreq_resp := 0; sreq_session_id := 1; sreq_response := Some false |};
      {| sreq_resp := 0; sreq_session_id := 2; sreq_response := Some false |} ]
    empty_engine).

(** Session 1 has received the prompt [1,2,3,4] on handle 5. *)
Definition one_prompt : Engine :=
  state_of (_on_add_message cfg0 [message 5 1 [1; 2; 3; 4]] two_sessions).

(** The generation on handle 5 has delivered a token and then finished. *)
Definition token_out (fin : bool) (tok : Z) : InferOutput :=
  {| out_session_id := 1; out_resp := Some 5%nat; out_token_ids := [tok];
     out_finish := fin; out_cache_block_ids := None |}.

Definition finished_stream : Engine :=
  state_of (__send_resps [token_out false 7; token_out true 8] one_prompt).

(** STOP_SESSION for session 1, arriving after the stream has finished. *)
Definition late_stop : SessionRequest :=
  {| sreq_resp := 9; sreq_session_id := 1; sreq_response := None |}.

(** A decode engine: session 1 continues a prefill done elsewhere in the
    remote blocks 7, 8, 9, and the block manager gave it the local blocks
    2 and 5 only; session 2 is a dummy prefill. *)
Definition decode_cfg : Config :=
  {| session_len := Some 32; num_gpu_blocks := 8; block_size := 16;
     window_size := 0; engine_role := Decode; prefill_interval := 4;
     bos_token_id := Some 1 |}.

Definition remote_prefill (dummy : bool) : MigrationRequest :=
  {| protocol := 0; remote_engine_id := 3; remote_session_id := 11;
     remote_block_ids := [7; 8; 9]; remote_token_id := 42;
     is_dummy_prefill := dummy |}.

Definition migrating (h : nat) (sid : Z) (dummy : bool) : MessageRequest :=
  {| mreq_resp := h; mreq_session_id := sid; mreq_token_ids := [1; 2; 3];
     mreq_sampling_param := greedy; mreq_adapter_name := None;
     mreq_migration_request := Some (remote_prefill dummy); mreq_with_cache := None;
     mreq_preserve_cache := None |}.

Definition short_of_blocks : Engine :=
  with_seqs (alter (set_block_table [2; 5]) 1%nat)
    (state_of (_on_add_message decode_cfg [migrating 6 2 true; migrating 5 1 false]
                 two_sessions)).

(** A sequence in the middle of its generation, sampled with the given
    repetition penalty and logits processors. *)
Definition decoding_seq (penalty : Q) (procs : option (list nat)) : SchedulerSequence :=
  {| session_id := 1; all_ids := [1; 2; 3; 4; 9]; num_new_tokens := 1;
     sampling_param :=
       {| max_new_tokens := 12; min_new_tokens := 0; repetition_penalty := penalty;
          logits_processors := procs; out_logits := false |};
     adapter_name := None; return_logits := false; status := RUNNING;
     resp := Some 5%nat; resp_cache := false; preserve_cache := false;
     migration_request := None; block_table := [0] |}.

(** The cache is full: nothing can be admitted for prefill, one sequence
    decodes. *)
Definition cache_full : bool -> Z -> M SchedulerOutput :=
  fixed_schedule [] [decoding_seq 1 None].

(** The same situation, the decoding sequence sampled with a repetition
    penalty of 1.1; and the bundle the engine then assembles. *)
Definition cache_full_penalised : bool -> Z -> M SchedulerOutput :=
  fixed_schedule [] [decoding_seq (11 # 10) None].

Definition penalised_bundle : ForwardInputs :=
  {| fi_running := [decoding_seq (11 # 10) None]; fi_is_decoding := true;
     fi_swap_in_map := []; fi_swap_out_map := []; loop_count := 4;
     fi_all_ids := Some [[1; 2; 3; 4; 9]];
     fi_sampling_inputs :=
       {| batch_repetition_penalty := Some [11 # 10]; batch_logits_processors := [None] |};
     num_appendable_ids := [11]; num_ignore_eos := [-1];
     fi_return_logits := false; is_dummy := false |}.

(** Nothing to prefill and nothing to decode. *)
Definition nothing_runs : bool -> Z -> M SchedulerOutput := fixed_schedule [] [].

(** END_SESSION for session 1 the way [EngineInstance.end] may send it:
    no answer wanted. *)
Definition quiet_end : SessionRequest :=
  {| sreq_resp := 9; sreq_session_id := 1; sreq_response := Some false |}.

Definition loud_end : SessionRequest :=
  {| sreq_resp := 9; sreq_session_id := 1; sreq_response := None |}.

(** *** Vocabulary of the statements about the rest of the engine *)

(** Every session holds at most one sequence ("TODO: support 1 session n
    sequence" in [_add_message]). *)
Definition single_sequence (e : Engine) : Prop :=
  forall sid ms, sessions e !! sid = Some ms -> (length ms <= 1)%nat.

(** The sequence of session 1 in [one_prompt]. *)
Definition one_prompt_seq : SchedulerSequence :=
  {| session_id := 1; all_ids := [1; 2; 3; 4]; num_new_tokens := 0;
     sampling_param := set_max_new_tokens 12 greedy; adapter_name := None;
     return_logits := false; status := WAITING; resp := Some 5%nat;
     resp_cache := false; preserve_cache := false;
     migration_request := None; block_table := [] |}.

(** The session of the request is known to the scheduler. *)
Definition known_session (e : Engine) (req : MessageRequest) : Prop :=
  is_Some (sessions e !! mreq_session_id req).

(** What a further message of a session makes of its sequence, before the
    budget of new tokens is capped. *)
Definition next_turn (req : MessageRequest) (s : SchedulerSequence) : SchedulerSequence :=
  set_status WAITING
    (set_return_logits (out_logits (mreq_sampling_param req))
       (set_sampling_param (mreq_sampling_param req)
          (set_tokens (all_ids s ++ mreq_token_ids req) 0 s))).

(** The sequence the first message of a session creates, before the budget
    of new tokens is capped. *)
Definition new_sequence (req : MessageRequest) : SchedulerSequence :=
  {| session_id := mreq_session_id req; all_ids := mreq_token_ids req;
     num_new_tokens := 0; sampling_param := mreq_sampling_param req;
     adapter_name := mreq_adapter_name req;
     return_logits := out_logits (mreq_sampling_param req);
     status := WAITING; resp := None;
     resp_cache := truthy (mreq_with_cache req);
     preserve_cache := truthy (mreq_preserve_cache req);
     migration_request := mreq_migration_request req; block_table := [] |}.

(** The calls the migration loop makes for one sequence: for a dummy
    prefill none, otherwise one [executor.migrate] with the remote blocks
    paired with the local ones, then one [zmq_send]. *)
Definition migration_calls (e : Engine) (m : nat)
    : list MigrationExecutionBatch * list (Z * Z) :=
  match seqs e !! m with
  | Some msg =>
      match migration_request msg with
      | Some mr =>
          if is_dummy_prefill mr then ([], [])
          else ([ {| mig_protocol := protocol mr;
                     mig_requests := [(remote_engine_id mr,
                                       zip (remote_block_ids mr) (block_table msg))] |} ],
                [ (remote_engine_id mr, remote_session_id mr) ])
      | None => ([], [])
      end
  | None => ([], [])
  end.

(** A batch that moves every remote block of some sequence to a local
    block of its own: the pairs list the remote ids and the local ids in
    order. *)
Definition pairs_all_blocks (e : Engine) (ms : list nat) (b : MigrationExecutionBatch) : Prop :=
  exists m msg mr,
    m ∈ ms /\ seqs e !! m = Some msg /\ migration_request msg = Some mr /\
    is_dummy_prefill mr = false /\
    exists pairs,
      mig_requests b = [(remote_engine_id mr, pairs)] /\
      pairs.*1 = remote_block_ids mr /\ pairs.*2 = block_table msg.

(** The decode engine of [short_of_blocks] once the block manager has given
    session 1 three local blocks. *)
Definition enough_blocks : Engine :=
  with_seqs (alter (set_block_table [2; 5; 11]) 1%nat) short_of_blocks.

(** *** The results of a forward step ([update_running], [_make_infer_outputs]) *)

(** The loop of [update_running] over
    [zip(next_token_ids, running, stopped, model_metas)], which stops at the
    shortest list.  The model meta is handed to [update_token_ids] and is
    opaque to the engine loop. *)
Fixpoint update_running_zip (running : list nat) (next_token_ids : list Z)
    (stopped : list bool) (model_metas : list (option nat)) : M unit :=
  match running, next_token_ids, stopped, model_metas with
  | m :: running', token :: next', stop :: stopped', _ :: metas' =>
      msg ← get_seq m;
      (if decide (status msg <> LOCKED) then mret tt
       else
         (* fill token *)
         update_seq m (fun s =>
           set_tokens (all_ids s ++ [token]) (num_new_tokens s + 1) s) ;;
         if stop : bool then
           update_seq m (fun s =>
             set_status (if preserve_cache s then TO_BE_MIGRATED else STOPPED) s)
         else mret tt) ;;
      update_running_zip running' next' stopped' metas'
  | _, _, _, _ => mret tt
  end.

Definition update_running (running : list nat) (next_token_ids : list Z)
    (stopped : list bool) (model_metas : option (list (option nat))) : M unit :=
  let model_metas := default (replicate (length running) None) model_metas in
  update_running_zip running next_token_ids stopped model_metas.

(** [a[-n:]]: the last [n] items for a positive [n] (all of them when there
    are fewer), everything for [n = 0], and [a[k:]] for [n = -k < 0]. *)
Definition tail_slice {A} (n : Z) (a : list A) : list A :=
  if n =? 0 then a
  else if 0 <? n then drop (length a - Z.to_nat n) a
  else drop (Z.to_nat (- n)) a.

(** [[f(x) for x in l]] with an [f] that reads the store. *)
Fixpoint map_m {A B} (f : A -> M B) (l : list A) : M (list B) :=
  match l with
  | [] => mret []
  | x :: l' => y ← f x; ys ← map_m f l'; mret (y :: ys)
  end.

(** The output [_make_infer_outputs] builds for a sequence that took part
    in the step, if any. *)
Definition infer_output (msg : SchedulerSequence) : option InferOutput :=
  let token_ids := tail_slice (num_new_tokens msg) (all_ids msg) in
  let finish := bool_decide (status msg = STOPPED) || bool_decide (status msg = TO_BE_MIGRATED) in
  if negb finish && bool_decide (length token_ids = 0%nat) then None
  else
    Some {| out_session_id := session_id msg; out_resp := resp msg;
            out_token_ids := token_ids; out_finish := finish;
            out_cache_block_ids :=
              if resp_cache msg then Some (block_table msg) else None |}.

(** The loop [for idx, msg in enumerate(running)] of [_make_infer_outputs]. *)
Fixpoint infer_outputs_loop (running : list (nat * bool))
    (outputs : list (Z * InferOutput)) : M (list (Z * InferOutput)) :=
  match running with
  | [] => mret outputs
  | (m, is_run) :: running' =>
      if negb is_run then infer_outputs_loop running' outputs
      else
        msg ← get_seq m;
        match infer_output msg with
        | None => infer_outputs_loop running' outputs
        | Some out =>
            infer_outputs_loop running' (dict_set (session_id msg) out outputs)
        end
  end.

(** [_make_infer_outputs]; the logits, which are split by tensor
    operations, and the metrics are left out of the outputs. *)
Definition _make_infer_outputs (next_token_ids : list Z) (running : list nat)
    (stopped : list bool) (model_metas : option (list (option nat)))
    : M (list (Z * InferOutput)) :=
  is_run ← map_m (fun m => msg ← get_seq m; mret (bool_decide (status msg = LOCKED))) running;
  update_running running next_token_ids stopped model_metas ;;
  (* generate output *)
  infer_outputs_loop (zip running is_run) [].

(** What [update_running] makes of a sequence that gets [token]. *)
Definition stepped (token : Z) (stop : bool) (msg : SchedulerSequence) : SchedulerSequence :=
  if decide (status msg <> LOCKED) then msg
  else
    let s1 := set_tokens (all_ids msg ++ [token]) (num_new_tokens msg + 1) msg in
    if stop then set_status (if preserve_cache s1 then TO_BE_MIGRATED else STOPPED) s1
    else s1.

(** *** [Engine.end_session] *)

Definition end_session (session_id : Z) : M bool :=
  e ← get;
  match sessions e !! session_id with
  | Some _ => scheduler_end_session session_id ;; mret true
  | None => mret false
  end.

(** *** [_update_engine_config] *)

(** [PytorchEngineConfig], the fields [_update_engine_config] looks at. *)
Record PytorchEngineConfig := {
  max_batch_size : option Z;
  device_type : string;
  dp : Z;
  tp : Z;
  ep : Z;
  dp_rank : Z
}.

(** [get_max_batch_size] comes from lmdeploy.utils and the defaults of
    [PytorchEngineConfig()] from lmdeploy.messages: both are parameters. *)
Definition _update_engine_config (get_max_batch_size : string -> Z)
    (defaults : PytorchEngineConfig) (engine_config : option PytorchEngineConfig)
    : PytorchEngineConfig :=
  (* make sure engine exits *)
  let engine_config := default defaults engine_config in
  let engine_config :=
    if max_batch_size engine_config is None then
      {| max_batch_size := Some (get_max_batch_size (device_type engine_config));
         device_type := device_type engine_config; dp := dp engine_config;
         tp := tp engine_config; ep := ep engine_config;
         dp_rank := dp_rank engine_config |}
    else engine_config in
  if bool_decide (dp engine_config <> 1)
     && bool_decide (tp engine_config = 1) && bool_decide (ep engine_config = 1)
  then
    {| max_batch_size := max_batch_size engine_config;
       device_type := device_type engine_config; dp := 1;
       tp := tp engine_config; ep := ep engine_config; dp_rank := 0 |}
  else engine_config.

(** A running generation: session 1 of [one_prompt], locked for a forward
    step. *)
Definition locked_prompt : Engine :=
  with_seqs (alter (set_status LOCKED) 0%nat) one_prompt.

(** Was the sequence LOCKED? ([is_run] of [_make_infer_outputs]) *)
Definition is_run_of (e : Engine) (m : nat) : bool :=
  match seqs e !! m with
  | Some msg => bool_decide (status msg = LOCKED)
  | None => false
  end.

(** A prompt that has not run yet, sampled with a repetition penalty. *)
Definition fresh_prompt (sid : Z) (tokens : list Z) : SchedulerSequence :=
  {| session_id := sid; all_ids := tokens; num_new_tokens := 0;
     sampling_param :=
       {| max_new_tokens := 12; min_new_tokens := 2; repetition_penalty := 11 # 10;
          logits_processors := None; out_logits := false |};
     adapter_name := None; return_logits := false; status := WAITING;
     resp := Some 5%nat; resp_cache := false; preserve_cache := false;
     migration_request := None; block_table := [] |}.

(** Two prompts of different lengths are admitted for prefill; and the
    bundle the engine assembles for them. *)
Definition two_prompts : bool -> Z -> M SchedulerOutput :=
  fixed_schedule [fresh_prompt 1 [5; 6; 7; 8]; fresh_prompt 2 [9]] [].

Definition two_prompts_bundle : ForwardInputs :=
  {| fi_running := [fresh_prompt 1 [5; 6; 7; 8]; fresh_prompt 2 [9]];
     fi_is_decoding := false;
     fi_swap_in_map := []; fi_swap_out_map := []; loop_count := 1;
     fi_all_ids := Some [[5; 6; 7; 8]; [1; 1; 1; 9]];
     fi_sampling_inputs :=
       {| batch_repetition_penalty := Some [11 # 10; 11 # 10];
          batch_logits_processors := [None; None] |};
     num_appendable_ids := [12; 12]; num_ignore_eos := [2; 2];
     fi_return_logits := false; is_dummy := false |}.

(** The answer to a session request: one bare [ty] on the request's
    handle -- unless the request declined the answer ([response] false) or
    the handle has already finished, and then nothing is posted. *)
Definition session_reply (e e' : Engine) (req : SessionRequest) (ty : ResponseType) : Prop :=
  if decide (sreq_response req <> Some false /\ type_of (sreq_resp req) e <> Some FINISH)
  then caller_receives e e' (sreq_resp req) ty
  else mailbox e' = mailbox e.




(** The output of a forward step for a LOCKED sequence that has produced
    [num_new_tokens] tokens for its message and now gets [token]. *)
Definition step_output (token : Z) (stop : bool) (msg : SchedulerSequence) : InferOutput :=
  {| out_session_id := session_id msg; out_resp := resp msg;
     out_token_ids :=
       drop (length (all_ids msg) - Z.to_nat (num_new_tokens msg)) (all_ids msg) ++ [token];
     out_finish := stop;
     out_cache_block_ids := if resp_cache msg then Some (block_table msg) else None |}.

(** The response [__send_resp] makes of an output. *)
Definition response_of (out : InferOutput) : Response :=
  {| type := Some (if out_finish out then FINISH else SUCCESS);
     data := Some {| data_token_ids := out_token_ids out;
                     data_cache_block_ids := out_cache_block_ids out |};
     err_msg := "" |}.

(** What has been posted on handle [h], oldest first. *)
Definition posts_on (h : nat) (e : Engine) : list (nat * Response) :=
  filter (fun p => p.1 = h) (mailbox e).

End Engine.

(* ===================================================================== *)
(** ** Chat-template resolution ([lmdeploy/model.py]) *)
(* ===================================================================== *)

Module Model.

(** [str.lower()] on the ASCII letters; other characters are left alone
    (model paths are ASCII). *)
Definition lower_ascii (c : Ascii.ascii) : Ascii.ascii :=
  let n := Ascii.nat_of_ascii c in
  if ((65 <=? n) && (n <=? 90))%nat then Ascii.ascii_of_nat (n + 32) else c.

Fixpoint lower (s : string) : string :=
  match s with
  | EmptyString => EmptyString
  | String c s' => String (lower_ascii c) (lower s')
  end.

(** [needle in s] *)
Fixpoint contains (needle s : string) : bool :=
  String.prefix needle s ||
  match s with
  | EmptyString => false
  | String _ s' => contains needle s'
  end.

(** The classmethod [match] of a template class: [None] or a name. *)
Definition Template : Type := string -> option string.

(** [MODELS.module_dict]: a dict, iterated in the order of registration,
    from names to template classes; of a class, resolution uses [match]. *)
Definition Registry : Type := list (string * Template).

Fixpoint best_match_model (module_dict : Registry) (query : string) : string :=
  match module_dict with
  | [] => "base"
  | (name, model) :: rest =>
      match model query with
      | Some matched_name =>
          (* [if matched_name:] an empty string is false *)
          if decide (matched_name = "") then best_match_model rest query
          else matched_name
      | None => best_match_model rest query
      end
  end.

(** The template answers the query with a name Python takes for true. *)
Definition accepts (model : Template) (query name : string) : Prop :=
  model query = Some name /\ name <> "".

Definition rejects (model : Template) (query : string) : Prop :=
  forall name, ~ accepts model query name.

(** *** The first template classes of model.py, as registered *)

Definition BaseModel_match : Template := fun model_path => None.

Definition DeepseekV3_match : Template := fun model_path =>
  let path := lower model_path in
  if contains "deepseek-v3" path then Some "deepseek-v3" else None.

Definition DeepseekR1_match : Template := fun model_path =>
  let path := lower model_path in
  if contains "deepseek-r1" path then Some "deepseek-r1" else None.

Definition CogVLM_match : Template := fun model_path =>
  let path := lower model_path in
  if contains "cogvlm" path && negb (contains "cogvlm2" path) then Some "cogvlm"
  else None.

Definition CogVLM2_match : Template := fun model_path =>
  let path := lower model_path in
  if contains "cogvlm2" path then Some "cogvlm2" else None.

Definition Vicuna_match : Template := fun model_path =>
  let path := lower model_path in
  if contains "vicuna" path && negb (contains "llava" path) then Some "vicuna"
  else if contains "wizardlm" path then Some "wizardlm"
  else None.

Definition Llavav1_match : Template := fun model_path =>
  let path := lower model_path in
  if contains "llava" path && contains "v1" path
     && negb (contains "v1.6-34b" path) && negb (contains "mistral" path)
  then Some "llava-v1"
  else if contains "llava-1.5" path then Some "llava-v1"
  else None.

Definition InternLMChat7B_match : Template := fun model_path =>
  let path := lower model_path in
  if forallb (fun c => negb (contains c path)) ["internlm3"; "internlm2"; "8k"]
     && forallb (fun c => contains c path) ["internlm"; "chat"]
  then Some "internlm" else None.

Definition InternLM2Chat7B_match : Template := fun model_path =>
  let path := lower model_path in
  if contains "internlm2" path && (contains "chat" path || contains "math" path)
  then Some "internlm2"
  else if contains "internlm3" path && contains "instruct" path then Some "internlm3"
  else None.

(** Decorators apply from the innermost outwards, so ['base'] is registered
    before ['llama'], ['vicuna'] before ['wizardlm'], ['internlm2'] before
    ['internlm3']. *)
Definition MODELS_head : Registry :=
  [ ("base", BaseModel_match); ("llama", BaseModel_match);
    ("deepseek-v3", DeepseekV3_match); ("deepseek-r1", DeepseekR1_match);
    ("cogvlm", CogVLM_match); ("cogvlm2", CogVLM2_match);
    ("vicuna", Vicuna_match); ("wizardlm", Vicuna_match);
    ("llava-v1", Llavav1_match); ("internlm", InternLMChat7B_match);
    ("internlm2", InternLM2Chat7B_match); ("internlm3", InternLM2Chat7B_match) ].

End Model.

(* ===================================================================== *)
(** ** The forward steps of [_async_loop_main] *)
(* ===================================================================== *)

Module MainLoop.

(** What one turn of [for idx in range(num_loops)] does, in order. *)
Inductive Step :=
| ClearForward            (* forward_event.clear() *)
| Prefetch                (* collect_migration_done(); prefetch_next_inputs() *)
| GetOutput (idx : Z)     (* get_output_async() and the outputs put on resp_que *)
| SetForward.             (* forward_event.set() *)

#[global] Instance Step_eq_dec : EqDecision Step.
Proof. solve_decision. Defined.

(** The body of the loop at [idx]. *)
Definition turn (num_loops idx : Z) : list Step :=
  (* lock forward event *)
  (if idx =? num_loops `div` 2 then [ClearForward] else []) ++
  (* pre-forward before get last token *)
  (if idx =? num_loops - 1 then [Prefetch] else []) ++
  (* send output *)
  [GetOutput idx] ++
  (* unlock forward event. *)
  (if idx =? num_loops - 1 then [SetForward] else []).

(** [for idx in range(num_loops)]. *)
Definition for_range (num_loops : Z) : list Step :=
  seqZ 0 num_loops ≫= turn num_loops.

(** The forward event under a step, and after a run of steps. *)
Definition forward_event_step (ev : CounterEvent.t) (s : Step) : CounterEvent.t :=
  match s with
  | ClearForward => CounterEvent.clear ev
  | SetForward => CounterEvent.set ev
  | Prefetch | GetOutput _ => ev
  end.

Definition forward_event_after (steps : list Step) (ev : CounterEvent.t) : CounterEvent.t :=
  foldl forward_event_step ev steps.

End MainLoop.

(* ===================================================================== *)
(** ** Chat templates: rendering a prompt (model.py) *)
(* ===================================================================== *)

Module ChatTemplate.

(** A Python [str] is a sequence of code points. *)
Definition str : Type := list N.

(** An ASCII literal. *)
Definition lit (s : string) : str := Ascii.N_of_ascii <$> String.list_ascii_of_string s.

(** The [content] of a message: a string, or a list of parts of which
    [get_text] reads the ['text'] of the first. *)
Inductive Content :=
| Text (s : str)
| Parts (texts : list str).

Record Message := { role : string; content : Content }.

(** [messages]: [str | List]. *)
Inductive Messages :=
| Prompt (s : str)
| History (l : list Message).

Inductive exn :=
| KeyError (key : string)
| IndexError.

(** [get_text]; [content[0]] of an empty list raises IndexError. *)
Definition get_text (content : Content) : exn + str :=
  match content with
  | Text s => inr s
  | Parts [] => inl IndexError
  | Parts (text :: _) => inr text
  end.

(** [BaseChatTemplate], with the [capability] it inherits from
    [BaseModel]. *)
Record BaseChatTemplate := {
  capability : string;
  system : str;
  meta_instruction : option str;
  eosys : str;
  user : str;
  eoh : str;
  assistant : str;
  eoa : str;
  separator : str;
  tool : str;
  eotool : str
}.

Definition get_prompt (self : BaseChatTemplate) (prompt : str) (sequence_start : bool) : str :=
  if decide (capability self = "completion") then prompt
  else if sequence_start then
    (* None is different from '' *)
    match meta_instruction self with
    | Some meta_instruction =>
        system self ++ meta_instruction ++ eosys self ++
        user self ++ prompt ++ eoh self ++ assistant self
    | None => user self ++ prompt ++ eoh self ++ assistant self
    end
  else separator self ++ user self ++ prompt ++ eoh self ++ assistant self.

Definition box_map (self : BaseChatTemplate) (role : string) : option str :=
  if decide (role = "user") then Some (user self)
  else if decide (role = "assistant") then Some (assistant self)
  else if decide (role = "system") then Some (system self)
  else if decide (role = "tool") then Some (tool self)
  else None.

Definition eox_map (self : BaseChatTemplate) (role : string) : option str :=
  if decide (role = "user") then Some (eoh self)
  else if decide (role = "assistant") then Some (eoa self ++ separator self)
  else if decide (role = "system") then Some (eosys self)
  else if decide (role = "tool") then Some (eotool self)
  else None.

(** [for message in messages: ret += ...]; a role outside the maps raises
    KeyError, after [get_text] has read the content. *)
Fixpoint render (self : BaseChatTemplate) (messages : list Message) (ret : str) : exn + str :=
  match messages with
  | [] => inr ret
  | message :: messages' =>
      match get_text (content message) with
      | inl x => inl x
      | inr content =>
          match box_map self (role message), eox_map self (role message) with
          | Some box, Some eox => render self messages' (ret ++ box ++ content ++ eox)
          | _, _ => inl (KeyError (role message))
          end
      end
  end.

(** What [messages2prompt] puts in front of the messages. *)
Definition header (self : BaseChatTemplate) (messages : list Message)
    (sequence_start : bool) : str :=
  match meta_instruction self with
  | Some meta_instruction =>
      if sequence_start
         && match messages with
            | message :: _ => bool_decide (role message <> "system")
            | [] => false
            end
      then system self ++ meta_instruction ++ eosys self
      else []
  | None => []
  end.

(** [ret[:-n]] for [n > 0]. *)
Definition drop_end {A} (n : nat) (ret : list A) : list A := take (length ret - n) ret.

Definition ends_with_assistant (messages : list Message) : bool :=
  match last messages with
  | Some message => bool_decide (role message = "assistant")
  | None => false
  end.

(** [BaseChatTemplate.messages2prompt]; [self_get_prompt] is [self.get_prompt],
    which a derived class overrides. *)
Definition Base_messages2prompt (self_get_prompt : str -> bool -> str)
    (self : BaseChatTemplate) (messages : Messages) (sequence_start : bool) : exn + str :=
  match messages with
  | Prompt messages => inr (self_get_prompt messages sequence_start)
  | History messages =>
      match render self messages (header self messages sequence_start) with
      | inl x => inl x
      | inr ret =>
          let eox_assistant := eoa self ++ separator self in
          if ends_with_assistant messages && bool_decide (0 < length eox_assistant)%nat
          then inr (drop_end (length eox_assistant) ret)  (* prefix of response *)
          else inr (ret ++ assistant self)
      end
  end.

(** [messages2prompt] of a [BaseChatTemplate] object itself. *)
Definition messages2prompt (self : BaseChatTemplate) : Messages -> bool -> exn + str :=
  Base_messages2prompt (get_prompt self) self.

(** *** [Llama3] *)

Definition Llama3_get_prompt (self : BaseChatTemplate) (prompt : str) (sequence_start : bool) : str :=
  if sequence_start then lit "<|begin_of_text|>" ++ get_prompt self prompt sequence_start
  else get_prompt self prompt sequence_start.

Definition is_str (messages : Messages) : bool :=
  match messages with Prompt _ => true | History _ => false end.

Definition Llama3_messages2prompt (self : BaseChatTemplate) (messages : Messages)
    (sequence_start : bool) : exn + str :=
  if sequence_start && negb (is_str messages)
  then
    match Base_messages2prompt (Llama3_get_prompt self) self messages sequence_start with
    | inl x => inl x
    | inr ret => inr (lit "<|begin_of_text|>" ++ ret)
    end
  else Base_messages2prompt (Llama3_get_prompt self) self messages sequence_start.

(** *** [Vicuna] *)

Definition Vicuna_get_prompt (self : BaseChatTemplate) (prompt : str) (sequence_start : bool) : str :=
  if decide (capability self = "chat") then drop_end 1 (get_prompt self prompt sequence_start)
  else get_prompt self prompt sequence_start.

Definition Vicuna_messages2prompt (self : BaseChatTemplate) (messages : Messages)
    (sequence_start : bool) : exn + str :=
  match messages with
  | Prompt s => inr (Vicuna_get_prompt self s sequence_start)
  | History _ =>
      match Base_messages2prompt (Vicuna_get_prompt self) self messages sequence_start with
      | inl x => inl x
      | inr ret => inr (drop_end 1 ret)
      end
  end.

(** [Vicuna()] with the defaults of its [__init__]. *)
Definition Vicuna_default : BaseChatTemplate :=
  {| capability := "chat"; system := [];
     meta_instruction := Some (lit "A chat between a curious user and an artificial intelligence assistant. The assistant gives helpful, detailed, and polite answers to the user's questions.");
     eosys := lit " "; user := lit "USER: "; eoh := lit " ";
     assistant := lit "ASSISTANT: "; eoa := lit "</s>"; separator := [];
     tool := []; eotool := [] |}.

(** *** Vocabulary of the statements *)

(** A message the loop of [messages2prompt] renders: its role is one of
    the four of the maps and its content has a text. *)
Definition renders (message : Message) : Prop :=
  role message ∈ ["user"; "assistant"; "system"; "tool"] /\ content message <> Parts [].

(** The text of a message's content ([[]] where [get_text] raises). *)
Definition text_of (message : Message) : str :=
  match get_text (content message) with inr s => s | inl _ => [] end.

(** The piece of the prompt a message contributes. *)
Definition piece (self : BaseChatTemplate) (message : Message) : str :=
  default [] (box_map self (role message)) ++ text_of message ++
  default [] (eox_map self (role message)).

Definition user_message (s : str) : Message := {| role := "user"; content := Text s |}.
Definition assistant_message (s : str) : Message := {| role := "assistant"; content := Text s |}.

(** The template with another meta instruction. *)
Definition with_meta_instruction (m : option str) (self : BaseChatTemplate) : BaseChatTemplate :=
  {| capability := capability self; system := system self; meta_instruction := m;
     eosys := eosys self; user := user self; eoh := eoh self;
     assistant := assistant self; eoa := eoa self; separator := separator self;
     tool := tool self; eotool := eotool self |}.

End ChatTemplate.

(* ===================================================================== *)
(** ** The registry of chat templates, in full (model.py) *)
(* ===================================================================== *)

Module ModelRegistry.
Import Model.

(** The [match] of the template classes after [InternLM2Chat7B], in the
    order of the file. *)

Definition InternVLInternLM2Chat_match : Template := fun model_path =>
  let path := lower model_path in
  if contains "internvl" path && contains "v1-5" path then
    if contains "mini" path && contains "4b" path then
      (* use internvl-phi3 template *)
      None
    else Some "internvl-internlm2"
  else if contains "chemvlm" path then Some "internvl-internlm2"
  else None.

Definition InternVL2InternLM2_match : Template := fun model_path =>
  let path := lower model_path in
  if (contains "internvl2" path && negb (contains "internvl2-4b" path))
     || contains "mono-internvl" path then
    if contains "internvl2.5" path || contains "internvl2_5" path then None
    else Some "internvl2-internlm2"
  else None.

Definition InternVL2_5_match : Template := fun model_path =>
  let path := lower model_path in
  if contains "internvl2.5" path || contains "internvl2_5" path || contains "internvl3" path
  then Some "internvl2_5" else None.

Definition InternLMXComposer2Chat7B_match : Template := fun model_path =>
  let path := lower model_path in
  if contains "internlm" path && contains "xcomposer2" path then
    if contains "2d5" path then Some "internlm-xcomposer2d5"
    else Some "internlm-xcomposer2"
  else None.

Definition Baichuan2_match : Template := fun model_path =>
  let path := lower model_path in
  if contains "baichuan2" path && contains "chat" path then Some "baichuan2" else None.

Definition Puyu_match : Template := fun model_path =>
  if contains "puyu" (lower model_path) then Some "puyu" else None.

Definition Llama2_match : Template := fun model_path =>
  if contains "llama-2" (lower model_path) || contains "llama2" (lower model_path)
  then Some "llama2" else None.

Definition Llama3_match : Template := fun model_path =>
  (* reject InternVL2-Llama3-76B *)
  if contains "internvl2" (lower model_path) then None
  else if contains "llama-3-" (lower model_path) || contains "llama3-" (lower model_path)
  then Some "llama3" else None.

Definition Llama3_1_match : Template := fun model_path =>
  if contains "llama-3.1-" (lower model_path) || contains "llama3.1-" (lower model_path)
  then Some "llama3_1"
  else if contains "llama-3.2-" (lower model_path) || contains "llama3.2-" (lower model_path)
  then Some "llama3_1"
  else None.

Definition Qwen7BChat_match : Template := fun model_path =>
  let model_path := lower model_path in
  if contains "qwen" model_path
     && negb (existsb (fun keyword => contains keyword model_path) ["qwen2.5"; "qwq"; "qwen3"])
  then Some "qwen"
  else if contains "minicpm-v-2_6" model_path then Some "minicpmv-2d6"
  else if contains "minicpm3-" model_path then Some "minicpm3"
  else None.

Definition Qwen2d5Chat_match : Template := fun model_path =>
  let lower_path := lower model_path in
  if (contains "qwen2.5" lower_path || contains "qwen2_5" lower_path)
     && negb (contains "vl" lower_path)
  then Some "qwen2d5" else None.

Definition Qwen2d5VL_match : Template := fun model_path =>
  let lower_path := lower model_path in
  if (contains "qwen2.5" lower_path || contains "qwen2_5" lower_path)
     && contains "vl" lower_path
  then Some "qwen2d5-vl" else None.

Definition QwQPreview_match : Template := fun model_path =>
  let lower_path := lower model_path in
  if contains "qwq" lower_path && contains "preview" lower_path
  then Some "qwq_preview" else None.

Definition QwQ_match : Template := fun model_path =>
  let lower_path := lower model_path in
  if contains "qwq" lower_path && negb (contains "preview" lower_path)
  then Some "qwq" else None.

Definition Qwen3_match : Template := fun model_path =>
  let lower_path := lower model_path in
  if contains "qwen3" lower_path then Some "qwen3" else None.

Definition CodeLlama_match : Template := fun model_path =>
  if contains "codellama" (lower model_path) then Some "codellama" else None.

Definition ChatGLM2_match : Template := fun model_path =>
  let path := lower model_path in
  if contains "chatglm2" path then Some "chatglm" else None.

Definition SOLAR_match : Template := fun model_path =>
  if contains "solar" (lower model_path) then Some "solar" else None.

Definition UltraChat_match : Template := fun model_path =>
  if contains "ultracm" (lower model_path) then Some "ultracm"
  else if contains "ultralm" (lower model_path) then Some "ultralm"
  else None.

Definition Yi_match : Template := fun model_path =>
  let path := lower model_path in
  if contains "yi" path && negb (contains "vl" path) then Some "yi" else None.

Definition MistralChat_match : Template := fun model_path =>
  let model_path := lower model_path in
  if contains "instruct" model_path || contains "llava" model_path then
    if contains "mistral" model_path then Some "mistral"
    else if contains "mixtral" model_path then Some "mixtral"
    else None
  else None.

Definition Gemma_match : Template := fun model_path =>
  if contains "gemma" (lower model_path) then Some "gemma" else None.

Definition Deepseek_match : Template := fun model_path =>
  let path := lower model_path in
  if contains "deepseek" path && contains "chat" path && negb (contains "vl" path)
  then Some "deepseek" else None.

Definition InternVLZH_match : Template := fun model_path =>
  let path := lower model_path in
  if contains "internvl-chat" path && contains "v1-1" path then Some "internvl-zh"
  else None.

Definition DeepseekVL_match : Template := fun model_path =>
  let path := lower model_path in
  if contains "deepseek-vl" path && contains "chat" path then Some "deepseek-vl"
  else None.

Definition DeepseekVL2_match : Template := fun model_path =>
  let path := lower model_path in
  if contains "deepseek-vl2" path then Some "deepseek-vl2" else None.

Definition DeepSeek_match : Template := fun model_path =>
  let path := lower model_path in
  if contains "deepseek-coder" path then Some "deepseek-coder" else None.

Definition YiVL_match : Template := fun model_path =>
  let path := lower model_path in
  if contains "yi-vl" path then Some "yi-vl" else None.

Definition ChatmlDirect_match : Template := fun model_path =>
  let path := lower model_path in
  if contains "llava" path && contains "v1.6-34b" path then Some "llava-chatml"
  else if contains "internvl-chat" path && contains "v1-2" path
  then Some "internvl-zh-hermes2"
  else None.

Definition Phi3Instruct_match : Template := fun model_path =>
  let path := lower model_path in
  if forallb (fun c => contains c path) ["phi-3"; "instruct"] then Some "phi-3"
  else if forallb (fun c => contains c path) ["phi-4"; "instruct"] then Some "phi-4"
  else None.

Definition InternVL2Phi3_match : Template := fun model_path =>
  let path := lower model_path in
  if contains "internvl2-4b" path then Some "internvl2-phi3" else None.

Definition ChatGLM3_match : Template := fun model_path =>
  let path := lower model_path in
  if contains "chatglm3" path then Some "chatglm3" else None.

Definition Glm4Chat_match : Template := fun model_path =>
  let path := lower model_path in
  if contains "glm-4" path then Some "glm4" else None.

Definition CodeGeeX4Chat_match : Template := fun model_path =>
  let path := lower model_path in
  if contains "codegeex4" path then Some "codegeex4" else None.

Definition InternVLPhi3_match : Template := fun model_path =>
  let path := lower model_path in
  if forallb (fun c => contains c path) ["mini-internvl-chat"; "4b"; "v1-5"]
  then Some "internvl-phi3" else None.

Definition Molmo_match : Template := fun model_path =>
  let path := lower model_path in
  if contains "molmo" path then Some "molmo" else None.

Definition Llama4_match : Template := fun model_path =>
  let path := lower model_path in
  if contains "llama-4" path then Some "llama4" else None.

Definition InternS1_match : Template := fun model_path =>
  let path := lower model_path in
  if contains "intern-s1" path || contains "interns1" path then Some "intern-s1"
  else None.

(** The templates registered after those of [MODELS_head].  A list of
    names registers them in its order; stacked decorators register from the
    innermost outwards. *)
Definition MODELS_tail : Registry :=
  [ ("internvl-internlm2", InternVLInternLM2Chat_match);
    ("internvl2-internlm2", InternVL2InternLM2_match);
    ("internvl2_5", InternVL2_5_match);
    ("internlm-xcomposer2", InternLMXComposer2Chat7B_match);
    ("internlm-xcomposer2d5", InternLMXComposer2Chat7B_match);
    ("baichuan2", Baichuan2_match); ("puyu", Puyu_match);
    ("llama2", Llama2_match); ("llama3", Llama3_match);
    ("llama3_1", Llama3_1_match); ("llama3_2", Llama3_1_match);
    ("qwen", Qwen7BChat_match); ("minicpm3", Qwen7BChat_match);
    ("minicpmv-2d6", Qwen7BChat_match);
    ("qwen2d5", Qwen2d5Chat_match); ("qwen2d5-vl", Qwen2d5VL_match);
    ("qwq_preview", QwQPreview_match); ("qwq", QwQ_match); ("qwen3", Qwen3_match);
    ("codellama", CodeLlama_match); ("chatglm", ChatGLM2_match);
    ("solar", SOLAR_match);
    ("ultracm", UltraChat_match); ("ultralm", UltraChat_match);
    ("yi", Yi_match);
    ("mistral", MistralChat_match); ("mixtral", MistralChat_match);
    ("gemma", Gemma_match); ("deepseek", Deepseek_match);
    ("internvl-zh", InternVLZH_match);
    ("deepseek-vl", DeepseekVL_match); ("deepseek-vl2", DeepseekVL2_match);
    ("deepseek-coder", DeepSeek_match); ("yi-vl", YiVL_match);
    ("llava-chatml", ChatmlDirect_match); ("internvl-zh-hermes2", ChatmlDirect_match);
    ("phi-3", Phi3Instruct_match); ("phi-4", Phi3Instruct_match);
    ("internvl2-phi3", InternVL2Phi3_match);
    ("chatglm3", ChatGLM3_match); ("glm4", Glm4Chat_match);
    ("codegeex4", CodeGeeX4Chat_match); ("internvl-phi3", InternVLPhi3_match);
    ("molmo", Molmo_match); ("llama4", Llama4_match);
    ("interns1", InternS1_match); ("intern-s1", InternS1_match) ].

(** [MODELS.module_dict] once model.py is imported. *)
Definition MODELS : Registry := MODELS_head ++ MODELS_tail.

(** The names under which a template is registered. *)
Definition registered (module_dict : Registry) : list string := module_dict.*1.

(** The template depends on the lower-cased path only. *)
Definition case_blind (model : Template) : Prop :=
  forall model_path, model (lower model_path) = model model_path.

(** Whatever the template answers is one of [names]. *)
Definition answers_within (names : list string) (model : Template) : Prop :=
  forall model_path matched, model model_path = Some matched -> matched ∈ names.

(** The names a template of the registry can answer with. *)
Definition answered : list string :=
  [ "deepseek-v3"; "deepseek-r1"; "cogvlm"; "cogvlm2"; "vicuna"; "wizardlm";
    "llava-v1"; "internlm"; "internlm2"; "internlm3"; "internvl-internlm2";
    "internvl2-internlm2"; "internvl2_5"; "internlm-xcomposer2";
    "internlm-xcomposer2d5"; "baichuan2"; "puyu"; "llama2"; "llama3"; "llama3_1";
    "qwen"; "minicpm3"; "minicpmv-2d6"; "qwen2d5"; "qwen2d5-vl"; "qwq_preview"; "qwq";
    "qwen3"; "codellama"; "chatglm"; "solar"; "ultracm"; "ultralm"; "yi"; "mistral";
    "mixtral"; "gemma"; "deepseek"; "internvl-zh"; "deepseek-vl"; "deepseek-vl2";
    "deepseek-coder"; "yi-vl"; "llava-chatml"; "internvl-zh-hermes2"; "phi-3"; "phi-4";
    "internvl2-phi3"; "chatglm3"; "glm4"; "codegeex4"; "internvl-phi3"; "molmo";
    "llama4"; "intern-s1" ].

(** The names a template other than [DeepseekVL2] can answer with. *)
Definition answered_by_others : list string :=
  filter (fun name => name <> "deepseek-vl2") answered.

End ModelRegistry.

(* ===================================================================== *)
(** ** Architectures the PyTorch engine supports (supported_models.py) *)
(* ===================================================================== *)

Module SupportedModels.

Definition _SUPPORTED_ARCHS : list (string * bool) :=
  [ (* baichuan-7b *)
    ("BaiChuanForCausalLM", false);
    (* baichuan2-7b, baichuan-13b, baichuan2-13b *)
    ("BaichuanForCausalLM", true);
    (* chatglm2-6b, chatglm3-6b *)
    ("ChatGLMModel", true);
    (* deepseek-moe *)
    ("DeepseekForCausalLM", true);
    (* gemma-7b *)
    ("GemmaForCausalLM", true);
    (* internlm *)
    ("InternLMForCausalLM", true);
    (* internlm2 *)
    ("InternLM2ForCausalLM", true);
    ("InternLM2ForRewardModel", true);
    (* internlm-xcomposer *)
    ("InternLMXComposerForCausalLM", false);
    (* internlm2-xcomposer *)
    ("InternLM2XComposerForCausalLM", false);
    (* llama, llama2, alpaca, vicuna, codellama, ultracm, yi,
       deepseek-coder, deepseek-llm *)
    ("LlamaForCausalLM", true);
    (* llama4 *)
    ("Llama4ForConditionalGeneration", true);
    (* Mistral-7B *)
    ("MistralForCausalLM", true);
    (* Mixtral-8x7B *)
    ("MixtralForCausalLM", true);
    (* Qwen 7B-72B, Qwen-VL-7B *)
    ("QWenLMHeadModel", true);
    (* Qwen1.5 7B-72B *)
    ("Qwen2ForCausalLM", true);
    (* Qwen1.5-MoE-A2.7B-Chat *)
    ("Qwen2MoeForCausalLM", true);
    (* Qwen2-VL-7B-Instruct *)
    ("Qwen2VLForConditionalGeneration", true);
    (* Qwen2.5-VL-7B-Instruct *)
    ("Qwen2_5_VLForConditionalGeneration", true);
    (* cogvlm-chat *)
    ("CogVLMForCausalLM", true);
    (* llava *)
    ("LlavaLlamaForCausalLM", false);
    (* llava mistral *)
    ("LlavaMistralForCausalLM", false);
    (* deepseekvl *)
    ("MultiModalityCausalLM", false);
    (* StarCoder2 *)
    ("Starcoder2ForCausalLM", true);
    (* llava hf *)
    ("LlavaForConditionalGeneration", true);
    (* llava_next hf *)
    ("LlavaNextForConditionalGeneration", true);
    (* deepseek-v2 *)
    ("DeepseekV2ForCausalLM", true);
    (* deepseek-vl2 *)
    ("DeepseekVLV2ForCausalLM", true);
    (* internvl *)
    ("InternVLChatModel", true);
    (* mono-internvl *)
    ("InternLM2VEForCausalLM", true);
    (* gemma2 *)
    ("Gemma2ForCausalLM", true);
    (* gemma3 *)
    ("Gemma3ForCausalLM", true);
    (* phi3.5-moe *)
    ("PhiMoEForCausalLM", true);
    (* mllama *)
    ("MllamaForConditionalGeneration", true);
    (* MiniCPM-V-2_6 *)
    ("MiniCPMVForCausalLM", true);
    (* internlm3 *)
    ("InternLM3ForCausalLM", true);
    (* internvl3 *)
    ("InternVLForConditionalGeneration", true);
    (* interns1 *)
    ("InternS1ForConditionalGeneration", true) ].

(** [d[key]] / [key in d] for a dict written as its items. *)
Fixpoint dict_get {V} (d : list (string * V)) (key : string) : option V :=
  match d with
  | [] => None
  | (k, v) :: d' => if decide (k = key) then Some v else dict_get d' key
  end.

(** What [is_supported] reads of the config [AutoConfig.from_pretrained]
    returns.  An attribute the config does not have is [None]; the
    attribute [architectures] can be there and hold Python's None. *)
Record PretrainedConfig := {
  architectures : option (option (list string));
  auto_map : option (list (string * string));
  num_attention_heads : option Z;
  vocab_size : option Z;
  visual : option bool    (* the truth value of [cfg.visual], if there *)
}.

Inductive exn := RuntimeError | TypeError | IndexError | AttributeError.

(** [s.split('.')]: never empty. *)
Fixpoint split_dot (s : string) : list string :=
  match s with
  | EmptyString => [EmptyString]
  | String c s' =>
      if decide (String c EmptyString = ".") then EmptyString :: split_dot s'
      else
        match split_dot s' with
        | x :: xs => String c x :: xs
        | [] => [String c EmptyString]
        end
  end.

(** [s.split('.')[-1]] *)
Definition last_component (s : string) : string := default EmptyString (last (split_dot s)).

(** The architecture [is_supported] takes from the config. *)
Definition arch_of (cfg : PretrainedConfig) : exn + string :=
  match architectures cfg with
  | Some (Some (arch :: _)) => inr arch
  | Some (Some []) => inl IndexError
  | Some None => inl TypeError
  | None =>
      match auto_map cfg with
      | Some auto_map =>
          match dict_get auto_map "AutoModelForCausalLM" with
          | Some cls => inr (last_component cls)
          | None => inl RuntimeError
          end
      | None => inl RuntimeError
      end
  end.

(** [is_supported]; [triton_models_exists] is
    [os.path.exists(os.path.join(model_path, 'triton_models'))] and
    [from_pretrained] the config, [None] when [AutoConfig.from_pretrained]
    raised. *)
Definition is_supported (triton_models_exists : bool)
    (from_pretrained : option PretrainedConfig) : exn + bool :=
  let support_by_torch := false in
  if triton_models_exists then inr support_by_torch
  else
    match from_pretrained with
    | None => inr false
    | Some cfg =>
        match arch_of cfg with
        | inl x => inl x
        | inr arch =>
            match dict_get _SUPPORTED_ARCHS arch with
            | Some support_by_torch =>
                (* special cases *)
                if decide (arch = "BaichuanForCausalLM") then
                  (* baichuan-13B not supported by pytorch *)
                  match num_attention_heads cfg with
                  | None => inl AttributeError
                  | Some heads =>
                      if heads =? 40 then
                        match vocab_size cfg with
                        | None => inl AttributeError
                        | Some vocab =>
                            if vocab =? 64000 then inr false else inr support_by_torch
                        end
                      else inr support_by_torch
                  end
                else if decide (arch = "QWenLMHeadModel") then
                  (* qwen-vl not supported by pytorch *)
                  if default false (visual cfg) then inr false else inr support_by_torch
                else inr support_by_torch
            | None => inr support_by_torch
            end
        end
    end.

(** The architectures the table marks as not supported. *)
Definition unsupported_archs : list string :=
  [ "BaiChuanForCausalLM"; "InternLMXComposerForCausalLM";
    "InternLM2XComposerForCausalLM"; "LlavaLlamaForCausalLM";
    "LlavaMistralForCausalLM"; "MultiModalityCausalLM" ].

(** A Baichuan config with the shape of baichuan-13B. *)
Definition baichuan_13b (cfg : PretrainedConfig) : Prop :=
  num_attention_heads cfg = Some 40 /\ vocab_size cfg = Some 64000.

(** A config of Qwen-7B-Chat, which names its class in [auto_map]
    only. *)
Definition qwen_config : PretrainedConfig :=
  {| architectures := None;
     auto_map := Some [("AutoConfig", "configuration_qwen.QWenConfig");
                       ("AutoModelForCausalLM", "modeling_qwen.QWenLMHeadModel")];
     num_attention_heads := Some 32; vocab_size := Some 151936; visual := None |}.

(** ['.'.join(parts)] *)
Fixpoint join_dot (parts : list string) : string :=
  match parts with
  | [] => EmptyString
  | [x] => x
  | x :: parts' => x +:+ "." +:+ join_dot parts'
  end.

(** The string has no dot in it. *)
Definition dotless (s : string) : Prop := Model.contains "." s = false.

End SupportedModels.

(* ===================================================================== *)
(** ** The command-line chat of the turbomind backend (turbomind/chat.py) *)
(* ===================================================================== *)

Module Chat.

(** An output of [generator.async_stream_infer]: the number of tokens
    generated so far and the token ids the output carries. *)
Record Output := { num_token : Z; token_ids : list Z }.

(** [a[i:]] *)
Definition slice_from {A} (i : Z) (a : list A) : list A :=
  if 0 <=? i then drop (Z.to_nat i) a
  else drop (length a - Z.to_nat (- i)) a.

(** The variables of [async_infer]; [tokens] is unbound until the first
    output arrives.  Of the tokenizer the state keeps the token lists
    handed to [detokenize_incrementally], in order. *)
Record InferState := {
  acc_token_ids : list Z;
  prev_len : Z;
  tokens : option Z;
  detokenized : list (list Z)
}.

(** The body of [async for output in ...]. *)
Definition async_infer_step (st : InferState) (output : Output) : InferState :=
  let tokens := num_token output in
  if prev_len st <? tokens then
    let token_ids := acc_token_ids st ++ slice_from (prev_len st - tokens) (token_ids output) in
    {| acc_token_ids := token_ids; prev_len := tokens; tokens := Some tokens;
       detokenized := detokenized st ++ [token_ids] |}
  else
    {| acc_token_ids := acc_token_ids st; prev_len := prev_len st; tokens := Some tokens;
       detokenized := detokenized st |}.

(** [async_infer] over the outputs the generator yields; [return tokens]
    raises UnboundLocalError ([None] here) when it yielded none. *)
Definition async_infer_run (input_ids : list Z) (outputs : list Output) : InferState :=
  foldl async_infer_step
    {| acc_token_ids := input_ids; prev_len := 0; tokens := None; detokenized := [] |}
    outputs.

Definition async_infer (input_ids : list Z) (outputs : list Output) : option Z :=
  tokens (async_infer_run input_ids outputs).

(** *** The loop of [main] *)

(** [nth_round] and [step]. *)
Record Session := { nth_round : Z; step : Z }.

(** What the user enters, short of 'exit': 'end', or a prompt, of which
    the loop uses the number of input ids it is encoded to -- it depends
    on whether the prompt opens the session ([nth_round == 1]) -- and the
    number of tokens [async_infer] returns for it. *)
Inductive Turn :=
| EndSession
| Say (num_input_ids : bool -> Z) (tokens : Z).

(** A call of [async_infer]: [sequence_start], [step], [len(input_ids)]. *)
Record Request := { sequence_start : bool; req_step : Z; req_input_len : Z }.

(** One pass through the body of [while True], with the requests sent so
    far. *)
Definition chat_turn (chat : bool) (request_output_len session_len : Z)
    (st : Session * list Request) (turn : Turn) : Session * list Request :=
  let '(s, sent) := st in
  match turn with
  | EndSession => ({| nth_round := 1; step := 0 |}, sent)
  | Say num_input_ids tokens =>
      let len_input_ids := num_input_ids (nth_round s =? 1) in
      let sequence_start := if chat then nth_round s =? 1 else true in
      let step := if chat then step s else 0 in
      if session_len <=? step + len_input_ids + request_output_len then
        (* exceed session max length *)
        ({| nth_round := nth_round s; step := step |}, sent)
      else
        (* update step *)
        ({| nth_round := nth_round s + 1; step := step + (len_input_ids + tokens) |},
         sent ++ [{| sequence_start := sequence_start; req_step := step;
                     req_input_len := len_input_ids |}])
  end.

Definition main_loop (chat : bool) (request_output_len session_len : Z)
    (turns : list Turn) : Session * list Request :=
  foldl (chat_turn chat request_output_len session_len)
    ({| nth_round := 1; step := 0 |}, []) turns.

(** *** Vocabulary of the statements *)

(** The outputs of a generation whose tokens are [full]: each output
    carries the tokens up to its [num_token], all of them or only a tail
    that reaches back at least to what the earlier outputs had delivered
    ([prev] tokens). *)
Fixpoint streams (full : list Z) (prev : Z) (outputs : list Output) : Prop :=
  match outputs with
  | [] => True
  | output :: outputs' =>
      num_token output <= Z.of_nat (length full) /\
      (exists k, (k <= Z.to_nat prev)%nat /\
         token_ids output = drop k (take (Z.to_nat (num_token output)) full)) /\
      streams full (Z.max prev (num_token output)) outputs'
  end.

(** The most tokens an output has reported, 0 at least. *)
Definition most_tokens (outputs : list Output) : Z :=
  foldl Z.max 0 (num_token <$> outputs).

(** The engine keeps to the limits: an encoding is never of negative
    length, and an answer has between 0 and [request_output_len] tokens. *)
Definition within_limits (request_output_len : Z) (turn : Turn) : Prop :=
  match turn with
  | EndSession => True
  | Say num_input_ids tokens =>
      (forall b, 0 <= num_input_ids b) /\ 0 <= tokens <= request_output_len
  end.

End Chat.

(* ===================================================================== *)
(** * Theorems *)
(* ===================================================================== *)

Section CounterEventFacts.
Import CounterEvent.

(** Between calls a positive counter always comes with a lowered flag,
    and the counter never goes negative. *)
Lemma reachable_inv e :
  reachable e -> 0 <= _counter e /\ (0 < _counter e -> _event e = false).
Proof.
  induction 1 as [|e _ [Hc Hf]|e _ [Hc Hf]]; cbn.
  - split; [lia | done].
  - destruct (Z.ltb_spec 0 (_counter e)) as [Hp|Hp].
    + split; [lia|]. intros Hq.
      destruct (Z.eqb_spec (_counter e - 1) 0); [lia | auto].
    + split; [lia|]. intros Hq. lia.
  - split; [lia|]. intros _.
    unfold is_set. destruct (Z.eqb_spec (_counter e) 0) as [Hz|Hz]; cbn.
    + by destruct (_event e).
    + apply Hf. lia.
Qed.

(** C1: on the forward event, [clear()] always counts up and leaves the
    flag down (so clearing again changes nothing about the flag), and
    [set()] counts down a positive counter and raises the flag, releasing
    the waiters, exactly when the counter has come back to zero; a
    [set()] that leaves the counter positive leaves the flag down. *)
Theorem counter_event_semantics e :
  reachable e ->
  (_counter (clear e) = _counter e + 1 /\ is_set (clear e) = false /\
   is_set (clear (clear e)) = is_set (clear e)) /\
  ((0 < _counter e -> _counter (set e) = _counter e - 1) /\
   (releases_waiters (set e) <-> _counter (set e) = 0) /\
   (0 < _counter (set e) -> is_set (set e) = false)).
Proof.
  intros Hr.
  pose proof (reachable_inv _ (reach_clear _ Hr)) as [_ Hc1].
  pose proof (reachable_inv _ (reach_clear _ (reach_clear _ Hr))) as [_ Hc2].
  pose proof (reachable_inv _ Hr) as [Hc0 _].
  pose proof (reachable_inv _ (reach_set _ Hr)) as [_ Hs].
  split.
  - assert (H1 : is_set (clear e) = false) by (apply Hc1; cbn; lia).
    split; [done|]. split; [done|].
    rewrite H1. apply Hc2. cbn. lia.
  - split; [|split].
    + intros Hp. cbn. destruct (Z.ltb_spec 0 (_counter e)); lia.
    + unfold releases_waiters, is_set. split.
      * intros Hset.
        destruct (Z.eq_dec (_counter (set e)) 0) as [|Hne]; [done|].
        pose proof (reachable_inv _ (reach_set _ Hr)) as [Hge _].
        rewrite Hs in Hset; [done | lia].
      * intros Hz. cbn in *. by rewrite Hz.
    + exact Hs.
Qed.

Lemma counter_event_semantics_witness :
  (_counter (clear busy_event) = _counter busy_event + 1 /\
   is_set (clear busy_event) = false /\
   is_set (clear (clear busy_event)) = is_set (clear busy_event)) /\
  ((0 < _counter busy_event -> _counter (set busy_event) = _counter busy_event - 1) /\
   (releases_waiters (set busy_event) <-> _counter (set busy_event) = 0) /\
   (0 < _counter (set busy_event) -> is_set (set busy_event) = false)).
Proof.
  apply (counter_event_semantics busy_event).
  repeat constructor.
Defined.

End CounterEventFacts.

Section InputsMakerFacts.
Import InputsMaker.

Lemma lt_half_spec n m : lt_half n m = true <-> 2 * n < m.
Proof.
  unfold lt_half. rewrite negb_true_iff, <- not_true_iff_false, Qle_bool_iff.
  unfold Qle. cbn. lia.
Qed.

Lemma do_prefill_default_spec im s :
  do_prefill_default im s = true <->
  has_waiting s = true /\ spec_do_prefill im s.
Proof.
  unfold do_prefill_default, spec_do_prefill.
  destruct (has_waiting s); cbn; [|split; [done | by intros [? _]]].
  destruct (Z.leb_spec (permitted_waiting im) (num_waiting s)); [split; auto|].
  destruct (lt_half (num_running s) (max_batches im)) eqn:Hh.
  - apply lt_half_spec in Hh. split; auto.
  - split; [done|]. intros [_ [?|Hlt]]; [lia|].
    apply lt_half_spec in Hlt. congruence.
Qed.

(** C2, as the specification states it, fails: with nobody waiting and an
    idle engine, (b) holds but the engine decodes. *)
Lemma do_prefill_spec_counterexample :
  ~ (do_prefill idle_maker idle_view = true <-> spec_do_prefill idle_maker idle_view).
Proof.
  intros [_ H]. assert (Hs : spec_do_prefill idle_maker idle_view).
  { right. cbn. lia. }
  specialize (H Hs). vm_compute in H. discriminate.
Qed.

(** C2 (amended): without data parallelism the engine prefills if and only
    if some sequence is waiting and, in addition, (a) at least
    [permitted_waiting] sequences wait (4 unless the role is Prefill, then 1)
    or (b) fewer than half of [max_batches] sequences run; with nobody
    waiting, and in every other state, it decodes. *)
Theorem do_prefill_iff im s :
  dp im = 1 ->
  (permitted_waiting im = if decide (engine_role im = Prefill) then 1 else 4) /\
  (do_prefill im s = true <-> has_waiting s = true /\ spec_do_prefill im s) /\
  (has_waiting s = false -> do_prefill im s = false).
Proof.
  intros Hdp. unfold do_prefill. rewrite Hdp. cbn.
  split; [|split].
  - unfold permitted_waiting. repeat case_decide; congruence.
  - apply do_prefill_default_spec.
  - intros Hw. unfold do_prefill_default. by rewrite Hw.
Qed.

Lemma do_prefill_iff_witness :
  (permitted_waiting idle_maker =
     if decide (engine_role idle_maker = Prefill) then 1 else 4) /\
  (do_prefill idle_maker idle_view = true <->
     has_waiting idle_view = true /\ spec_do_prefill idle_maker idle_view) /\
  (has_waiting idle_view = false -> do_prefill idle_maker idle_view = false).
Proof.
  apply (do_prefill_iff idle_maker idle_view). reflexivity.
Defined.

End InputsMakerFacts.

Section EngineFacts.
Import Engine.

(** Unfolding of the monad's plumbing. *)
Ltac run :=
  repeat (progress (unfold mbind, M_bind, mret, M_ret, get, modify, raise,
                    get_seq, get_resp, put_resp, update_seq,
                    req_manager_response; cbn)).

(** [_response] on a handle that has not finished writes it and posts it. *)
Lemma response_open h ty d msg e :
  type (default blank (handles e !! h)) <> Some FINISH ->
  _response h ty d msg e =
  Ok tt (with_mailbox (fun mb => mb ++ [(h, {| type := Some ty; data := d; err_msg := msg |})])
          (with_handles (insert h {| type := Some ty; data := d; err_msg := msg |}) e)).
Proof.
  intros Hopen. unfold _response. run.
  destruct (decide _) as [Hfin|_]; [done|]. run.
  by rewrite lookup_insert_eq.
Qed.

(** [_response] on a finished handle does nothing at all. *)
Lemma response_closed h ty d msg e :
  type (default blank (handles e !! h)) = Some FINISH ->
  _response h ty d msg e = Ok tt e.
Proof.
  intros Hfin. unfold _response. run.
  destruct (decide _) as [_|Hopen]; done.
Qed.

Lemma alter_as_insert {A} (f : A -> A) (m : gmap nat A) i x :
  m !! i = Some x -> <[i := f x]> m = alter f i m.
Proof.
  intros Hx. apply map_eq. intros j.
  rewrite lookup_insert, lookup_alter.
  repeat case_decide; subst; try done. by rewrite Hx.
Qed.

(** C7, as the specification states it, fails: [EngineInstance] may end a
    session with [response=False], and then nothing is posted. *)
Lemma end_session_claim_counterexample :
  ~ end_session_claim one_prompt quiet_end.
Proof.
  intros (e' & ty & Hrun & _ & Hpost).
  vm_compute in Hrun. injection Hrun as <-.
  unfold caller_receives in Hpost. vm_compute in Hpost. discriminate.
Qed.

(** The answer of a session callback, whichever of the three ways it
    goes: posted, dropped on a finished handle, or declined. *)
Ltac answered :=
  first [rewrite response_open by done | rewrite response_closed by done | idtac]; run.

Ltac end_session_branches Hwf Hopt :=
  unfold _on_end_session, for_each; run; rewrite Hopt;
  lazymatch goal with
  | |- context [sessions ?e !! ?sid] =>
      destruct (sessions e !! sid) as [[|m0 ms]|] eqn:Hs; run;
      [ (* a session without sequences is destroyed *)
        unfold scheduler_end_session; run; rewrite Hs; run; answered;
        eexists _, SUCCESS; split; [done|]; split; [|done];
        cbn; split; [done|]; split; [apply lookup_delete_eq|];
        split; [intros m Hm; by apply elem_of_nil in Hm | done]
      | destruct (Hwf _ _ m0 Hs) as [msg0 Hm0]; [left|];
        rewrite Hm0; run; destruct (preserve_cache msg0) eqn:Hp;
        [ (* the first sequence keeps its cache *)
          unfold _set_message_status; run; rewrite Hm0; run; answered;
          eexists _, SUCCESS; split; [done|]; split; [|done];
          cbn; rewrite ?Hm0, ?Hp; split; [done|]; split; [done|];
          by apply alter_as_insert
        | unfold scheduler_end_session; run; rewrite Hs; run; answered;
          eexists _, SUCCESS; split; [done|]; split; [|done];
          cbn; rewrite ?Hm0, ?Hp; split; [done|]; split; [apply lookup_delete_eq|];
          split;
          [ intros m Hm; exact (lookup_foldr_delete (seqs e) (m0 :: ms) m Hm)
          | intros m Hm; exact (lookup_foldr_delete_not_elem_of (seqs e) (m0 :: ms) m Hm) ] ]
      | answered; eexists _, SESSION_NOT_EXIST; by split ]
  end.

(** C7 (amended): END_SESSION for an existing session whose first sequence
    asks to preserve its cache moves that sequence to TO_BE_MIGRATED and
    keeps the session; otherwise the session and its sequences are
    destroyed; an unknown session id changes neither sessions nor
    sequences -- all of this whether or not the request wants an answer.
    The caller is answered, SUCCESS in the first two cases and
    SESSION_NOT_EXIST in the third, provided the request did not decline
    the answer ([response] absent or true) and its handle has not already
    finished; otherwise nothing is posted. *)
Theorem end_session_outcomes e req :
  sessions_wf e ->
  exists e' ty,
    _on_end_session [req] e = Ok tt e' /\
    end_session_outcome e (sreq_session_id req) e' ty /\
    if decide (sreq_response req <> Some false /\
               type_of (sreq_resp req) e <> Some FINISH)
    then caller_receives e e' (sreq_resp req) ty
    else mailbox e' = mailbox e.
Proof.
  intros Hwf. unfold end_session_outcome, type_of.
  destruct (decide (sreq_response req <> Some false /\
                    type (default blank (handles e !! sreq_resp req)) <> Some FINISH))
    as [[Hresp Hopen]|Hno].
  - (* the caller is answered *)
    destruct (sreq_response req) as [[]|] eqn:Hopt; [|done|]; end_session_branches Hwf Hopt.
  - destruct (sreq_response req) as [[]|] eqn:Hopt.
    + (* the handle has finished *)
      destruct (decide (type (default blank (handles e !! sreq_resp req)) = Some FINISH))
        as [Hfin|Hopen]; [|by destruct Hno].
      end_session_branches Hwf Hopt.
    + (* the request declined the answer *)
      end_session_branches Hwf Hopt.
    + destruct (decide (type (default blank (handles e !! sreq_resp req)) = Some FINISH))
        as [Hfin|Hopen]; [|by destruct Hno].
      end_session_branches Hwf Hopt.
Qed.

Lemma one_prompt_sessions : sessions one_prompt = <[1 := [0%nat]]> (<[2 := []]> ∅).
Proof. by vm_compute. Qed.

Lemma one_prompt_wf : sessions_wf one_prompt.
Proof.
  intros sid msgs m. rewrite one_prompt_sessions.
  rewrite !lookup_insert, lookup_empty.
  repeat case_decide; intros [= <-] Hm; [|by apply elem_of_nil in Hm].
  apply list_elem_of_singleton in Hm as ->. by eexists.
Qed.

Lemma end_session_outcomes_witness :
  exists e' ty,
    _on_end_session [quiet_end] one_prompt = Ok tt e' /\
    end_session_outcome one_prompt (sreq_session_id quiet_end) e' ty /\
    if decide (sreq_response quiet_end <> Some false /\
               type_of (sreq_resp quiet_end) one_prompt <> Some FINISH)
    then caller_receives one_prompt e' (sreq_resp quiet_end) ty
    else mailbox e' = mailbox one_prompt.
Proof.
  apply (end_session_outcomes one_prompt quiet_end).
  exact one_prompt_wf.
Defined.

Lemma with_seqs_id m msg e :
  seqs e !! m = Some msg -> with_seqs (insert m msg) e = e.
Proof. intros H. destruct e; unfold with_seqs; cbn in *. f_equal. by apply insert_id. Qed.

Lemma update_max_new_tokens_run cfg m msg e :
  seqs e !! m = Some msg ->
  __update_max_new_tokens cfg m e = Ok tt (with_seqs (insert m (capped cfg msg)) e).
Proof.
  intros Hm. unfold __update_max_new_tokens, capped. run. rewrite Hm. run.
  destruct (_ <? _); run.
  - by rewrite Hm.
  - by rewrite with_seqs_id.
Qed.

Lemma capped_bound cfg msg :
  max_new_tokens (sampling_param (capped cfg msg)) =
    (if max_session_len cfg <? max_new_tokens (sampling_param msg) + num_all_tokens msg
     then max_session_len cfg - num_all_tokens msg
     else max_new_tokens (sampling_param msg)) /\
  num_all_tokens (capped cfg msg) = num_all_tokens msg /\
  max_new_tokens (sampling_param (capped cfg msg)) + num_all_tokens (capped cfg msg)
    <= max_session_len cfg.
Proof.
  unfold capped.
  destruct (Z.ltb_spec (max_session_len cfg)
              (max_new_tokens (sampling_param msg) + num_all_tokens msg)); cbn.
  - split; [done|]. split; [done|]. unfold num_all_tokens; cbn. lia.
  - split; [done|]. split; [done|]. lia.
Qed.

Lemma admitted_capped_intro cfg req e' m ms msg0 msg :
  sessions e' !! mreq_session_id req = Some (m :: ms) ->
  seqs e' !! m = Some msg ->
  all_ids msg = all_ids (capped cfg msg0) ->
  sampling_param msg = sampling_param (capped cfg msg0) ->
  sampling_param msg0 = mreq_sampling_param req ->
  admitted_capped cfg req e'.
Proof.
  intros Hs Hm Hids Hsp Hreq. exists m, ms, msg. split; [done|]. split; [done|].
  destruct (capped_bound cfg msg0) as (Hcap & Hn & Hle).
  assert (Hnum : num_all_tokens msg = num_all_tokens msg0).
  { rewrite <- Hn. unfold num_all_tokens. by rewrite Hids. }
  rewrite Hsp, Hnum, <- Hreq. split; [exact Hcap | by rewrite <- Hn].
Qed.

(** C6: admission caps the budget of new tokens.  When [max_new_tokens]
    plus the tokens the sequence holds exceeds the engine's
    [max_session_len], [max_new_tokens] becomes [max_session_len] minus the
    held tokens; either way, right after admission held tokens plus
    [max_new_tokens] is at most [max_session_len]. *)
Theorem add_message_caps_max_new_tokens cfg e req sess :
  sessions_wf e ->
  sessions e !! mreq_session_id req = Some sess ->
  (sess = [] -> mreq_token_ids req <> []) ->
  exists e', _add_message cfg [req] e = Ok tt e' /\ admitted_capped cfg req e'.
Proof.
  intros Hwf Hs Hne. unfold _add_message, for_each. run. rewrite Hs.
  destruct sess as [|m0 ms].
  - (* first message of the session *)
    rewrite bool_decide_eq_true_2
      by (destruct (mreq_token_ids req); [by destruct Hne | cbn; lia]).
    unfold sess_add_sequence. run.
    rewrite lookup_alter_eq, Hs. cbn.
    set (m := fresh (dom (seqs e))).
    set (msg := Build_SchedulerSequence _ _ _ _ _ _ _ _ _ _ _ _).
    erewrite update_max_new_tokens_run by (cbn; apply lookup_insert_eq).
    unfold scheduler_add_sequence, _set_message_status. run.
    rewrite !lookup_insert_eq. run.
    destruct (mreq_migration_request req); run; rewrite ?lookup_insert_eq; run;
      rewrite ?lookup_insert_eq; run;
      (eexists; split; [done|];
       eapply (admitted_capped_intro cfg req _ m [] msg);
       [cbn; by rewrite lookup_alter_eq, Hs
       |cbn; apply lookup_insert_eq | done | done | done]).
  - (* a further message of the session *)
    destruct (Hwf _ _ m0 Hs) as [s0 Hm0]; [left|].
    rewrite Hm0. run.
    set (msg := set_status _ _).
    erewrite update_max_new_tokens_run by (cbn; apply lookup_insert_eq).
    run. rewrite lookup_insert_eq. run.
    eexists; split; [done|].
    eapply (admitted_capped_intro cfg req _ m0 ms msg);
      [done | cbn; apply lookup_insert_eq | done | done | done].
Qed.

Lemma add_message_caps_max_new_tokens_witness :
  exists e', _add_message cfg0 [message 6 1 [5; 6; 7]] one_prompt = Ok tt e' /\
             admitted_capped cfg0 (message 6 1 [5; 6; 7]) e'.
Proof.
  apply (add_message_caps_max_new_tokens cfg0 one_prompt (message 6 1 [5; 6; 7]) [0%nat]).
  - exact one_prompt_wf.
  - by vm_compute.
  - discriminate.
Defined.

(** [_response] always returns, touches neither sessions nor sequences
    and posts at most the response it was given. *)
Lemma response_effect h ty d msg e :
  exists e', _response h ty d msg e = Ok tt e' /\
    sessions e' = sessions e /\ seqs e' = seqs e /\
    (mailbox e' = mailbox e \/
     mailbox e' = mailbox e ++ [(h, {| type := Some ty; data := d; err_msg := msg |})]).
Proof.
  destruct (decide (type (default blank (handles e !! h)) = Some FINISH)) as [Hfin|Hopen].
  - rewrite response_closed by done. eexists. split; [done|]. auto.
  - rewrite response_open by done. eexists. split; [done|]. cbn. auto.
Qed.

Lemma collect_valid_reqs_effect reqs : forall valid e,
  exists e' more posted,
    collect_valid_reqs reqs valid e = Ok (valid ++ more) e' /\
    sessions e' = sessions e /\ seqs e' = seqs e /\
    mailbox e' = mailbox e ++ posted /\ all_of_type SESSION_NOT_EXIST posted.
Proof.
  induction reqs as [|req reqs IH]; intros valid e; cbn.
  - exists e, [], []. rewrite !app_nil_r. repeat split; constructor.
  - run. destruct (sessions e !! mreq_session_id req) eqn:Hs.
    + destruct (IH (valid ++ [req]) e) as (e' & more & posted & Hrun & H).
      exists e', (req :: more), posted. rewrite Hrun.
      by rewrite <- app_assoc.
    + destruct (response_effect (mreq_resp req) SESSION_NOT_EXIST None "" e)
        as (e1 & Hrun1 & Hs1 & Hq1 & Hmb1).
      rewrite Hrun1.
      destruct (IH valid e1) as (e' & more & posted & Hrun & Hs' & Hq' & Hmb' & Hall).
      rewrite Hrun. exists e', more.
      destruct Hmb1 as [Hmb1|Hmb1]; rewrite Hmb1 in Hmb'.
      * exists posted. repeat split; congruence.
      * eexists (_ :: posted). rewrite <- app_assoc in Hmb'.
        repeat split; [congruence..|done|]. by constructor.
Qed.


Lemma posted_on_snoc h h' r e :
  posted_on h (with_mailbox (fun mb => mb ++ [(h', r)]) e) =
  posted_on h e ++ (if decide (h' = h) then [type r] else []).
Proof.
  unfold posted_on. cbn. rewrite filter_app, fmap_app. f_equal.
  rewrite filter_cons. cbn. by case_decide.
Qed.

Lemma send_resps_cons out outs e :
  __send_resps (out :: outs) e =
  match __send_resp out e with
  | Ok _ e' => __send_resps outs e'
  | Raised x e' => Raised x e'
  end.
Proof. reflexivity. Qed.

(** What the response activity delivers on one handle: a run of SUCCESS,
    closed by at most one FINISH; nothing at all once the handle holds
    FINISH, and a handle that holds FINISH keeps it. *)
Lemma send_resps_stream h outs : forall e,
  exists e' k (fin : bool),
    (__send_resps outs e = Ok tt e' \/ __send_resps outs e = Raised AttributeError e') /\
    posted_on h e' =
      posted_on h e ++ replicate k (Some SUCCESS) ++ (if fin then [Some FINISH] else []) /\
    (type_of h e = Some FINISH -> k = 0%nat /\ fin = false /\ type_of h e' = Some FINISH) /\
    (fin = true -> type_of h e' = Some FINISH).
Proof.
  induction outs as [|out outs IH]; intros e.
  - exists e, 0%nat, false. cbn. rewrite app_nil_r.
    split; [by left|]. by repeat split.
  - rewrite send_resps_cons. unfold __send_resp.
    destruct (out_resp out) as [h'|]; last first.
    { exists e, 0%nat, false. cbn. rewrite app_nil_r.
      split; [by right|]. by repeat split. }
    set (ty := if out_finish out then FINISH else SUCCESS).
    set (d := Some _).
    destruct (decide (type (default blank (handles e !! h')) = Some FINISH)) as [Hfin|Hopen].
    + rewrite response_closed by done. apply IH.
    + rewrite response_open by done.
      set (e1 := with_mailbox _ _).
      destruct (IH e1) as (e' & k & fin & Hrun & Hposted & Hclosed & Hfinal).
      assert (Hp1 : posted_on h e1 =
                    posted_on h e ++ (if decide (h' = h) then [Some ty] else [])).
      { unfold e1. by rewrite posted_on_snoc. }
      assert (Ht1 : type_of h e1 = if decide (h' = h) then Some ty else type_of h e).
      { unfold e1, type_of. cbn. rewrite lookup_insert. by case_decide. }
      destruct (decide (h' = h)) as [->|Hne].
      * (* a response on [h] itself *)
        unfold ty in *. destruct (out_finish out).
        -- destruct (Hclosed Ht1) as (-> & -> & Hkeep).
           exists e', 0%nat, true. split; [done|].
           rewrite Hposted, Hp1. cbn. rewrite app_nil_r.
           split; [done|]. split; [|done]. intros Habs. by destruct Hopen.
        -- exists e', (S k), fin. split; [done|].
           rewrite Hposted, Hp1. cbn. rewrite <- app_assoc.
           split; [done|]. split; [|done]. intros Habs. by destruct Hopen.
      * exists e', k, fin. split; [done|].
        rewrite Hposted, Hp1, app_nil_r. split; [done|].
        rewrite Ht1 in Hclosed. by split.
Qed.

(** C5 holds for what [_response] lets through, but [_on_stop_session]
    writes FINISH on the sequence's handle and posts it without asking
    whether the handle has finished: a STOP_SESSION that arrives after the
    stream's FINISH posts a second FINISH on the same handle, so the stream
    reads SUCCESS FINISH FINISH. *)
Theorem stop_after_finish_posts_again :
  posted_on 5 finished_stream = [Some SUCCESS; Some FINISH] /\
  posted_on 5 (state_of (_on_stop_session [late_stop] finished_stream)) =
    [Some SUCCESS; Some FINISH; Some FINISH] /\
  ~ finish_is_last 5 finished_stream
      (state_of (_on_stop_session [late_stop] finished_stream)).
Proof.
  assert (H1 : posted_on 5 finished_stream = [Some SUCCESS; Some FINISH])
    by by vm_compute.
  assert (H2 : posted_on 5 (state_of (_on_stop_session [late_stop] finished_stream)) =
               [Some SUCCESS; Some FINISH; Some FINISH]) by by vm_compute.
  split; [done|]. split; [done|].
  unfold finish_is_last. rewrite H1, H2. intros H.
  discriminate H. set_solver.
Qed.

Lemma migrate_one_ok e m e1 :
  migratable e m -> seqs e1 = seqs e ->
  exists e2, migrate_one m e1 = Ok tt e2 /\ untouched e1 e2.
Proof.
  intros (msg & mr & Hm & Hmr & Hok) Hseqs. unfold migrate_one. run.
  rewrite Hseqs, Hm. run. rewrite Hmr.
  destruct (is_dummy_prefill mr) eqn:Hd.
  - by exists e1.
  - destruct Hok as [|Hlen]; [done|].
    rewrite bool_decide_eq_true_2 by done. by eexists.
Qed.

Lemma migrate_one_mismatch e m e1 :
  mismatched e m -> seqs e1 = seqs e -> migrate_one m e1 = Raised TypeError e1.
Proof.
  intros (msg & mr & Hm & Hmr & Hd & Hlen) Hseqs. unfold migrate_one. run.
  rewrite Hseqs, Hm. run. rewrite Hmr, Hd.
  by rewrite bool_decide_eq_false_2.
Qed.

Lemma untouched_trans e1 e2 e3 : untouched e1 e2 -> untouched e2 e3 -> untouched e1 e3.
Proof. unfold untouched. intros (?&?&?&?&?) (?&?&?&?&?). repeat split; congruence. Qed.

Lemma migrate_loop_mismatch e m post pre : forall e1,
  Forall (migratable e) pre -> mismatched e m -> seqs e1 = seqs e ->
  exists e2, for_each (pre ++ m :: post) migrate_one e1 = Raised TypeError e2 /\
             untouched e1 e2.
Proof.
  induction pre as [|m' pre IH]; intros e1 Hpre Hbad Hseqs; cbn; run.
  - rewrite (migrate_one_mismatch e) by done. by exists e1.
  - apply Forall_cons in Hpre as [Hm' Hpre].
    destruct (migrate_one_ok e m' e1) as (e2 & -> & Hu); [done..|].
    destruct (IH e2) as (e3 & -> & Hu'); [done..| |].
    { destruct Hu as (_ & _ & _ & -> & _). done. }
    exists e3. split; [done|]. by eapply untouched_trans.
Qed.

(** C4, as the specification states it, fails: the round with the
    mismatched sequence does not complete, and no FINISH reaches the
    sequence's stream. *)
Lemma mismatch_is_local_counterexample :
  ~ mismatch_is_local short_of_blocks [0%nat; 1%nat] 1%nat.
Proof.
  intros (e' & Hrun & _). vm_compute in Hrun. discriminate.
Qed.

(** C4 (amended): when a non-dummy-prefill sequence of a migration round
    has a number of remote prefill block ids that differs from the number
    of its local decode block ids, the assertion in the loop fails and an
    exception leaves [_async_loop_migration], which has no handler: nothing
    is posted or queued for that sequence or any other of the round -- no
    FINISH is sent -- and the sequences keep their state.  The
    done-callback of the failed migration task cancels every other loop
    task, and the cancelled [async_loop] stops and releases the executor. *)
Theorem migration_mismatch_raises cfg e pre m post :
  engine_role cfg <> Hybrid ->
  Forall (migratable e) pre -> mismatched e m ->
  exists x e',
    migration_round (pre ++ m :: post) e = Raised x e' /\
    untouched e e' /\
    (let tasks := task_finishes "MainLoopMigration" (Failed x) (loop_tasks cfg) in
     ("MainLoop", CancelRequested) ∈ tasks /\
     Forall (fun t => t.2 <> Alive) tasks) /\
    exists e'', async_loop_exit Cancelled e' = Ok Cancelled e'' /\
                executor_stopped e'' = true /\ executor_released e'' = true.
Proof.
  intros Hrole Hpre Hbad.
  destruct (migrate_loop_mismatch e m post pre (with_migration_event false e))
    as (e' & Hrun & Hu); [done..|].
  exists TypeError, e'. split; [|split; [|split]].
  - unfold migration_round. run. by rewrite Hrun.
  - destruct Hu as (?&?&?&?&?). by repeat split.
  - unfold loop_tasks. destruct (decide _) as [_|]; [|done]. cbn.
    split; [set_solver|]. by repeat constructor.
  - eexists. by repeat split.
Qed.

Lemma short_of_blocks_seqs :
  seqs short_of_blocks !! 0%nat =
    Some {| session_id := 2; all_ids := [1; 2; 3]; num_new_tokens := 0;
            sampling_param := set_max_new_tokens 13 greedy; adapter_name := None;
            return_logits := false; status := WAITING_MIGRATION; resp := Some 6%nat;
            resp_cache := false; preserve_cache := false;
            migration_request := Some (remote_prefill true); block_table := [] |} /\
  seqs short_of_blocks !! 1%nat =
    Some {| session_id := 1; all_ids := [1; 2; 3]; num_new_tokens := 0;
            sampling_param := set_max_new_tokens 13 greedy; adapter_name := None;
            return_logits := false; status := WAITING_MIGRATION; resp := Some 5%nat;
            resp_cache := false; preserve_cache := false;
            migration_request := Some (remote_prefill false); block_table := [2; 5] |}.
Proof. split; by vm_compute. Qed.

Lemma migration_mismatch_raises_witness :
  exists x e',
    migration_round ([0%nat] ++ 1%nat :: []) short_of_blocks = Raised x e' /\
    untouched short_of_blocks e' /\
    (let tasks := task_finishes "MainLoopMigration" (Failed x) (loop_tasks decode_cfg) in
     ("MainLoop", CancelRequested) ∈ tasks /\
     Forall (fun t => t.2 <> Alive) tasks) /\
    exists e'', async_loop_exit Cancelled e' = Ok Cancelled e'' /\
                executor_stopped e'' = true /\ executor_released e'' = true.
Proof.
  destruct short_of_blocks_seqs as [H0 H1].
  apply (migration_mismatch_raises decode_cfg short_of_blocks [0%nat] 1%nat []).
  - discriminate.
  - constructor; [|constructor]. eexists _, _. split; [exact H0|]. split; [done|]. by left.
  - eexists _, _. split; [exact H1|]. split; [done|]. split; [done|]. cbn. lia.
Defined.

Lemma existsb_needs_history seqs :
  existsb penalty_active seqs = true \/
  existsb truthy_list ((fun seq => logits_processors (sampling_param seq)) <$> seqs) = true
  <-> Exists needs_history seqs.
Proof.
  induction seqs as [|seq seqs IH]; cbn.
  - split; [by intros [?|?] | by intros ?%Exists_nil].
  - rewrite Exists_cons, <- IH, !orb_true_iff. unfold needs_history, has_logits_processor.
    tauto.
Qed.

(** On a batch that is not empty [__gather_all_ids] returns, and returns
    [None] exactly when the batched penalty is absent and no entry of the
    batched logits processors is truthy. *)
Lemma gather_all_ids_run cfg seq seqs si e :
  exists a, __gather_all_ids cfg (seq :: seqs) si e = Ok a e /\
    (a = None <->
     batch_repetition_penalty si = None /\
     existsb truthy_list (batch_logits_processors si) = false).
Proof.
  unfold __gather_all_ids.
  destruct (bool_decide_reflect (batch_repetition_penalty si = None)) as [Hp|Hp];
    destruct (existsb truthy_list (batch_logits_processors si)) eqn:Hl; cbn;
    eexists; (split; [reflexivity|]); split; try done; by intros [? ?].
Qed.

(** What a bundle is made of: a batch that is not empty, its sampling
    inputs, and the gathered histories. *)
Lemma make_forward_inputs_bundle schedule cfg prefill enable_empty e fi e' :
  _make_forward_inputs schedule cfg prefill enable_empty e = Ok (Some fi) e' ->
  fi_running fi <> [] /\
  fi_sampling_inputs fi = from_sampling_params (fi_running fi) /\
  __gather_all_ids cfg (fi_running fi) (fi_sampling_inputs fi) e' = Ok (fi_all_ids fi) e'.
Proof.
  unfold _make_forward_inputs. run.
  destruct (schedule prefill _ e) as [out1 e1|]; [|done].
  destruct (enable_empty && _); [done|].
  assert (Hbuild : forall (pf : bool) out e2,
    (if bool_decide (length (running out) = 0%nat) then mret None
     else
       all_ids ← __gather_all_ids cfg (running out) (from_sampling_params (running out));
       mret (Some
         {| fi_running := running out; fi_is_decoding := negb pf;
            fi_swap_in_map := swap_in_map out; fi_swap_out_map := swap_out_map out;
            loop_count := if pf then 1 else prefill_interval cfg;
            fi_all_ids := all_ids;
            fi_sampling_inputs := from_sampling_params (running out);
            num_appendable_ids := __get_num_appendable_ids (running out);
            num_ignore_eos := __get_num_ignore_eos (running out);
            fi_return_logits := __need_logits (running out);
            is_dummy := false |})) e2 = Ok (Some fi) e' ->
    fi_running fi <> [] /\
    fi_sampling_inputs fi = from_sampling_params (fi_running fi) /\
    __gather_all_ids cfg (fi_running fi) (fi_sampling_inputs fi) e' = Ok (fi_all_ids fi) e').
  { intros pf out e2. destruct (running out) as [|seq seqs] eqn:Hrun; [done|].
    rewrite bool_decide_eq_false_2 by done. unfold mbind, M_bind.
    destruct (gather_all_ids_run cfg seq seqs (from_sampling_params (seq :: seqs)) e2)
      as (a & Hg & _).
    rewrite Hg. unfold mret, M_ret. intros [= <- <-]. cbn -[__gather_all_ids].
    done. }
  destruct (prefill && _ && _); run.
  - destruct (schedule false _ e1) as [out2 e2|]; [|done]. apply Hbuild.
  - apply Hbuild.
Qed.

(** C8: in every bundle of forward inputs, [all_ids] is present if and
    only if some scheduled sequence has an active repetition penalty or a
    logits processor attached; otherwise it is [None], and no history was
    gathered. *)
Theorem all_ids_present_iff schedule cfg prefill enable_empty e fi e' :
  _make_forward_inputs schedule cfg prefill enable_empty e = Ok (Some fi) e' ->
  (fi_all_ids fi <> None <-> Exists needs_history (fi_running fi)) /\
  (fi_all_ids fi = None <-> Forall (fun seq => ~ needs_history seq) (fi_running fi)).
Proof.
  intros (Hne & Hsi & Hg)%make_forward_inputs_bundle.
  destruct (fi_running fi) as [|seq seqs] eqn:Hrun; [done|].
  destruct (gather_all_ids_run cfg seq seqs (fi_sampling_inputs fi) e') as (a & Hg' & Ha).
  rewrite Hg' in Hg. injection Hg as ->.
  assert (Hiff : fi_all_ids fi <> None <-> Exists needs_history (seq :: seqs)).
  { rewrite <- existsb_needs_history, Ha, Hsi. unfold from_sampling_params.
    cbn [batch_repetition_penalty batch_logits_processors].
    generalize (existsb truthy_list
      ((fun seq0 => logits_processors (sampling_param seq0)) <$> seq :: seqs)).
    generalize (existsb penalty_active (seq :: seqs)).
    intros [] [].
    - split; [by left | by intros _ [? _]].
    - split; [by left | by intros _ [? _]].
    - split; [by right | by intros _ [_ ?]].
    - split; [intros H; by destruct H | by intros [?|?]]. }
  split; [done|].
  rewrite Forall_Exists_neg, <- Hiff.
  destruct (fi_all_ids fi) as [rows|].
  - split; [done | intros H; by destruct H].
  - split; [by intros _ H | done].
Qed.

Lemma all_ids_present_iff_witness :
  (fi_all_ids penalised_bundle <> None <->
     Exists needs_history (fi_running penalised_bundle)) /\
  (fi_all_ids penalised_bundle = None <->
     Forall (fun seq => ~ needs_history seq) (fi_running penalised_bundle)).
Proof.
  apply (all_ids_present_iff cache_full_penalised cfg0 true false empty_engine
           penalised_bundle empty_engine).
  reflexivity.
Defined.

(** C10, as the specification states it, fails twice over for a Hybrid
    engine: asked to prefetch ([enable_empty]), it reports no inputs
    although a sequence could decode; and with nothing to decode either,
    it reports no inputs after re-scheduling. *)
Lemma empty_prefill_claim_counterexample :
  ~ empty_prefill_claim cache_full cfg0 true empty_engine /\
  ~ empty_prefill_claim nothing_runs cfg0 false empty_engine.
Proof.
  split; intros H.
  - destruct (H _ _ eq_refl eq_refl) as (fi & e2 & Hrun & _). discriminate Hrun.
  - destruct (H _ _ eq_refl eq_refl) as (fi & e2 & Hrun & _). discriminate Hrun.
Qed.

(** C10 (amended): when a prefill step is requested and the prefill
    schedule yields an empty running set, then: with [enable_empty] set
    (the prefetch of the main loop) no inputs are returned, whatever the
    role; otherwise a Prefill-role engine returns no inputs, and an engine
    of another role schedules again, for decoding, and returns the decode
    batch with [loop_count = prefill_interval] if that batch is not empty,
    and no inputs if it is empty as well. *)
Theorem empty_prefill_fallback schedule cfg enable_empty e out1 e1 :
  schedule true (prefill_interval cfg) e = Ok out1 e1 ->
  running out1 = [] ->
  let inputs := _make_forward_inputs schedule cfg true enable_empty e in
  if enable_empty then inputs = Ok None e1
  else if decide (engine_role cfg = Prefill) then inputs = Ok None e1
  else
    match schedule false (prefill_interval cfg) e1 with
    | Raised x e2 => inputs = Raised x e2
    | Ok out2 e2 =>
        if decide (running out2 = []) then inputs = Ok None e2
        else exists fi,
          inputs = Ok (Some fi) e2 /\
          fi_running fi = running out2 /\
          fi_is_decoding fi = true /\
          loop_count fi = prefill_interval cfg
    end.
Proof.
  intros Hs1 Hempty. cbv zeta.
  unfold _make_forward_inputs, mbind, M_bind, mret, M_ret.
  rewrite Hs1. cbv beta iota. rewrite !Hempty. cbn [length andb].
  rewrite !(bool_decide_eq_true_2 (0%nat = 0%nat)) by done.
  destruct enable_empty; [done|]. cbn [andb].
  destruct (decide (engine_role cfg = Prefill)) as [Hrole|Hrole].
  - rewrite bool_decide_eq_false_2 by (intros Hne; by destruct Hne).
    cbv beta iota. rewrite !Hempty. cbn [length].
    by rewrite bool_decide_eq_true_2.
  - rewrite bool_decide_eq_true_2 by done.
    destruct (schedule false (prefill_interval cfg) e1) as [out2 e2|x e2]; [|done].
    cbv beta iota.
    destruct (decide (running out2 = [])) as [Hnil|Hrun].
    + rewrite !Hnil. cbn [length]. by rewrite bool_decide_eq_true_2.
    + destruct (running out2) as [|seq seqs] eqn:Hout2; [done|].
      rewrite bool_decide_eq_false_2 by done.
      destruct (gather_all_ids_run cfg seq seqs (from_sampling_params (seq :: seqs)) e2)
        as (a & Hg & _).
      rewrite Hg. eexists. split; [reflexivity|]. done.
Qed.

Lemma empty_prefill_fallback_witness :
  exists fi,
    _make_forward_inputs cache_full cfg0 true false empty_engine =
      Ok (Some fi) empty_engine /\
    fi_running fi = [decoding_seq 1 None] /\
    fi_is_decoding fi = true /\
    loop_count fi = prefill_interval cfg0.
Proof.
  exact (empty_prefill_fallback cache_full cfg0 false empty_engine
           {| running := []; swap_in_map := []; swap_out_map := [] |} empty_engine
           eq_refl eq_refl).
Defined.

End EngineFacts.

Section ModelFacts.
Import Model.

Example best_match_deepseek :
  best_match_model MODELS_head "lmsys/Vicuna-7B-DeepSeek-R1" = "deepseek-r1".
Proof. reflexivity. Qed.

Example best_match_internlm2 :
  best_match_model MODELS_head "internlm/internlm2-chat-7b" = "internlm2".
Proof. reflexivity. Qed.

Example best_match_unknown : best_match_model MODELS_head "openai/gpt2" = "base".
Proof. reflexivity. Qed.

Lemma best_match_model_skip name model rest query :
  rejects model query ->
  best_match_model ((name, model) :: rest) query = best_match_model rest query.
Proof.
  intros Hrej. cbn. destruct (model query) as [matched|] eqn:Hm; [|done].
  case_decide; [done|]. by destruct (Hrej matched).
Qed.

Lemma best_match_model_hit name model rest query matched :
  accepts model query matched ->
  best_match_model ((name, model) :: rest) query = matched.
Proof. intros [Hm Hne]. cbn. rewrite Hm. by case_decide. Qed.

Lemma accepts_or_rejects model query :
  (exists name, accepts model query name) \/ rejects model query.
Proof.
  destruct (model query) as [matched|] eqn:Hm.
  - destruct (decide (matched = "")) as [->|Hne].
    + right. intros name [Hn Hne]. congruence.
    + left. by exists matched.
  - right. intros name [Hn _]. congruence.
Qed.

(** C9: [best_match_model] walks the registered templates in registration
    order and returns the name given by the first template whose [match]
    accepts the query; when no registered template accepts it, the
    result is ['base']. *)
Theorem best_match_model_first_match (reg : Registry) query result :
  best_match_model reg query = result <->
  (exists i name model,
      reg !! i = Some (name, model) /\ accepts model query result /\
      forall j entry, (j < i)%nat -> reg !! j = Some entry -> rejects entry.2 query) \/
  (result = "base" /\ forall entry, entry ∈ reg -> rejects entry.2 query).
Proof.
  revert result. induction reg as [|[name model] rest IH]; intros result.
  - cbn. split.
    + intros <-. right. split; [done|]. intros entry Hin. by apply elem_of_nil in Hin.
    + intros [(i & n & m & Hi & _)|[-> _]]; [|done]. by destruct i.
  - destruct (accepts_or_rejects model query) as [[matched Hacc]|Hrej].
    + rewrite (best_match_model_hit _ _ _ _ _ Hacc). split.
      * intros <-. left. exists 0%nat, name, model.
        split; [done|]. split; [done|]. intros j entry Hj. lia.
      * intros [(i & n & m & Hi & Hres & Hbefore)|[_ Hnone]].
        -- destruct i as [|i].
           ++ injection Hi as <- <-. destruct Hacc as [H1 _], Hres as [H2 _]. congruence.
           ++ by destruct (Hbefore 0%nat (name, model) ltac:(lia) eq_refl matched).
        -- by destruct (Hnone (name, model) ltac:(left) matched).
    + rewrite best_match_model_skip by done. rewrite IH. split.
      * intros [(i & n & m & Hi & Hres & Hbefore)|[-> Hnone]].
        -- left. exists (S i), n, m. split; [done|]. split; [done|].
           intros [|j] entry Hj Hentry.
           ++ by injection Hentry as <-.
           ++ apply (Hbefore j); [lia | done].
        -- right. split; [done|]. intros entry [->|Hin]%elem_of_cons; auto.
      * intros [(i & n & m & Hi & Hres & Hbefore)|[-> Hnone]].
        -- destruct i as [|i].
           ++ injection Hi as <- <-. by destruct (Hrej result).
           ++ left. exists i, n, m. split; [done|]. split; [done|].
              intros j entry Hj Hentry. apply (Hbefore (S j)); [lia | done].
        -- right. split; [done|]. intros entry Hin. apply Hnone. by right.
Qed.

End ModelFacts.

(* ===================================================================== *)
(** * Further properties of the engine loop *)
(* ===================================================================== *)

Section EngineCoverage.
Import Engine.

Ltac run_m :=
  repeat (progress (unfold mbind, M_bind, mret, M_ret, get, modify, raise,
                    get_seq, get_resp, put_resp, update_seq,
                    req_manager_response; cbn)).

(** X1: through one response handle the response activity delivers a run of
    SUCCESS closed by at most one FINISH; when the handle already holds
    FINISH it delivers nothing, and a handle that holds FINISH keeps it. *)
Theorem response_stream_shape h outs e :
  exists e' k (fin : bool),
    (__send_resps outs e = Ok tt e' \/ __send_resps outs e = Raised AttributeError e') /\
    posted_on h e' =
      posted_on h e ++ replicate k (Some SUCCESS) ++ (if fin then [Some FINISH] else []) /\
    (type_of h e = Some FINISH -> k = 0%nat /\ fin = false /\ type_of h e' = Some FINISH) /\
    (fin = true -> type_of h e' = Some FINISH).
Proof. apply send_resps_stream. Qed.

(** [_response] leaves a finished handle finished and posts nothing on it,
    whichever handle it is called for. *)
Lemma response_keeps_finish h h' ty d msg e :
  type_of h e = Some FINISH ->
  exists e', _response h' ty d msg e = Ok tt e' /\
    type_of h e' = Some FINISH /\ posted_on h e' = posted_on h e /\
    seqs e' = seqs e /\ sessions e' = sessions e.
Proof.
  intros Hfin.
  destruct (decide (type (default blank (handles e !! h')) = Some FINISH)) as [Hc|Ho].
  - rewrite response_closed by done. by exists e.
  - rewrite response_open by done. eexists. split; [done|].
    assert (Hne : h' <> h) by (intros ->; by destruct Ho).
    split; [|split; [|done]].
    + unfold type_of. cbn. by rewrite lookup_insert_ne.
    + rewrite posted_on_snoc. case_decide; [done|]. by rewrite app_nil_r.
Qed.

Lemma for_each_cons {A} (x : A) l body e :
  for_each (x :: l) body e =
  match body x e with
  | Ok _ e' => for_each l body e'
  | Raised x e' => Raised x e'
  end.
Proof. reflexivity. Qed.

Lemma set_message_status_run m st msg e :
  seqs e !! m = Some msg ->
  _set_message_status m st e = Ok tt (with_seqs (insert m (set_status st msg)) e).
Proof. intros Hm. unfold _set_message_status. run_m. by rewrite Hm. Qed.

Lemma with_seqs_compose f g e : with_seqs g (with_seqs f e) = with_seqs (fun sq => g (f sq)) e.
Proof. reflexivity. Qed.

(** A loop of [_set_message_status] over sequences that exist returns; it
    touches the sequences only, keeps each of them in the store and keeps
    its handle. *)
Lemma set_status_loop st ms : forall e,
  (forall m, m ∈ ms -> is_Some (seqs e !! m)) ->
  exists e', for_each ms (fun m => _set_message_status m st) e = Ok tt e' /\
    handles e' = handles e /\ sessions e' = sessions e /\ mailbox e' = mailbox e /\
    (forall m msg, seqs e !! m = Some msg ->
       exists msg', seqs e' !! m = Some msg' /\ resp msg' = resp msg /\
                    (msg' = msg \/ msg' = set_status st msg)) /\
    (forall m, seqs e !! m = None -> seqs e' !! m = None).
Proof.
  induction ms as [|m ms IH]; intros e Hall.
  - exists e. cbn. repeat split; eauto.
  - destruct (Hall m) as [msg Hm]; [left|].
    rewrite for_each_cons, (set_message_status_run m st msg) by done.
    set (e1 := with_seqs (insert m (set_status st msg)) e).
    destruct (IH e1) as (e' & Hrun & Hh & Hs & Hmb & Hkeep & Hnone).
    { intros m' Hm'. unfold e1. cbn. rewrite lookup_insert.
      case_decide; [by eexists|]. apply Hall. by right. }
    exists e'. split; [exact Hrun|]. split; [done|]. split; [done|]. split; [done|].
    split.
    + intros k msgk Hk. destruct (decide (k = m)) as [->|Hne].
      * rewrite Hm in Hk. injection Hk as <-.
        destruct (Hkeep m (set_status st msg)) as (msg' & H1 & H2 & H3).
        { unfold e1. cbn. apply lookup_insert_eq. }
        exists msg'. split; [done|]. split; [done|].
        right. by destruct H3 as [->| ->].
      * apply Hkeep. unfold e1. cbn. by rewrite lookup_insert_ne.
    + intros k Hk. apply Hnone. unfold e1. cbn.
      rewrite lookup_insert_ne; [done|]. intros ->. congruence.
Qed.

(** The loop of [_on_stop_session] over the sequences of the session:
    every handle met is left holding FINISH, with a FINISH posted on it. *)
Lemma stop_loop ms : forall e,
  (forall m, m ∈ ms -> is_Some (seqs e !! m)) ->
  exists e',
    for_each ms (fun m =>
      seq ← get_seq m;
      match resp seq with
      | Some _resp =>
          r ← get_resp _resp;
          put_resp _resp {| type := Some FINISH; data := data r; err_msg := err_msg r |} ;;
          req_manager_response _resp
      | None => mret tt
      end) e = Ok tt e' /\
    seqs e' = seqs e /\ sessions e' = sessions e /\
    (forall h, type_of h e = Some FINISH -> type_of h e' = Some FINISH) /\
    (forall h x, x ∈ posted_on h e -> x ∈ posted_on h e') /\
    (forall m msg h, m ∈ ms -> seqs e !! m = Some msg -> resp msg = Some h ->
       type_of h e' = Some FINISH /\ Some FINISH ∈ posted_on h e').
Proof.
  induction ms as [|m ms IH]; intros e Hall.
  - exists e. split; [done|]. split; [done|]. split; [done|]. split; [done|].
    split; [done|]. intros m msg h Hm. by apply elem_of_nil in Hm.
  - destruct (Hall m) as [msg Hm]; [left|].
    rewrite for_each_cons. unfold mbind at 1, M_bind at 1, get_seq at 1. rewrite Hm.
    destruct (resp msg) as [h0|] eqn:Hresp.
    + unfold mbind at 1 2, M_bind at 1 2, get_resp at 1, put_resp at 1, modify at 1,
        req_manager_response at 1.
      unfold mbind at 1, M_bind at 1, get_resp at 1, modify at 1.
      cbn [handles with_handles]. rewrite lookup_insert_eq. cbn [default from_option id].
      set (r' := Build_Response _ _ _).
      set (e1 := with_mailbox _ _).
      assert (Ht1 : forall h, type_of h e1 = if decide (h0 = h) then Some FINISH else type_of h e).
      { intros h. unfold e1, type_of. cbn. rewrite lookup_insert. by case_decide. }
      assert (Hp1 : forall h, posted_on h e1 =
                posted_on h e ++ (if decide (h0 = h) then [Some FINISH] else [])).
      { intros h. unfold e1. by rewrite posted_on_snoc. }
      destruct (IH e1) as (e' & Hrun & Hq & Hs & Hfin & Hmono & Hdone).
      { intros m' Hm'. apply Hall. by right. }
      exists e'. split; [exact Hrun|]. split; [done|]. split; [done|].
      split; [|split].
      * intros h Hh. apply Hfin. rewrite Ht1. by case_decide.
      * intros h x Hx. apply Hmono. rewrite Hp1. apply elem_of_app. by left.
      * intros k msgk h [->|Hk]%elem_of_cons Hmk Hr.
        -- rewrite Hm in Hmk. injection Hmk as <-. rewrite Hresp in Hr. injection Hr as <-.
           split.
           ++ apply Hfin. rewrite Ht1. by case_decide.
           ++ apply Hmono. rewrite Hp1. case_decide; [|done]. apply elem_of_app. right. by left.
        -- by apply (Hdone k msgk h).
    + unfold mret at 1, M_ret at 1.
      destruct (IH e) as (e' & Hrun & Hq & Hs & Hfin & Hmono & Hdone).
      { intros m' Hm'. apply Hall. by right. }
      exists e'. split; [exact Hrun|]. split; [done|]. split; [done|].
      split; [done|]. split; [done|].
      intros k msgk h [->|Hk]%elem_of_cons Hmk Hr.
      * rewrite Hm in Hmk. injection Hmk as <-. congruence.
      * by apply (Hdone k msgk h).
Qed.

(** Rewriting with the result of a loop, whatever shape unfolding has
    given to its body. *)
Ltac rewrite_loop H :=
  match type of H with
  | ?lhs = _ =>
      match lhs with
      | for_each ?l _ ?e =>
          match goal with
          | |- context [for_each l ?f e] => change (for_each l f e) with lhs; rewrite H
          end
      end
  end.

(** X2: STOP_SESSION for an existing session leaves every handle of the
    session's sequences holding FINISH, with a FINISH posted on it; an
    output of the stopped sequence that reaches the response activity
    afterwards is dropped, nothing more is posted on that handle. *)
Theorem stop_session_closes_streams e req ms m msg h outs :
  sessions_wf e ->
  sessions e !! sreq_session_id req = Some ms ->
  m ∈ ms -> seqs e !! m = Some msg -> resp msg = Some h ->
  exists e1,
    _on_stop_session [req] e = Ok tt e1 /\
    type_of h e1 = Some FINISH /\ Some FINISH ∈ posted_on h e1 /\
    posted_on h (state_of (__send_resps outs e1)) = posted_on h e1.
Proof.
  intros Hwf Hs Hin Hm Hresp.
  destruct (set_status_loop STOPPED ms e) as (e1 & Hrun1 & Hh1 & Hs1 & Hmb1 & Hkeep1 & _).
  { intros m' Hm'. by apply (Hwf _ _ _ Hs). }
  destruct (stop_loop ms e1) as (e2 & Hrun2 & Hq2 & Hs2 & Hfin2 & Hmono2 & Hdone2).
  { intros m' Hm'. destruct (Hwf _ _ _ Hs Hm') as [msg' Hmsg'].
    destruct (Hkeep1 _ _ Hmsg') as (msg'' & H1 & _). by eexists. }
  destruct (Hkeep1 _ _ Hm) as (msg1 & Hm1 & Hr1 & _).
  destruct (Hdone2 m msg1 h Hin Hm1 ltac:(congruence)) as [Ht2 Hp2].
  assert (Hend : exists e3, _on_stop_session [req] e = Ok tt e3 /\
            type_of h e3 = Some FINISH /\ posted_on h e3 = posted_on h e2).
  { unfold _on_stop_session. rewrite for_each_cons. run_m. rewrite Hs.
    unfold scheduler_stop_session. run_m. rewrite Hs.
    rewrite_loop Hrun1. rewrite_loop Hrun2.
    destruct (default true (sreq_response req)).
    - destruct (response_keeps_finish h (sreq_resp req) SUCCESS None "" e2 Ht2)
        as (e3 & -> & Ht3 & Hp3 & _).
      by exists e3.
    - by exists e2. }
  destruct Hend as (e3 & Hrun & Ht3 & Hp3).
  exists e3. split; [done|]. split; [done|]. split; [by rewrite Hp3|].
  destruct (send_resps_stream h outs e3) as (e4 & k & fin & Hrun4 & Hposted & Hclosed & _).
  destruct (Hclosed Ht3) as (-> & -> & _).
  cbn in Hposted. rewrite ?app_nil_r in Hposted.
  by destruct Hrun4 as [-> | ->].
Qed.

Lemma one_prompt_seq_lookup : seqs one_prompt !! 0%nat = Some one_prompt_seq.
Proof. by vm_compute. Qed.

Lemma stop_session_closes_streams_witness :
  exists e1,
    _on_stop_session [late_stop] one_prompt = Ok tt e1 /\
    type_of 5 e1 = Some FINISH /\ Some FINISH ∈ posted_on 5 e1 /\
    posted_on 5 (state_of (__send_resps [token_out false 7] e1)) = posted_on 5 e1.
Proof.
  apply (stop_session_closes_streams one_prompt late_stop [0%nat] 0%nat one_prompt_seq 5
           [token_out false 7]).
  - exact one_prompt_wf.
  - by vm_compute.
  - by left.
  - exact one_prompt_seq_lookup.
  - reflexivity.
Defined.

(** X3: ADD_SESSION never resets a session.  For an id that is already
    known the sessions stay as they are and the answer is SESSION_REPEAT; a
    new id gets a session without sequences and the answer is SUCCESS.  No
    sequence is touched either way.  The answer is posted on the request's
    handle unless the request declined it or the handle has finished; then
    nothing is posted, and the sessions change all the same. *)
Theorem add_session_outcomes e req :
  exists e',
    _on_add_session [req] e = Ok tt e' /\ seqs e' = seqs e /\
    match sessions e !! sreq_session_id req with
    | Some _ =>
        sessions e' = sessions e /\ session_reply e e' req SESSION_REPEAT
    | None =>
        sessions e' = <[sreq_session_id req := []]> (sessions e) /\
        session_reply e e' req SUCCESS
    end.
Proof.
  unfold session_reply, type_of.
  assert (Hanswer : forall ty e1, handles e1 = handles e -> mailbox e1 = mailbox e ->
    exists e',
      (if default true (sreq_response req)
       then _response (sreq_resp req) ty None "" else mret tt) e1 = Ok tt e' /\
      sessions e' = sessions e1 /\ seqs e' = seqs e1 /\
      if decide (sreq_response req <> Some false /\
                 type (default blank (handles e !! sreq_resp req)) <> Some FINISH)
      then caller_receives e e' (sreq_resp req) ty
      else mailbox e' = mailbox e).
  { intros ty e1 Hh Hmb. unfold caller_receives.
    destruct (decide (type (default blank (handles e !! sreq_resp req)) = Some FINISH))
      as [Hfin|Hopen]; destruct (sreq_response req) as [[]|]; cbn [default from_option id].
    - rewrite response_closed by (by rewrite Hh). exists e1.
      rewrite decide_False by (by intros [_ ?]). done.
    - exists e1. rewrite decide_False by (by intros [? _]). done.
    - rewrite response_closed by (by rewrite Hh). exists e1.
      rewrite decide_False by (by intros [_ ?]). done.
    - rewrite response_open by (by rewrite Hh). eexists. split; [done|].
      rewrite decide_True by done. cbn. by rewrite Hmb.
    - exists e1. rewrite decide_False by (by intros [? _]). done.
    - rewrite response_open by (by rewrite Hh). eexists. split; [done|].
      rewrite decide_True by done. cbn. by rewrite Hmb. }
  unfold _on_add_session. rewrite for_each_cons.
  unfold mbind at 1, M_bind at 1, get at 1.
  destruct (sessions e !! sreq_session_id req) eqn:Hs.
  - unfold mbind at 1, M_bind at 1, mret at 1, M_ret at 1.
    destruct (Hanswer SESSION_REPEAT e) as (e' & -> & Hs' & Hq' & Hpost); [done..|].
    exists e'. by rewrite Hs', Hq'.
  - unfold mbind at 1 2, M_bind at 1 2, scheduler_add_session at 1, modify at 1,
      mret at 1, M_ret at 1.
    set (e1 := with_sessions _ e).
    destruct (Hanswer SUCCESS e1) as (e' & -> & Hs' & Hq' & Hpost); [done..|].
    exists e'. by rewrite Hs', Hq'.
Qed.

(** The first loop of [_on_add_message], exactly: it keeps the requests of
    known sessions and answers each of the others on its handle, unless
    that handle has finished; no handle finishes on the way. *)
Lemma collect_valid_reqs_exact reqs : forall valid e,
  exists e',
    collect_valid_reqs reqs valid e = Ok (valid ++ filter (known_session e) reqs) e' /\
    sessions e' = sessions e /\ seqs e' = seqs e /\
    mailbox e' = mailbox e ++
      ((fun req => (mreq_resp req, reply SESSION_NOT_EXIST)) <$>
       filter (fun req => ~ known_session e req /\
                          type_of (mreq_resp req) e <> Some FINISH) reqs) /\
    (forall h, type_of h e' = Some FINISH <-> type_of h e = Some FINISH).
Proof.
  induction reqs as [|req reqs IH]; intros valid e.
  - exists e. cbn. by rewrite !app_nil_r.
  - cbn [collect_valid_reqs]. unfold mbind at 1, M_bind at 1, get at 1.
    destruct (decide (known_session e req)) as [Hkn|Hkn].
    + rewrite (filter_cons_True (known_session e)) by done.
      rewrite (filter_cons_False (fun r => ~ known_session e r /\ _))
        by (intros [Hn _]; by apply Hn).
      destruct Hkn as [ms Hs]. rewrite Hs.
      destruct (IH (valid ++ [req]) e) as (e' & Hrun & H1 & H2 & H3 & H4).
      exists e'. rewrite Hrun. by rewrite <- app_assoc.
    + rewrite (filter_cons_False (known_session e)) by done.
      assert (Hs : sessions e !! mreq_session_id req = None).
      { destruct (sessions e !! mreq_session_id req) eqn:Hs; [|done].
        destruct Hkn. unfold known_session. rewrite Hs. by eexists. }
      rewrite Hs. unfold mbind at 1, M_bind at 1.
      assert (Hrest : forall e1,
        sessions e1 = sessions e -> seqs e1 = seqs e ->
        (forall h, type_of h e1 = Some FINISH <-> type_of h e = Some FINISH) ->
        exists e',
          collect_valid_reqs reqs valid e1 = Ok (valid ++ filter (known_session e) reqs) e' /\
          sessions e' = sessions e /\ seqs e' = seqs e /\
          mailbox e' = mailbox e1 ++
            ((fun req => (mreq_resp req, reply SESSION_NOT_EXIST)) <$>
             filter (fun req => ~ known_session e req /\
                                type_of (mreq_resp req) e <> Some FINISH) reqs) /\
          (forall h, type_of h e' = Some FINISH <-> type_of h e = Some FINISH)).
      { intros e1 Hs1 Hq1 Hf1.
        destruct (IH valid e1) as (e' & Hrun & Hs' & Hq' & Hmb' & Hf').
        assert (Hk : forall r, known_session e1 r <-> known_session e r).
        { intros r. unfold known_session. by rewrite Hs1. }
        exists e'. rewrite Hrun.
        rewrite (list_filter_iff (known_session e1) (known_session e)) by done.
        split; [done|]. split; [congruence|]. split; [congruence|]. split.
        - rewrite Hmb'. do 2 f_equal. apply list_filter_iff. intros r.
          rewrite Hk. split; intros [? Hne]; (split; [done|]);
            intros Hfin; apply Hne; by apply Hf1.
        - intros h. rewrite Hf'. apply Hf1. }
      destruct (decide (type_of (mreq_resp req) e = Some FINISH)) as [Hfin|Hopen].
      * rewrite response_closed by done.
        rewrite (filter_cons_False (fun r => ~ known_session e r /\ _))
          by (by intros [_ ?]).
        by apply Hrest.
      * rewrite response_open by done.
        rewrite (filter_cons_True (fun r => ~ known_session e r /\ _)) by done.
        set (e1 := with_mailbox _ _).
        destruct (Hrest e1) as (e' & Hrun & Hs' & Hq' & Hmb' & Hf'); [done|done| |].
        { intros h. unfold e1, type_of. cbn. rewrite lookup_insert.
          case_decide as Hh; [|done]. subst h. cbn.
          split; [done|]. intros Hfin. by destruct Hopen. }
        exists e'. split; [done|]. split; [done|]. split; [done|]. split; [|done].
        rewrite Hmb'. unfold e1. cbn. by rewrite <- app_assoc.
Qed.

(** X4: [_on_add_message] answers each request of an unknown session with
    one SESSION_NOT_EXIST on the request's own handle, in the order of the
    batch -- a handle that has finished is not answered -- and creates
    nothing for these requests; the requests of known sessions, in their
    order, are what [_add_message] receives, and when there is none the
    callback returns without calling it. *)
Theorem add_message_routes_known_sessions cfg reqs e :
  exists e1,
    sessions e1 = sessions e /\ seqs e1 = seqs e /\
    mailbox e1 = mailbox e ++
      ((fun req => (mreq_resp req, reply SESSION_NOT_EXIST)) <$>
       filter (fun req => ~ known_session e req /\
                          type_of (mreq_resp req) e <> Some FINISH) reqs) /\
    _on_add_message cfg reqs e =
      match filter (known_session e) reqs with
      | [] => Ok tt e1
      | valid_reqs => _add_message cfg valid_reqs e1
      end.
Proof.
  destruct (collect_valid_reqs_exact reqs [] e) as (e1 & Hrun & Hs & Hq & Hmb & _).
  exists e1. do 3 (split; [done|]).
  unfold _on_add_message, mbind, M_bind. rewrite Hrun. cbn [app].
  destruct (filter (known_session e) reqs) as [|r rs]; [done|].
  by rewrite bool_decide_eq_true_2 by (cbn; lia).
Qed.

Lemma add_message_next_run cfg req e m0 ms s0 :
  sessions e !! mreq_session_id req = Some (m0 :: ms) ->
  seqs e !! m0 = Some s0 ->
  exists e',
    _add_message cfg [req] e = Ok tt e' /\
    sessions e' = sessions e /\
    seqs e' = <[m0 := set_resp (Some (mreq_resp req)) (capped cfg (next_turn req s0))]> (seqs e) /\
    handles e' = handles e /\ mailbox e' = mailbox e /\
    migration_event e' = migration_event e.
Proof.
  intros Hs Hm0. unfold _add_message, for_each. run_m. rewrite Hs, Hm0. run_m.
  erewrite update_max_new_tokens_run by (cbn; apply lookup_insert_eq).
  run_m. rewrite lookup_insert_eq. run_m.
  eexists. split; [done|]. cbn. by rewrite !insert_insert_eq.
Qed.

Lemma add_message_first_run cfg req e :
  sessions e !! mreq_session_id req = Some [] ->
  mreq_token_ids req <> [] ->
  exists e',
    _add_message cfg [req] e = Ok tt e' /\
    sessions e' = alter (fun ms => ms ++ [fresh (dom (seqs e))]) (mreq_session_id req) (sessions e) /\
    seqs e' =
      <[fresh (dom (seqs e)) :=
          set_resp (Some (mreq_resp req))
            (set_status (if mreq_migration_request req is Some _
                         then WAITING_MIGRATION else WAITING)
               (capped cfg (new_sequence req)))]> (seqs e) /\
    handles e' = handles e /\ mailbox e' = mailbox e /\
    migration_event e' =
      (if mreq_migration_request req is Some _ then true else migration_event e).
Proof.
  intros Hs Hne. unfold _add_message, for_each. run_m. rewrite Hs.
  rewrite bool_decide_eq_true_2
    by (destruct (mreq_token_ids req); [by destruct Hne | cbn; lia]).
  unfold sess_add_sequence. run_m.
  rewrite lookup_alter_eq, Hs. cbn.
  set (m := fresh (dom (seqs e))).
  change (Build_SchedulerSequence _ _ _ _ _ _ _ _ _ _ _ _) with (new_sequence req).
  erewrite update_max_new_tokens_run by (cbn; apply lookup_insert_eq).
  unfold scheduler_add_sequence, _set_message_status. run_m.
  rewrite !lookup_insert_eq. run_m.
  destruct (mreq_migration_request req); run_m; rewrite ?lookup_insert_eq; run_m;
    rewrite ?lookup_insert_eq; run_m;
    (eexists; split; [done|]; cbn; by rewrite !insert_insert_eq).
Qed.

Lemma fresh_seq_unused (e : Engine) : seqs e !! fresh (dom (seqs e)) = None.
Proof. apply not_elem_of_dom, is_fresh. Qed.

(** One request through [_add_message]: it raises before anything is
    written, or it returns with the sessions still well-formed, one
    sequence per session at most, and the same session ids. *)
Lemma add_message_one_inv cfg req e :
  sessions_wf e -> single_sequence e ->
  (exists x, _add_message cfg [req] e = Raised x e) \/
  (exists e', _add_message cfg [req] e = Ok tt e' /\
     sessions_wf e' /\ single_sequence e' /\ dom (sessions e') = dom (sessions e)).
Proof.
  intros Hwf Hone.
  destruct (sessions e !! mreq_session_id req) as [[|m0 ms]|] eqn:Hs.
  - destruct (mreq_token_ids req) as [|t ts] eqn:Htok.
    + left. eexists. unfold _add_message, for_each. run_m. by rewrite Hs, Htok.
    + right. destruct (add_message_first_run cfg req e Hs) as (e' & Hrun & Hs' & Hq' & _).
      { by rewrite Htok. }
      exists e'. split; [done|]. split; [|split].
      * intros sid msgs m. rewrite Hs', Hq', lookup_alter.
        case_decide as Hsid.
        -- subst sid. rewrite Hs. cbn. intros [= <-] ->%list_elem_of_singleton.
           rewrite lookup_insert_eq. by eexists.
        -- intros Hl Hin. destruct (Hwf _ _ _ Hl Hin) as [x Hx].
           rewrite lookup_insert. case_decide; by eexists.
      * intros sid msgs. rewrite Hs', lookup_alter.
        case_decide as Hsid.
        -- subst sid. rewrite Hs. cbn. by intros [= <-].
        -- apply Hone.
      * rewrite Hs'. apply dom_alter_L.
  - right. destruct (Hwf _ _ m0 Hs) as [s0 Hm0]; [left|].
    destruct (add_message_next_run cfg req e m0 ms s0 Hs Hm0) as (e' & Hrun & Hs' & Hq' & _).
    exists e'. split; [done|]. split; [|split].
    + intros sid msgs m. rewrite Hs', Hq'. intros Hl Hin.
      destruct (Hwf _ _ _ Hl Hin) as [x Hx].
      rewrite lookup_insert. case_decide; by eexists.
    + intros sid msgs. rewrite Hs'. apply Hone.
    + by rewrite Hs'.
  - left. eexists. unfold _add_message, for_each. run_m. by rewrite Hs.
Qed.

Lemma add_message_cons cfg req reqs e :
  _add_message cfg (req :: reqs) e =
  match _add_message cfg [req] e with
  | Ok _ e' => _add_message cfg reqs e'
  | Raised x e' => Raised x e'
  end.
Proof.
  unfold _add_message. rewrite !for_each_cons.
  match goal with |- match ?b with _ => _ end = _ => destruct b as [[] e'|x e'] end; done.
Qed.







(** X5: whatever the batch, and whether [_add_message] returns or raises
    on the way, it leaves the sessions referring to sequences that exist,
    never gives a session a second sequence, and neither opens nor closes a
    session. *)
Theorem add_message_keeps_sessions cfg reqs : forall e,
  sessions_wf e -> single_sequence e ->
  sessions_wf (state_of (_add_message cfg reqs e)) /\
  single_sequence (state_of (_add_message cfg reqs e)) /\
  dom (sessions (state_of (_add_message cfg reqs e))) = dom (sessions e).
Proof.
  induction reqs as [|req reqs IH]; intros e Hwf Hone.
  - done.
  - rewrite add_message_cons.
    destruct (add_message_one_inv cfg req e Hwf Hone)
      as [[x ->]|(e' & -> & Hwf' & Hone' & Hdom)]; [done|].
    destruct (IH e' Hwf' Hone') as (H1 & H2 & H3). by rewrite H3.
Qed.

Lemma one_prompt_single : single_sequence one_prompt.
Proof.
  intros sid msgs. rewrite one_prompt_sessions.
  rewrite !lookup_insert, lookup_empty.
  repeat case_decide; intros [= <-]; cbn; lia.
Qed.

Lemma add_message_keeps_sessions_witness :
  sessions_wf (state_of (_add_message cfg0 [message 6 1 [5]; message 7 2 []] one_prompt)) /\
  single_sequence (state_of (_add_message cfg0 [message 6 1 [5]; message 7 2 []] one_prompt)) /\
  dom (sessions (state_of (_add_message cfg0 [message 6 1 [5]; message 7 2 []] one_prompt))) =
    dom (sessions one_prompt).
Proof.
  apply (add_message_keeps_sessions cfg0 [message 6 1 [5]; message 7 2 []] one_prompt).
  - exact one_prompt_wf.
  - exact one_prompt_single.
Defined.

Lemma capped_fields cfg msg :
  all_ids (capped cfg msg) = all_ids msg /\
  num_new_tokens (capped cfg msg) = num_new_tokens msg /\
  status (capped cfg msg) = status msg.
Proof. unfold capped. by destruct (_ <? _). Qed.

(** X6: a further message of a session does not create a sequence: the
    session's sequence gets the message's tokens appended to its history,
    its count of new tokens back at zero, the status WAITING and the
    request's handle; no other sequence changes and nothing is posted. *)
Theorem next_message_extends_history cfg req e m0 ms s0 :
  sessions e !! mreq_session_id req = Some (m0 :: ms) ->
  seqs e !! m0 = Some s0 ->
  exists e' s1,
    _add_message cfg [req] e = Ok tt e' /\ seqs e' !! m0 = Some s1 /\
    all_ids s1 = all_ids s0 ++ mreq_token_ids req /\ num_new_tokens s1 = 0 /\
    status s1 = WAITING /\ resp s1 = Some (mreq_resp req) /\
    (forall k, k <> m0 -> seqs e' !! k = seqs e !! k) /\
    sessions e' = sessions e /\ mailbox e' = mailbox e.
Proof.
  intros Hs Hm0.
  destruct (add_message_next_run cfg req e m0 ms s0 Hs Hm0)
    as (e' & Hrun & Hs' & Hq' & _ & Hmb & _).
  destruct (capped_fields cfg (next_turn req s0)) as (Hids & Hnew & Hst).
  eexists e', _. split; [done|]. split; [by rewrite Hq', lookup_insert_eq|].
  cbn. rewrite Hids, Hnew, Hst. do 4 (split; [done|]).
  split; [|done]. intros k Hk. by rewrite Hq', lookup_insert_ne.
Qed.

Lemma next_message_extends_history_witness :
  exists e' s1,
    _add_message cfg0 [message 6 1 [5; 6; 7]] one_prompt = Ok tt e' /\
    seqs e' !! 0%nat = Some s1 /\
    all_ids s1 = all_ids one_prompt_seq ++ mreq_token_ids (message 6 1 [5; 6; 7]) /\
    num_new_tokens s1 = 0 /\ status s1 = WAITING /\
    resp s1 = Some (mreq_resp (message 6 1 [5; 6; 7])) /\
    (forall k, k <> 0%nat -> seqs e' !! k = seqs one_prompt !! k) /\
    sessions e' = sessions one_prompt /\ mailbox e' = mailbox one_prompt.
Proof.
  apply (next_message_extends_history cfg0 (message 6 1 [5; 6; 7]) one_prompt 0%nat []
           one_prompt_seq).
  - by vm_compute.
  - exact one_prompt_seq_lookup.
Defined.

(** X7: the first message of a session creates one sequence, under an id no
    sequence had: it holds exactly the message's tokens, has produced
    nothing, carries the request's handle, and waits -- for migration, with
    [migration_event] set, exactly when the request carries a migration
    request.  No other sequence changes and nothing is posted. *)
Theorem first_message_creates_sequence cfg req e :
  sessions e !! mreq_session_id req = Some [] ->
  mreq_token_ids req <> [] ->
  exists e' m s1,
    _add_message cfg [req] e = Ok tt e' /\ seqs e !! m = None /\
    sessions e' !! mreq_session_id req = Some [m] /\ seqs e' !! m = Some s1 /\
    all_ids s1 = mreq_token_ids req /\ num_new_tokens s1 = 0 /\
    resp s1 = Some (mreq_resp req) /\
    status s1 = (if mreq_migration_request req is Some _
                 then WAITING_MIGRATION else WAITING) /\
    migration_event e' =
      (if mreq_migration_request req is Some _ then true else migration_event e) /\
    (forall k, k <> m -> seqs e' !! k = seqs e !! k) /\ mailbox e' = mailbox e.
Proof.
  intros Hs Hne.
  destruct (add_message_first_run cfg req e Hs Hne)
    as (e' & Hrun & Hs' & Hq' & _ & Hmb & Hev).
  destruct (capped_fields cfg (new_sequence req)) as (Hids & Hnew & Hst).
  eexists e', (fresh (dom (seqs e))), _. split; [done|].
  split; [apply fresh_seq_unused|].
  split; [by rewrite Hs', lookup_alter_eq, Hs|].
  split; [by rewrite Hq', lookup_insert_eq|].
  cbn. rewrite Hids, Hnew. do 5 (split; [done|]).
  split; [|done]. intros k Hk. by rewrite Hq', lookup_insert_ne.
Qed.

Lemma first_message_creates_sequence_witness :
  exists e' m s1,
    _add_message decode_cfg [migrating 5 1 false] two_sessions = Ok tt e' /\
    seqs two_sessions !! m = None /\
    sessions e' !! mreq_session_id (migrating 5 1 false) = Some [m] /\
    seqs e' !! m = Some s1 /\
    all_ids s1 = mreq_token_ids (migrating 5 1 false) /\ num_new_tokens s1 = 0 /\
    resp s1 = Some (mreq_resp (migrating 5 1 false)) /\
    status s1 = (if mreq_migration_request (migrating 5 1 false) is Some _
                 then WAITING_MIGRATION else WAITING) /\
    migration_event e' =
      (if mreq_migration_request (migrating 5 1 false) is Some _
       then true else migration_event two_sessions) /\
    (forall k, k <> m -> seqs e' !! k = seqs two_sessions !! k) /\
    mailbox e' = mailbox two_sessions.
Proof.
  apply (first_message_creates_sequence decode_cfg (migrating 5 1 false) two_sessions).
  - by vm_compute.
  - discriminate.
Defined.

Lemma zip_fst_snd {A B} (l : list A) (k : list B) :
  length l = length k -> (zip l k).*1 = l /\ (zip l k).*2 = k.
Proof.
  revert k. induction l as [|a l IH]; intros [|b k] Hlen; try done.
  cbn in *. destruct (IH k) as [-> ->]; [lia|done].
Qed.

Lemma migrate_one_calls e m e1 :
  migratable e m -> seqs e1 = seqs e ->
  migrate_one m e1 =
    Ok tt (with_executor_calls (migration_calls e m).1 (migration_calls e m).2 e1) \/
  (migrate_one m e1 = Ok tt e1 /\ migration_calls e m = ([], [])).
Proof.
  intros (msg & mr & Hm & Hmr & Hok) Hseqs. unfold migrate_one, migration_calls. run_m.
  rewrite Hseqs, Hm. run_m. rewrite Hmr.
  destruct (is_dummy_prefill mr) eqn:Hd; [by right|].
  destruct Hok as [|Hlen]; [done|].
  rewrite bool_decide_eq_true_2 by done. by left.
Qed.

(** X8: over sequences that can be migrated the transfer loop returns; it
    calls [executor.migrate] and [zmq_send] once for every sequence that is
    not a dummy prefill, in the order of the round, and never for a dummy
    prefill; each batch pairs all remote blocks of its sequence with the
    sequence's local blocks, one to one. *)
Theorem migrate_loop_calls e ms :
  Forall (migratable e) ms ->
  exists e',
    for_each ms migrate_one e = Ok tt e' /\ untouched e e' /\
    migrated e' = migrated e ++ flat_map (fun m => (migration_calls e m).1) ms /\
    zmq_sent e' = zmq_sent e ++ flat_map (fun m => (migration_calls e m).2) ms /\
    Forall (pairs_all_blocks e ms) (flat_map (fun m => (migration_calls e m).1) ms).
Proof.
  intros Hall.
  assert (Hloop : forall e1, seqs e1 = seqs e ->
    exists e', for_each ms migrate_one e1 = Ok tt e' /\ untouched e1 e' /\
      migrated e' = migrated e1 ++ flat_map (fun m => (migration_calls e m).1) ms /\
      zmq_sent e' = zmq_sent e1 ++ flat_map (fun m => (migration_calls e m).2) ms).
  { induction Hall as [|m ms Hm Hms IH]; intros e1 Hseqs.
    - exists e1. cbn. rewrite !app_nil_r. by repeat split.
    - rewrite for_each_cons.
      destruct (migrate_one_calls e m e1 Hm Hseqs) as [->|[-> Hnone]].
      + destruct (IH (with_executor_calls (migration_calls e m).1 (migration_calls e m).2 e1))
          as (e' & Hrun & Hu & Hmig & Hzmq); [done|].
        exists e'. split; [done|]. split; [exact Hu|].
        cbn in *. by rewrite Hmig, Hzmq, <- !app_assoc.
      + destruct (IH e1 Hseqs) as (e' & Hrun & Hu & Hmig & Hzmq).
        exists e'. split; [done|]. split; [done|]. cbn. by rewrite Hnone. }
  destruct (Hloop e eq_refl) as (e' & Hrun & Hu & Hmig & Hzmq).
  exists e'. do 4 (split; [done|]).
  apply Forall_forall. intros b Hb.
  apply list_elem_of_In, in_flat_map in Hb as (m & Hm%list_elem_of_In & Hb%list_elem_of_In).
  rewrite Forall_forall in Hall. destruct (Hall m Hm) as (msg & mr & Hmsg & Hmr & Hok).
  unfold migration_calls in Hb. rewrite Hmsg, Hmr in Hb.
  destruct (is_dummy_prefill mr) eqn:Hd; [by apply elem_of_nil in Hb|].
  destruct Hok as [|Hlen]; [done|].
  apply list_elem_of_singleton in Hb as ->.
  exists m, msg, mr. do 4 (split; [done|]).
  eexists. split; [done|]. by apply zip_fst_snd.
Qed.

Lemma enough_blocks_seqs :
  seqs enough_blocks !! 0%nat =
    Some {| session_id := 2; all_ids := [1; 2; 3]; num_new_tokens := 0;
            sampling_param := set_max_new_tokens 13 greedy; adapter_name := None;
            return_logits := false; status := WAITING_MIGRATION; resp := Some 6%nat;
            resp_cache := false; preserve_cache := false;
            migration_request := Some (remote_prefill true); block_table := [] |} /\
  seqs enough_blocks !! 1%nat =
    Some {| session_id := 1; all_ids := [1; 2; 3]; num_new_tokens := 0;
            sampling_param := set_max_new_tokens 13 greedy; adapter_name := None;
            return_logits := false; status := WAITING_MIGRATION; resp := Some 5%nat;
            resp_cache := false; preserve_cache := false;
            migration_request := Some (remote_prefill false);
            block_table := [2; 5; 11] |}.
Proof. split; by vm_compute. Qed.

Lemma enough_blocks_migratable : Forall (migratable enough_blocks) [0%nat; 1%nat].
Proof.
  destruct enough_blocks_seqs as [H0 H1].
  constructor; [|constructor; [|constructor]].
  - eexists _, _. split; [exact H0|]. split; [done|]. by left.
  - eexists _, _. split; [exact H1|]. split; [done|]. by right.
Qed.

Lemma migrate_loop_calls_witness :
  exists e',
    for_each [0%nat; 1%nat] migrate_one enough_blocks = Ok tt e' /\
    untouched enough_blocks e' /\
    migrated e' = migrated enough_blocks ++
      flat_map (fun m => (migration_calls enough_blocks m).1) [0%nat; 1%nat] /\
    zmq_sent e' = zmq_sent enough_blocks ++
      flat_map (fun m => (migration_calls enough_blocks m).2) [0%nat; 1%nat] /\
    Forall (pairs_all_blocks enough_blocks [0%nat; 1%nat])
      (flat_map (fun m => (migration_calls enough_blocks m).1) [0%nat; 1%nat]).
Proof.
  apply (migrate_loop_calls enough_blocks [0%nat; 1%nat]).
  exact enough_blocks_migratable.
Defined.

Lemma stepped_unlocked t stop msg : status msg <> LOCKED -> stepped t stop msg = msg.
Proof. intros H. unfold stepped. by case_decide. Qed.

(** One turn of the loop of [update_running] writes [stepped] into the
    store. *)
Lemma update_running_turn m t (stop : bool) msg e :
  seqs e !! m = Some msg ->
  exists e1,
    (msg ← get_seq m;
     (if decide (status msg <> LOCKED) then mret tt
      else
        update_seq m (fun s =>
          set_tokens (all_ids s ++ [t]) (num_new_tokens s + 1) s) ;;
        if stop then
          update_seq m (fun s =>
            set_status (if preserve_cache s then TO_BE_MIGRATED else STOPPED) s)
        else mret tt)) e = Ok tt e1 /\
    seqs e1 = <[m := stepped t stop msg]> (seqs e) /\
    handles e1 = handles e /\ sessions e1 = sessions e /\ mailbox e1 = mailbox e.
Proof.
  intros Hm. run_m. rewrite Hm. unfold stepped.
  destruct (decide (status msg <> LOCKED)) as [Hs|Hs]; run_m.
  - exists e. by rewrite insert_id.
  - rewrite Hm. run_m. destruct stop; run_m.
    + rewrite lookup_insert_eq. eexists. split; [done|]. cbn.
      by rewrite insert_insert_eq.
    + by eexists.
Qed.

Lemma update_running_zip_cons m r t tokens (stop : bool) stopped meta metas e :
  update_running_zip (m :: r) (t :: tokens) (stop :: stopped) (meta :: metas) e =
  match
    (msg ← get_seq m;
     (if decide (status msg <> LOCKED) then mret tt
      else
        update_seq m (fun s =>
          set_tokens (all_ids s ++ [t]) (num_new_tokens s + 1) s) ;;
        if stop then
          update_seq m (fun s =>
            set_status (if preserve_cache s then TO_BE_MIGRATED else STOPPED) s)
        else mret tt)) e
  with
  | Ok _ e' => update_running_zip r tokens stopped metas e'
  | Raised x e' => Raised x e'
  end.
Proof.
  cbn [update_running_zip]. unfold mbind, M_bind, get_seq.
  by destruct (seqs e !! m).
Qed.

Lemma update_running_zip_spec running : forall tokens stopped metas e,
  NoDup running ->
  (forall m, m ∈ running -> is_Some (seqs e !! m)) ->
  exists e',
    update_running_zip running tokens stopped metas e = Ok tt e' /\
    handles e' = handles e /\ sessions e' = sessions e /\ mailbox e' = mailbox e /\
    (forall k, k ∉ running -> seqs e' !! k = seqs e !! k) /\
    (forall k msg, seqs e !! k = Some msg -> status msg <> LOCKED ->
       seqs e' !! k = Some msg) /\
    (forall k, is_Some (seqs e !! k) -> is_Some (seqs e' !! k)) /\
    (forall i m t stop msg,
       running !! i = Some m -> tokens !! i = Some t -> stopped !! i = Some stop ->
       (i < length metas)%nat -> seqs e !! m = Some msg ->
       seqs e' !! m = Some (stepped t stop msg)).
Proof.
  induction running as [|m0 r IH]; intros tokens stopped metas e Hnd Hall.
  - exists e. cbn. do 7 (split; [done|]). by intros [] ? ? ? ? ?.
  - destruct tokens as [|t0 tokens], stopped as [|s0 stopped], metas as [|meta0 metas];
      try (exists e; cbn; do 7 (split; [done|]);
           intros [|i] ? ? ? ? ? ? ? ?; cbn in *; (done || lia)).
    destruct (Hall m0) as [msg0 Hm0]; [left|].
    apply NoDup_cons in Hnd as [Hnotin Hnd].
    destruct (update_running_turn m0 t0 s0 msg0 e Hm0) as (e1 & Hrun1 & Hq1 & Hh1 & Hs1 & Hmb1).
    rewrite update_running_zip_cons, Hrun1.
    destruct (IH tokens stopped metas e1 Hnd) as (e' & Hrun & Hh & Hs & Hmb & Ha & Hb & Hc & Hd).
    { intros m Hm. rewrite Hq1, lookup_insert. case_decide; [by eexists|].
      apply Hall. by right. }
    exists e'. split; [done|]. do 3 (split; [congruence|]).
    split; [|split; [|split]].
    + intros k [Hk0 Hkr]%not_elem_of_cons. rewrite Ha by done.
      by rewrite Hq1, lookup_insert_ne.
    + intros k msg Hk Hst. apply Hb; [|done]. rewrite Hq1, lookup_insert.
      case_decide as Hkm; [|done]. subst k. rewrite Hm0 in Hk. injection Hk as <-.
      by rewrite stepped_unlocked.
    + intros k Hk. apply Hc. rewrite Hq1, lookup_insert. case_decide; [by eexists|done].
    + intros [|i] m t stop msg Hr Ht Hst Hi Hm; cbn in *.
      * injection Hr as <-. injection Ht as <-. injection Hst as <-.
        rewrite Hm0 in Hm. injection Hm as <-.
        rewrite Ha by done. by rewrite Hq1, lookup_insert_eq.
      * apply (Hd i m t stop msg); [done..|lia|].
        rewrite Hq1, lookup_insert_ne; [done|].
        intros ->. apply Hnotin. by eapply list_elem_of_lookup_2.
Qed.

(** X9: [update_running] gives every LOCKED sequence of the batch exactly
    one more token -- appended to its history, counted as new -- and ends
    it when its [stopped] flag is set: TO_BE_MIGRATED if it preserves its
    cache, STOPPED otherwise.  Sequences of the batch that are not LOCKED
    and sequences outside the batch are left exactly as they were. *)
Theorem update_running_effect running tokens stopped metas e :
  NoDup running ->
  (forall m, m ∈ running -> is_Some (seqs e !! m)) ->
  length tokens = length running -> length stopped = length running ->
  (forall l, metas = Some l -> length l = length running) ->
  exists e',
    update_running running tokens stopped metas e = Ok tt e' /\
    (forall i m msg, running !! i = Some m -> seqs e !! m = Some msg ->
       status msg = LOCKED ->
       exists t (stop : bool) msg',
         tokens !! i = Some t /\ stopped !! i = Some stop /\ seqs e' !! m = Some msg' /\
         all_ids msg' = all_ids msg ++ [t] /\
         num_new_tokens msg' = num_new_tokens msg + 1 /\
         status msg' =
           (if stop then (if preserve_cache msg then TO_BE_MIGRATED else STOPPED)
            else LOCKED)) /\
    (forall k msg, seqs e !! k = Some msg -> status msg <> LOCKED \/ k ∉ running ->
       seqs e' !! k = Some msg).
Proof.
  intros Hnd Hall Htok Hstop Hmetas. unfold update_running.
  set (ml := default (replicate (length running) None) metas).
  assert (Hml : length ml = length running).
  { unfold ml. destruct metas as [l|]; cbn; [by apply Hmetas | by rewrite length_replicate]. }
  destruct (update_running_zip_spec running tokens stopped ml e Hnd Hall)
    as (e' & Hrun & _ & _ & _ & Ha & Hb & _ & Hd).
  exists e'. split; [done|]. split.
  - intros i m msg Hr Hm Hlocked.
    pose proof (lookup_lt_Some _ _ _ Hr) as Hi.
    destruct (lookup_lt_is_Some_2 tokens i) as [t Ht]; [lia|].
    destruct (lookup_lt_is_Some_2 stopped i) as [stop Hst]; [lia|].
    exists t, stop, (stepped t stop msg). do 2 (split; [done|]).
    split; [apply (Hd i m t stop msg); (done || lia)|].
    unfold stepped. rewrite decide_False by (intros Hn; by apply Hn).
    by destruct stop.
  - intros k msg Hk [Hst|Hk']; [by apply Hb|]. by rewrite Ha.
Qed.

Lemma locked_prompt_seq :
  seqs locked_prompt !! 0%nat = Some (set_status LOCKED one_prompt_seq).
Proof. by vm_compute. Qed.

Lemma locked_prompt_keys m : is_Some (seqs locked_prompt !! m) <-> m = 0%nat.
Proof.
  unfold locked_prompt. cbn. rewrite lookup_alter_is_Some.
  split.
  - intros Hm. destruct (decide (m = 0%nat)) as [|Hne]; [done|].
    exfalso. destruct (one_prompt_wf 1 [0%nat] 0%nat) as [x Hx]; [by vm_compute|by left|].
    apply elem_of_dom in Hm.
    assert (Hdom : dom (seqs one_prompt) = {[0%nat]}) by by vm_compute.
    rewrite Hdom in Hm. by apply elem_of_singleton in Hm.
  - intros ->. rewrite one_prompt_seq_lookup. by eexists.
Qed.

Lemma update_running_effect_witness :
  exists e',
    update_running [0%nat] [77] [true] None locked_prompt = Ok tt e' /\
    (forall i m msg, [0%nat] !! i = Some m -> seqs locked_prompt !! m = Some msg ->
       status msg = LOCKED ->
       exists t (stop : bool) msg',
         [77] !! i = Some t /\ [true] !! i = Some stop /\ seqs e' !! m = Some msg' /\
         all_ids msg' = all_ids msg ++ [t] /\
         num_new_tokens msg' = num_new_tokens msg + 1 /\
         status msg' =
           (if stop then (if preserve_cache msg then TO_BE_MIGRATED else STOPPED)
            else LOCKED)) /\
    (forall k msg, seqs locked_prompt !! k = Some msg ->
       status msg <> LOCKED \/ k ∉ [0%nat] -> seqs e' !! k = Some msg).
Proof.
  apply (update_running_effect [0%nat] [77] [true] None locked_prompt).
  - apply NoDup_singleton.
  - intros m ->%list_elem_of_singleton. apply locked_prompt_keys. reflexivity.
  - reflexivity.
  - reflexivity.
  - discriminate.
Defined.

Lemma dict_set_elem {V} k0 (v0 : V) d k v :
  (k, v) ∈ dict_set k0 v0 d -> (k, v) = (k0, v0) \/ (k, v) ∈ d.
Proof.
  induction d as [|[k' v'] d IH]; cbn.
  - intros ->%list_elem_of_singleton. by left.
  - case_decide.
    + intros [->|Hin]%elem_of_cons; [by left|]. right. by right.
    + intros [->|Hin]%elem_of_cons; [right; by left|].
      destruct (IH Hin) as [|]; [by left|]. right. by right.
Qed.

Lemma map_m_cons {A B} (f : A -> M B) x l e :
  map_m f (x :: l) e =
  match f x e with
  | Ok y e1 =>
      match map_m f l e1 with
      | Ok ys e2 => Ok (y :: ys) e2
      | Raised x e2 => Raised x e2
      end
  | Raised x e1 => Raised x e1
  end.
Proof. reflexivity. Qed.

Lemma is_run_list running : forall e,
  (forall m, m ∈ running -> is_Some (seqs e !! m)) ->
  map_m (fun m => msg ← get_seq m; mret (bool_decide (status msg = LOCKED))) running e =
  Ok (is_run_of e <$> running) e.
Proof.
  induction running as [|m r IH]; intros e Hall; [done|].
  destruct (Hall m) as [msg Hm]; [left|].
  rewrite map_m_cons.
  assert (Hhead : (msg ← get_seq m; mret (bool_decide (status msg = LOCKED))) e =
                  Ok (is_run_of e m) e).
  { unfold mbind, M_bind, get_seq, mret, M_ret, is_run_of. by rewrite Hm. }
  rewrite Hhead, IH; [done|]. intros m' Hm'. apply Hall. by right.
Qed.

Lemma infer_outputs_loop_spec l : forall outs e,
  (forall m b, (m, b) ∈ l -> is_Some (seqs e !! m)) ->
  exists outs',
    infer_outputs_loop l outs e = Ok outs' e /\
    forall sid out, (sid, out) ∈ outs' ->
      (sid, out) ∈ outs \/
      exists m msg, (m, true) ∈ l /\ seqs e !! m = Some msg /\
                    infer_output msg = Some out /\ sid = session_id msg.
Proof.
  induction l as [|[m b] l IH]; intros outs e Hall.
  - exists outs. split; [done|]. auto.
  - assert (Hall' : forall m' b', (m', b') ∈ l -> is_Some (seqs e !! m')).
    { intros m' b' Hin. apply (Hall m' b'). by right. }
    cbn [infer_outputs_loop]. destruct b; cbn [negb].
    + destruct (Hall m true) as [msg Hm]; [left|].
      unfold mbind, M_bind, get_seq. rewrite Hm.
      destruct (infer_output msg) as [out0|] eqn:Hout.
      * destruct (IH (dict_set (session_id msg) out0 outs) e Hall') as (outs' & Hrun & Hfrom).
        exists outs'. split; [done|]. intros sid out Hin.
        destruct (Hfrom sid out Hin) as [Hold|(m' & msg' & H1 & H2 & H3 & H4)].
        -- apply dict_set_elem in Hold as [[= -> ->]|Hold]; [|by left].
           right. exists m, msg. split; [by left|]. done.
        -- right. exists m', msg'. split; [by right|]. done.
      * destruct (IH outs e Hall') as (outs' & Hrun & Hfrom).
        exists outs'. split; [done|]. intros sid out Hin.
        destruct (Hfrom sid out Hin) as [Hold|(m' & msg' & H1 & H2 & H3 & H4)]; [by left|].
        right. exists m', msg'. split; [by right|]. done.
    + destruct (IH outs e Hall') as (outs' & Hrun & Hfrom).
      exists outs'. split; [done|]. intros sid out Hin.
      destruct (Hfrom sid out Hin) as [Hold|(m' & msg' & H1 & H2 & H3 & H4)]; [by left|].
      right. exists m', msg'. split; [by right|]. done.
Qed.

Lemma elem_of_zip_fmap {A B} (f : A -> B) (l : list A) a b :
  (a, b) ∈ zip l (f <$> l) -> a ∈ l /\ b = f a.
Proof.
  induction l as [|x l IH]; cbn.
  - by intros ?%elem_of_nil.
  - intros [[= -> ->]|Hin]%elem_of_cons; [split; [by left|done]|].
    destruct (IH Hin). split; [by right|done].
Qed.

Lemma infer_output_fields msg out :
  infer_output msg = Some out ->
  out_session_id out = session_id msg /\ out_resp out = resp msg /\
  out_token_ids out = tail_slice (num_new_tokens msg) (all_ids msg) /\
  (out_finish out = true <-> status msg = STOPPED \/ status msg = TO_BE_MIGRATED) /\
  (out_finish out = false -> out_token_ids out <> []).
Proof.
  unfold infer_output.
  set (fin := bool_decide (status msg = STOPPED) || bool_decide (status msg = TO_BE_MIGRATED)).
  assert (Hfin : fin = true <-> status msg = STOPPED \/ status msg = TO_BE_MIGRATED).
  { unfold fin. by rewrite orb_true_iff, !bool_decide_eq_true. }
  destruct fin; cbn.
  - intros [= <-]. cbn. do 3 (split; [done|]). split; [exact Hfin | done].
  - case_bool_decide as Hlen; [done|]. intros [= <-]. cbn.
    do 3 (split; [done|]). split; [exact Hfin|].
    intros _ Hnil. apply Hlen. by rewrite Hnil.
Qed.

(** X10: every output of [_make_infer_outputs] stems from a sequence of the
    batch that was LOCKED when the results arrived -- a sequence that is in
    the batch but no longer LOCKED gets no output.  The output carries the
    sequence's session id and handle and all the tokens the sequence has
    produced for its message so far; it is marked finished exactly when the
    sequence has become STOPPED or TO_BE_MIGRATED, and an unfinished output
    is never empty. *)
Theorem infer_outputs_origin tokens running stopped metas e :
  NoDup running ->
  (forall m, m ∈ running -> is_Some (seqs e !! m)) ->
  exists outs e',
    _make_infer_outputs tokens running stopped metas e = Ok outs e' /\
    update_running running tokens stopped metas e = Ok tt e' /\
    forall sid out, (sid, out) ∈ outs ->
      exists m msg msg',
        m ∈ running /\ seqs e !! m = Some msg /\ status msg = LOCKED /\
        seqs e' !! m = Some msg' /\ sid = session_id msg' /\
        out_session_id out = sid /\ out_resp out = resp msg' /\
        out_token_ids out = tail_slice (num_new_tokens msg') (all_ids msg') /\
        (out_finish out = true <-> status msg' = STOPPED \/ status msg' = TO_BE_MIGRATED) /\
        (out_finish out = false -> out_token_ids out <> []).
Proof.
  intros Hnd Hall. unfold _make_infer_outputs.
  unfold mbind at 1, M_bind at 1. rewrite is_run_list by done.
  unfold update_running.
  set (ml := default (replicate (length running) None) metas).
  destruct (update_running_zip_spec running tokens stopped ml e Hnd Hall)
    as (e' & Hrun & _ & _ & _ & _ & _ & Hkeep & _).
  unfold mbind, M_bind. rewrite Hrun.
  destruct (infer_outputs_loop_spec (zip running (is_run_of e <$> running)) [] e')
    as (outs & Hloop & Hfrom).
  { intros m b [Hm _]%elem_of_zip_fmap. apply Hkeep. by apply Hall. }
  exists outs, e'. split; [done|]. split; [done|].
  intros sid out Hin.
  destruct (Hfrom sid out Hin) as [Hold|(m & msg' & Hz & Hm' & Hout & ->)];
    [by apply elem_of_nil in Hold|].
  apply elem_of_zip_fmap in Hz as [Hm Hrun_m].
  destruct (Hall m Hm) as [msg Hmsg].
  unfold is_run_of in Hrun_m. rewrite Hmsg in Hrun_m.
  symmetry in Hrun_m. apply bool_decide_eq_true in Hrun_m.
  destruct (infer_output_fields msg' out Hout) as (H1 & H2 & H3 & H4 & H5).
  exists m, msg, msg'. do 8 (split; [done|]). by split.
Qed.

Lemma infer_outputs_origin_witness :
  exists outs e',
    _make_infer_outputs [77] [0%nat] [true] None locked_prompt = Ok outs e' /\
    update_running [0%nat] [77] [true] None locked_prompt = Ok tt e' /\
    forall sid out, (sid, out) ∈ outs ->
      exists m msg msg',
        m ∈ [0%nat] /\ seqs locked_prompt !! m = Some msg /\ status msg = LOCKED /\
        seqs e' !! m = Some msg' /\ sid = session_id msg' /\
        out_session_id out = sid /\ out_resp out = resp msg' /\
        out_token_ids out = tail_slice (num_new_tokens msg') (all_ids msg') /\
        (out_finish out = true <-> status msg' = STOPPED \/ status msg' = TO_BE_MIGRATED) /\
        (out_finish out = false -> out_token_ids out <> []).
Proof.
  apply (infer_outputs_origin [77] [0%nat] [true] None locked_prompt).
  - apply NoDup_singleton.
  - intros m ->%list_elem_of_singleton. apply locked_prompt_keys. reflexivity.
Defined.

Lemma tail_slice_new_token (k : Z) (ids : list Z) t :
  0 <= k ->
  tail_slice (k + 1) (ids ++ [t]) = drop (length ids - Z.to_nat k) ids ++ [t].
Proof.
  intros Hk. unfold tail_slice.
  destruct (Z.eqb_spec (k + 1) 0); [lia|].
  destruct (Z.ltb_spec 0 (k + 1)); [|lia].
  rewrite length_app. cbn [length].
  replace (length ids + 1 - Z.to_nat (k + 1))%nat with (length ids - Z.to_nat k)%nat by lia.
  rewrite drop_app_le by lia. done.
Qed.

Lemma stepped_keeps t stop msg :
  session_id (stepped t stop msg) = session_id msg /\
  resp (stepped t stop msg) = resp msg.
Proof.
  unfold stepped. case_decide; [done|]. destruct stop; [|done].
  by destruct (preserve_cache _).
Qed.

Lemma infer_output_stepped t (stop : bool) msg :
  status msg = LOCKED -> 0 <= num_new_tokens msg ->
  infer_output (stepped t stop msg) = Some (step_output t stop msg).
Proof.
  intros Hlocked Hk. unfold stepped, step_output.
  rewrite decide_False by (intros Hn; by apply Hn).
  unfold infer_output. destruct stop; cbn.
  - rewrite tail_slice_new_token by done. by destruct (preserve_cache msg).
  - rewrite Hlocked. cbn. rewrite tail_slice_new_token by done.
    rewrite (bool_decide_eq_false_2 (length _ = 0%nat)); [done|].
    rewrite length_app. cbn. lia.
Qed.

Lemma dict_set_here {V} k (v : V) d : (k, v) ∈ dict_set k v d.
Proof.
  induction d as [|[k' v'] d IH]; cbn; [by left|].
  destruct (decide (k' = k)); [by left|by right].
Qed.

Lemma dict_set_other {V} k (v : V) k' v' d :
  (k, v) ∈ d -> k' <> k -> (k, v) ∈ dict_set k' v' d.
Proof.
  intros Hin Hne. induction d as [|[k0 v0] d IH]; [by apply elem_of_nil in Hin|].
  cbn. apply elem_of_cons in Hin as [[= <- <-]|Hin].
  - rewrite decide_False by congruence. by left.
  - destruct (decide (k0 = k')); right; [done|by apply IH].
Qed.

Lemma dict_set_keys {V} k (v : V) d :
  (dict_set k v d).*1 = if decide (k ∈ d.*1) then d.*1 else d.*1 ++ [k].
Proof.
  induction d as [|[k0 v0] d IH]; cbn.
  - rewrite decide_False; [done|]. by intros ?%elem_of_nil.
  - destruct (decide (k0 = k)) as [->|Hk].
    + rewrite decide_True by (by left). done.
    + cbn. rewrite IH. destruct (decide (k ∈ d.*1)) as [Hin|Hnin].
      * rewrite decide_True by (by right). done.
      * rewrite decide_False; [done|].
        intros [->|?]%elem_of_cons; done.
Qed.

Lemma dict_set_NoDup {V} k (v : V) d : NoDup d.*1 -> NoDup (dict_set k v d).*1.
Proof.
  intros Hnd. rewrite dict_set_keys. case_decide; [done|].
  apply NoDup_app. split; [done|]. split; [|apply NoDup_singleton].
  intros x Hx ->%list_elem_of_singleton. done.
Qed.

(** The loop of [_make_infer_outputs], in full: it keeps the keys of the
    dict distinct, keeps the outputs of sessions it does not meet, and has
    an output for every sequence that ran, whose session it meets once. *)
Lemma infer_outputs_loop_full l : forall outs e,
  (forall m b, (m, b) ∈ l -> is_Some (seqs e !! m)) ->
  exists outs',
    infer_outputs_loop l outs e = Ok outs' e /\
    (NoDup outs.*1 -> NoDup outs'.*1) /\
    (forall sid out, (sid, out) ∈ outs ->
       (forall m' b msg', (m', b) ∈ l -> seqs e !! m' = Some msg' ->
          session_id msg' <> sid) ->
       (sid, out) ∈ outs') /\
    (forall m msg out,
       NoDup l.*1 -> (m, true) ∈ l -> seqs e !! m = Some msg ->
       infer_output msg = Some out ->
       (forall m' b msg', (m', b) ∈ l -> seqs e !! m' = Some msg' ->
          session_id msg' = session_id msg -> m' = m) ->
       (session_id msg, out) ∈ outs').
Proof.
  induction l as [|[m0 b0] l IH]; intros outs e Hall.
  - exists outs. split; [done|]. split; [done|]. split; [done|].
    intros m msg out _ Hin. by apply elem_of_nil in Hin.
  - assert (Hall' : forall m' b', (m', b') ∈ l -> is_Some (seqs e !! m')).
    { intros m' b' Hin. apply (Hall m' b'). by right. }
    destruct (Hall m0 b0) as [msg0 Hm0]; [left|].
    (* the dict after this turn *)
    set (outs1 := if b0 then
                    match infer_output msg0 with
                    | Some out0 => dict_set (session_id msg0) out0 outs
                    | None => outs
                    end
                  else outs).
    assert (Hturn : infer_outputs_loop ((m0, b0) :: l) outs e = infer_outputs_loop l outs1 e).
    { unfold outs1. cbn [infer_outputs_loop]. destruct b0; cbn [negb]; [|done].
      unfold mbind, M_bind, get_seq. rewrite Hm0. by destruct (infer_output msg0). }
    destruct (IH outs1 e Hall') as (outs' & Hrun & Hnd & Hkeep & Hhas).
    exists outs'. rewrite Hturn. split; [done|]. split; [|split].
    + intros Hnd0. apply Hnd. unfold outs1.
      destruct b0; [|done]. destruct (infer_output msg0); [|done].
      by apply dict_set_NoDup.
    + intros sid out Hin Hother. apply Hkeep.
      * unfold outs1. destruct b0; [|done]. destruct (infer_output msg0); [|done].
        apply dict_set_other; [done|]. apply (Hother m0 true msg0); [by left|done].
      * intros m' b msg' Hin'. apply (Hother m' b). by right.
    + intros m msg out Hnd0 Hin Hm Hout Honly.
      cbn in Hnd0. apply NoDup_cons in Hnd0 as [Hfresh Hnd0].
      apply elem_of_cons in Hin as [[= <- <-]|Hin].
      * (* this is the turn of [m] *)
        rewrite Hm in Hm0. injection Hm0 as <-.
        apply Hkeep.
        -- unfold outs1. rewrite Hout. apply dict_set_here.
        -- intros m' b msg' Hin' Hm' Hsid.
           assert (m' = m) as -> by (apply (Honly m' b msg'); [by right|done..]).
           apply Hfresh. apply list_elem_of_fmap. exists (m, b). done.
      * apply (Hhas m msg out); [done..|].
        intros m' b msg' Hin'. apply (Honly m' b). by right.
Qed.

Lemma elem_of_zip_fmap_2 {A B} (f : A -> B) (l : list A) a :
  a ∈ l -> (a, f a) ∈ zip l (f <$> l).
Proof.
  induction l as [|x l IH]; [by intros ?%elem_of_nil|].
  cbn. intros [->|Hin]%elem_of_cons; [by left|]. right. by apply IH.
Qed.

Lemma posts_on_snoc h h' r e :
  posts_on h (with_mailbox (fun mb => mb ++ [(h', r)]) e) =
  posts_on h e ++ (if decide (h' = h) then [(h', r)] else []).
Proof.
  unfold posts_on. cbn. rewrite filter_app. f_equal.
Qed.

(** An output sent on its handle: one response, unless the handle has
    finished. *)
Lemma send_resp_at out h h' e :
  out_resp out = Some h' ->
  exists e',
    __send_resp out e = Ok tt e' /\
    posts_on h e' =
      posts_on h e ++
      (if decide (h' = h /\ type_of h e <> Some FINISH) then [(h, response_of out)] else []) /\
    (h' <> h -> type_of h e' = type_of h e).
Proof.
  intros Hresp. unfold __send_resp. rewrite Hresp.
  destruct (decide (type (default blank (handles e !! h')) = Some FINISH)) as [Hfin|Hopen].
  - rewrite response_closed by done. exists e. split; [done|]. split; [|done].
    rewrite decide_False; [by rewrite app_nil_r|].
    intros [-> Hne]. by apply Hne.
  - rewrite response_open by done. eexists. split; [done|]. split.
    + rewrite posts_on_snoc. f_equal. unfold type_of, posts_on. cbn.
      destruct (decide (h' = h)) as [->|Hne].
      * by rewrite decide_True.
      * rewrite decide_False; [done|]. by intros [? _].
    + intros Hne. unfold type_of. cbn. by rewrite lookup_insert_ne.
Qed.

Lemma send_resps_skip h outs : forall e,
  Forall (fun o => exists h', out_resp o = Some h' /\ h' <> h) outs ->
  exists e',
    __send_resps outs e = Ok tt e' /\ posts_on h e' = posts_on h e /\
    type_of h e' = type_of h e.
Proof.
  induction outs as [|o outs IH]; intros e Hall; [by exists e|].
  apply Forall_cons in Hall as [(h' & Hh' & Hne) Hall].
  destruct (send_resp_at o h h' e Hh') as (e1 & Hrun1 & Hp1 & Ht1).
  rewrite send_resps_cons, Hrun1.
  destruct (IH e1 Hall) as (e' & Hrun & Hp & Ht).
  exists e'. split; [done|]. rewrite Hp, Ht, Hp1, Ht1 by done.
  rewrite decide_False; [by rewrite app_nil_r|]. by intros [? _].
Qed.

Lemma send_resps_app l1 l2 e :
  __send_resps (l1 ++ l2) e =
  match __send_resps l1 e with
  | Ok _ e' => __send_resps l2 e'
  | Raised x e' => Raised x e'
  end.
Proof.
  revert e. induction l1 as [|o l1 IH]; intros e; [done|].
  cbn [app]. rewrite !send_resps_cons.
  destruct (__send_resp o e) as [[] e1|x e1]; [apply IH|done].
Qed.

(** The response loop over outputs of which one is for handle [h]. *)
Lemma send_resps_one l1 out l2 h e :
  Forall (fun o => exists h', out_resp o = Some h' /\ h' <> h) l1 ->
  Forall (fun o => exists h', out_resp o = Some h' /\ h' <> h) l2 ->
  out_resp out = Some h ->
  exists e',
    __send_resps (l1 ++ out :: l2) e = Ok tt e' /\
    posts_on h e' =
      posts_on h e ++
      (if decide (type_of h e = Some FINISH) then [] else [(h, response_of out)]).
Proof.
  intros H1 H2 Hout.
  destruct (send_resps_skip h l1 e H1) as (e1 & Hrun1 & Hp1 & Ht1).
  destruct (send_resp_at out h h e1 Hout) as (e2 & Hrun2 & Hp2 & _).
  destruct (send_resps_skip h l2 e2 H2) as (e3 & Hrun3 & Hp3 & _).
  exists e3. rewrite send_resps_app, Hrun1, send_resps_cons, Hrun2. split; [done|].
  rewrite Hp3, Hp2, Hp1, Ht1. f_equal.
  destruct (decide (type_of h e = Some FINISH)) as [Hfin|Hopen].
  - rewrite decide_False; [done|]. by intros [_ ?].
  - by rewrite decide_True.
Qed.

(** X11: one forward step, from the executor's result to the caller.  Take
    a batch of distinct, existing sequences with one token and one stopped
    flag each, whose LOCKED sequences all have a handle, and in it a LOCKED
    sequence that has produced [k >= 0] tokens for its message and shares
    neither its session nor its handle with another sequence of the batch.
    The step makes its outputs and the response loop sends them all; on the
    handle of the sequence exactly one response is posted: FINISH if the
    executor reported the sequence stopped, SUCCESS otherwise, carrying the
    last [k] tokens of the history followed by the step's token -- all the
    tokens of the message so far, not only the new one.  If the handle has
    already finished, nothing is posted on it. *)
Theorem step_reaches_caller tokens running stopped metas e i m msg h t (stop : bool) :
  NoDup running ->
  (forall m', m' ∈ running -> is_Some (seqs e !! m')) ->
  length tokens = length running -> length stopped = length running ->
  (forall l, metas = Some l -> length l = length running) ->
  (forall m' msg', m' ∈ running -> seqs e !! m' = Some msg' -> status msg' = LOCKED ->
     is_Some (resp msg')) ->
  running !! i = Some m -> tokens !! i = Some t -> stopped !! i = Some stop ->
  seqs e !! m = Some msg -> status msg = LOCKED -> resp msg = Some h ->
  0 <= num_new_tokens msg ->
  (forall m' msg', m' ∈ running -> seqs e !! m' = Some msg' ->
     session_id msg' = session_id msg \/ resp msg' = Some h -> m' = m) ->
  exists outs e1 e2,
    _make_infer_outputs tokens running stopped metas e = Ok outs e1 /\
    __send_resps outs.*2 e1 = Ok tt e2 /\
    posts_on h e2 =
      posts_on h e ++
      (if decide (type_of h e = Some FINISH) then []
       else [(h, response_of (step_output t stop msg))]).
Proof.
  intros Hnd Hall Hlt Hls Hlm Hhandles Hi Ht Hstop Hm Hlocked Hresp Hk Honly.
  unfold _make_infer_outputs. unfold mbind at 1, M_bind at 1.
  rewrite is_run_list by done. unfold update_running.
  set (ml := default (replicate (length running) None) metas).
  assert (Hml : length ml = length running).
  { unfold ml. destruct metas as [l|]; cbn; [by apply Hlm|apply length_replicate]. }
  destruct (update_running_zip_spec running tokens stopped ml e Hnd Hall)
    as (e1 & Hrun & Hh & _ & Hmb & _ & _ & Hkeep & Hd).
  unfold mbind, M_bind. rewrite Hrun.
  set (l := zip running (is_run_of e <$> running)).
  (* every sequence of the batch has been stepped *)
  assert (Hstep : forall m' msg', m' ∈ running -> seqs e !! m' = Some msg' ->
            exists t' (s' : bool), seqs e1 !! m' = Some (stepped t' s' msg')).
  { intros m' msg' Hin Hm'. apply list_elem_of_lookup_1 in Hin as [j Hj].
    pose proof (lookup_lt_Some _ _ _ Hj) as Hlen.
    destruct (lookup_lt_is_Some_2 tokens j) as [t' Ht']; [lia|].
    destruct (lookup_lt_is_Some_2 stopped j) as [s' Hs']; [lia|].
    exists t', s'. apply (Hd j); [done..|lia|done]. }
  assert (Hm1 : seqs e1 !! m = Some (stepped t stop msg)).
  { apply (Hd i); [done..| |done]. apply lookup_lt_Some in Hi. lia. }
  assert (Hexist : forall m' b, (m', b) ∈ l -> is_Some (seqs e1 !! m')).
  { intros m' b [Hin _]%elem_of_zip_fmap. apply Hkeep. by apply Hall. }
  (* where an output of the step comes from *)
  assert (Horigin : forall m' b msg1, (m', b) ∈ l -> seqs e1 !! m' = Some msg1 ->
            exists msg', m' ∈ running /\ seqs e !! m' = Some msg' /\
              b = bool_decide (status msg' = LOCKED) /\
              session_id msg1 = session_id msg' /\ resp msg1 = resp msg').
  { intros m' b msg1 [Hin Hb]%elem_of_zip_fmap Hm1'.
    destruct (Hall m' Hin) as [msg' Hm'].
    destruct (Hstep m' msg' Hin Hm') as (t' & s' & Hst).
    rewrite Hst in Hm1'. injection Hm1' as <-.
    destruct (stepped_keeps t' s' msg') as [Hsid Hr].
    exists msg'. do 2 (split; [done|]). split; [|done].
    unfold is_run_of in Hb. by rewrite Hm' in Hb. }
  destruct (infer_outputs_loop_full l [] e1 Hexist) as (outs & Hloop & Hkeys & _ & Hhas).
  destruct (infer_outputs_loop_spec l [] e1 Hexist) as (outs0 & Hloop0 & Hfrom).
  rewrite Hloop in Hloop0. injection Hloop0 as <-.
  rewrite Hloop. specialize (Hkeys (NoDup_nil_2 (A:=Z))).
  (* the output of [m] *)
  assert (Hout : (session_id msg, step_output t stop msg) ∈ outs).
  { destruct (stepped_keeps t stop msg) as [Hsid _]. rewrite <- Hsid.
    apply (Hhas m (stepped t stop msg)).
    - unfold l. rewrite fst_zip; [done|]. by rewrite length_fmap.
    - replace true with (is_run_of e m).
      + apply elem_of_zip_fmap_2. by apply (list_elem_of_lookup_2 _ i).
      + unfold is_run_of. rewrite Hm. by apply bool_decide_eq_true_2.
    - done.
    - by apply infer_output_stepped.
    - intros m' b msg1 Hin Hm1' Hs1.
      destruct (Horigin m' b msg1 Hin Hm1') as (msg' & Hin' & Hm' & _ & Hs' & _).
      apply (Honly m' msg'); [done..|]. left. congruence. }
  apply list_elem_of_split in Hout as (o1 & o2 & Houts).
  (* the other outputs go to other handles *)
  assert (Hothers : forall sid' o', (sid', o') ∈ outs -> sid' <> session_id msg ->
            exists h', out_resp o' = Some h' /\ h' <> h).
  { intros sid' o' Hin Hne.
    destruct (Hfrom sid' o' Hin) as [Hnil|(m' & msg1 & Hz & Hm1' & Hinf & ->)];
      [by apply elem_of_nil in Hnil|].
    destruct (Horigin m' true msg1 Hz Hm1') as (msg' & Hin' & Hm' & Hb & Hs' & Hr').
    symmetry in Hb. apply bool_decide_eq_true in Hb.
    destruct (infer_output_fields msg1 o' Hinf) as (_ & Hor & _).
    destruct (Hhandles m' msg' Hin' Hm' Hb) as [h' Hh'].
    exists h'. split; [congruence|]. intros ->.
    apply Hne. rewrite Hs'.
    assert (m' = m) as -> by (apply (Honly m' msg'); [done..|by right]).
    congruence. }
  rewrite Houts in Hkeys, Hothers. rewrite fmap_app, fmap_cons in Hkeys.
  apply NoDup_app in Hkeys as (_ & Hdisj & [Hnot2 _]%NoDup_cons). cbn in Hdisj, Hnot2.
  assert (H1 : Forall (fun o => exists h', out_resp o = Some h' /\ h' <> h) o1.*2).
  { apply Forall_fmap, Forall_forall. intros [sid' o'] Hin. cbn.
    apply (Hothers sid' o'); [apply elem_of_app; by left|].
    intros ->. apply (Hdisj (session_id msg)); [|by left].
    apply list_elem_of_fmap. by exists (session_id msg, o'). }
  assert (H2 : Forall (fun o => exists h', out_resp o = Some h' /\ h' <> h) o2.*2).
  { apply Forall_fmap, Forall_forall. intros [sid' o'] Hin. cbn.
    apply (Hothers sid' o'); [apply elem_of_app; right; by right|].
    intros ->. apply Hnot2. apply list_elem_of_fmap. by exists (session_id msg, o'). }
  destruct (send_resps_one o1.*2 (step_output t stop msg) o2.*2 h e1 H1 H2 Hresp)
    as (e2 & Hsend & Hposts).
  exists outs, e1, e2. split; [by rewrite Houts|]. split.
  - by rewrite Houts, fmap_app, fmap_cons.
  - rewrite Hposts. unfold posts_on, type_of. by rewrite Hmb, Hh.
Qed.

Lemma step_reaches_caller_witness :
  exists outs e1 e2,
    _make_infer_outputs [77] [0%nat] [true] None locked_prompt = Ok outs e1 /\
    __send_resps outs.*2 e1 = Ok tt e2 /\
    posts_on 5 e2 =
      posts_on 5 locked_prompt ++
      (if decide (type_of 5 locked_prompt = Some FINISH) then []
       else [(5%nat, response_of (step_output 77 true (set_status LOCKED one_prompt_seq)))]).
Proof.
  apply (step_reaches_caller [77] [0%nat] [true] None locked_prompt 0%nat 0%nat
           (set_status LOCKED one_prompt_seq) 5%nat 77 true).
  - apply NoDup_singleton.
  - intros m ->%list_elem_of_singleton. apply locked_prompt_keys. reflexivity.
  - reflexivity.
  - reflexivity.
  - discriminate.
  - intros m' msg' ->%list_elem_of_singleton Hm' _.
    rewrite locked_prompt_seq in Hm'. injection Hm' as <-. by eexists.
  - reflexivity.
  - reflexivity.
  - reflexivity.
  - exact locked_prompt_seq.
  - reflexivity.
  - reflexivity.
  - cbn. lia.
  - by intros m' msg' ->%list_elem_of_singleton _ _.
Defined.

(** X12: [Engine.end_session], the direct call used outside the request
    loop.  It never raises (the membership test shields the scheduler's
    KeyError); it returns True exactly for a session the scheduler knows;
    the session and every sequence of it are then gone -- there is no
    [preserve_cache] detour as in [_on_end_session] -- and nothing is
    posted to any caller.  For an unknown session nothing changes. *)
Theorem end_session_direct session_id e :
  exists (b : bool) e',
    end_session session_id e = Ok b e' /\
    (b = true <-> is_Some (sessions e !! session_id)) /\
    sessions e' = delete session_id (sessions e) /\
    mailbox e' = mailbox e /\ handles e' = handles e /\
    (forall ms m, sessions e !! session_id = Some ms -> m ∈ ms -> seqs e' !! m = None) /\
    (forall m, (forall ms, sessions e !! session_id = Some ms -> m ∉ ms) ->
       seqs e' !! m = seqs e !! m) /\
    (sessions e !! session_id = None -> e' = e).
Proof.
  unfold end_session, scheduler_end_session. run_m.
  destruct (sessions e !! session_id) as [ms|] eqn:Hs; run_m.
  - rewrite Hs. run_m. eexists true, _. split; [reflexivity|]. cbn.
    split; [split; [by eexists|done]|].
    do 3 (split; [done|]).
    split; [|split; [|done]].
    + intros ms' m [= <-] Hin. by apply lookup_foldr_delete.
    + intros m Hnot. apply lookup_foldr_delete_not_elem_of. by apply Hnot.
  - exists false, e. split; [done|].
    split; [split; [done|by intros [? ?]]|].
    split; [by rewrite delete_id|].
    do 2 (split; [done|]). split; [done|]. done.
Qed.

(** X13: [_update_engine_config].  The returned configuration always has a
    batch size; one that is given is kept.  Data parallelism survives only
    together with tensor or expert parallelism: a [dp] other than 1 comes
    out only if [tp] or [ep] is not 1, and the rank is reset to 0 whenever
    [dp] is reset.  Device type, [tp] and [ep] are never changed, and
    updating an updated configuration changes nothing. *)
Theorem update_engine_config_normalises get_max_batch_size defaults engine_config :
  let given := default defaults engine_config in
  let c := _update_engine_config get_max_batch_size defaults engine_config in
  is_Some (max_batch_size c) /\
  (forall n, max_batch_size given = Some n -> max_batch_size c = Some n) /\
  (dp c <> 1 -> tp c <> 1 \/ ep c <> 1) /\
  (dp c <> dp given -> dp c = 1 /\ dp_rank c = 0) /\
  (dp c = dp given -> dp_rank c = dp_rank given) /\
  device_type c = device_type given /\ tp c = tp given /\ ep c = ep given /\
  _update_engine_config get_max_batch_size defaults (Some c) = c.
Proof.
  cbv zeta. unfold _update_engine_config.
  destruct (default defaults engine_config) as [mbs dev d t p r]. cbn.
  destruct mbs as [n|]; cbn;
    destruct (decide (d = 1)) as [->|Hd];
    destruct (decide (t = 1)) as [->|Ht];
    destruct (decide (p = 1)) as [->|Hp]; cbn;
    rewrite ?bool_decide_eq_true_2, ?bool_decide_eq_false_2 by (done || by intros ?);
    cbn;
    rewrite ?bool_decide_eq_true_2, ?bool_decide_eq_false_2 by (done || by intros ?);
    cbn;
    (split; [by eexists|]); (split; [by intros ? [= ->]|]);
    (split; [try done; intros _; (by left) || (by right)|]);
    (split; [done|]); (split; [done|]); done.
Qed.

(** X14: [_get_max_session_len].  A configured session length is an upper
    bound of the result plus one block.  Without a sliding window that fits
    the cache, the result is at most the cache less one block; with one,
    the cache size does not limit it: the result is the configured length
    (below 2^63) or 2^63 - 1, less one block. *)
Theorem max_session_len_bounds cfg :
  let cache := num_gpu_blocks cfg * block_size cfg in
  let windowed := 0 < window_size cfg <= cache in
  (forall s, session_len cfg = Some s -> _get_max_session_len cfg <= s - block_size cfg) /\
  (~ windowed -> _get_max_session_len cfg <= cache - block_size cfg) /\
  (~ windowed -> session_len cfg = None -> _get_max_session_len cfg = cache - block_size cfg) /\
  (windowed -> session_len cfg = None ->
     _get_max_session_len cfg = 2 ^ 63 - 1 - block_size cfg) /\
  (windowed -> forall s, session_len cfg = Some s -> s < 2 ^ 63 ->
     _get_max_session_len cfg = s - block_size cfg).
Proof.
  cbv zeta. unfold _get_max_session_len.
  change (Z.shiftl 1 63) with (2 ^ 63).
  destruct (Z.ltb_spec 0 (window_size cfg));
    destruct (Z.leb_spec (window_size cfg) (num_gpu_blocks cfg * block_size cfg));
    cbn [andb]; destruct (session_len cfg) as [s0|];
    repeat split; intros; simplify_eq; lia.
Qed.

End EngineCoverage.

(* ===================================================================== *)
(** * The forward event along the main loop *)
(* ===================================================================== *)

Section MainLoopFacts.
Import CounterEvent MainLoop.

(** Turns away from the middle and the last index only fetch an output. *)
Lemma turns_plain num_loops (l : list Z) :
  Forall (fun idx => idx <> num_loops `div` 2 /\ idx <> num_loops - 1) l ->
  l ≫= turn num_loops = GetOutput <$> l.
Proof.
  induction 1 as [|idx l [Hh Hl] _ IH]; [done|].
  rewrite bind_cons, fmap_cons, IH. unfold turn.
  destruct (Z.eqb_spec idx (num_loops `div` 2)); [done|].
  by destruct (Z.eqb_spec idx (num_loops - 1)).
Qed.

Lemma forward_event_after_outputs (l : list Z) ev :
  forward_event_after (GetOutput <$> l) ev = ev.
Proof. unfold forward_event_after. by induction l. Qed.

Lemma forward_event_after_app l1 l2 ev :
  forward_event_after (l1 ++ l2) ev = forward_event_after l2 (forward_event_after l1 ev).
Proof. unfold forward_event_after. apply foldl_app. Qed.

Lemma range_split n :
  1 <= n ->
  seqZ 0 n = seqZ 0 (n `div` 2) ++ seqZ (n `div` 2) (n - 1 - n `div` 2) ++ [n - 1].
Proof.
  intros Hn.
  assert (Hh : 0 <= n `div` 2 <= n - 1).
  { split; [apply Z.div_pos; lia|]. apply Z.lt_le_pred, Z.div_lt_upper_bound; lia. }
  transitivity (seqZ 0 (n `div` 2 + ((n - 1 - n `div` 2) + 1))); [f_equal; lia|].
  rewrite seqZ_app by lia. f_equal. rewrite Z.add_0_l.
  rewrite seqZ_app by lia. f_equal.
  replace (n `div` 2 + (n - 1 - n `div` 2)) with (n - 1) by lia.
  rewrite seqZ_cons by lia. by rewrite seqZ_nil by lia.
Qed.

Lemma for_range_closed_form n :
  1 <= n ->
  for_range n =
    ((GetOutput <$> seqZ 0 (n `div` 2)) ++ [ClearForward] ++
     (GetOutput <$> seqZ (n `div` 2) (n - 1 - n `div` 2))) ++
    [Prefetch; GetOutput (n - 1); SetForward].
Proof.
  intros Hn. unfold for_range.
  assert (Hh : 0 <= n `div` 2 <= n - 1).
  { split; [apply Z.div_pos; lia|]. apply Z.lt_le_pred, Z.div_lt_upper_bound; lia. }
  rewrite range_split by done. rewrite bind_app.
  rewrite turns_plain.
  2:{ apply Forall_seqZ. intros k Hk. lia. }
  rewrite <- !app_assoc. f_equal.
  destruct (decide (n `div` 2 = n - 1)) as [Heq|Hne].
  - replace (n - 1 - n `div` 2) with 0 by lia.
    rewrite (seqZ_nil _ 0) by lia. rewrite app_nil_l, bind_cons.
    unfold turn.
    destruct (Z.eqb_spec (n - 1) (n `div` 2)); [|lia].
    rewrite Z.eqb_refl. done.
  - rewrite (seqZ_cons (n `div` 2)) by lia.
    rewrite <- app_comm_cons, bind_cons, bind_app, turns_plain.
    2:{ apply Forall_seqZ. intros k Hk. lia. }
    unfold turn at 1. rewrite Z.eqb_refl.
    destruct (Z.eqb_spec (n `div` 2) (n - 1)); [done|].
    cbn. unfold turn. rewrite Z.eqb_refl.
    destruct (Z.eqb_spec (n - 1) (n `div` 2)); [lia|].
    done.
Qed.

(** X15: the forward event along [for idx in range(num_loops)] of the main
    loop, for [num_loops >= 1].  The loop clears the event once, at index
    [num_loops // 2], and sets it once, as its very last step; the prefetch
    and the last output fall between the two, when the event is down.  The
    loop gives the counter back as it found it, and leaves the event set if
    the counter was 0. *)
Theorem forward_event_schedule n ev :
  1 <= n -> reachable ev ->
  let h := n `div` 2 in
  let before_prefetch :=
    (GetOutput <$> seqZ 0 h) ++ [ClearForward] ++ (GetOutput <$> seqZ h (n - 1 - h)) in
  for_range n = before_prefetch ++ [Prefetch; GetOutput (n - 1); SetForward] /\
  is_set (forward_event_after before_prefetch ev) = false /\
  _counter (forward_event_after (for_range n) ev) = _counter ev /\
  (_counter ev = 0 -> is_set (forward_event_after (for_range n) ev) = true).
Proof.
  intros Hn Hr. cbv zeta.
  destruct (reachable_inv _ Hr) as [Hc Hdown].
  split; [by apply for_range_closed_form|].
  rewrite for_range_closed_form by done.
  rewrite !forward_event_after_app, !forward_event_after_outputs.
  cbn. unfold is_set.
  destruct (Z.eqb_spec (_counter ev) 0) as [Hz|Hz].
  - rewrite Hz. cbn. split; [by destruct (_event ev)|]. done.
  - cbn. split; [apply Hdown; lia|].
    destruct (Z.ltb_spec 0 (_counter ev + 1)); [|lia].
    split; [lia|]. done.
Qed.

Lemma forward_event_schedule_witness :
  let n := 4 in
  let ev := set init in
  let h := n `div` 2 in
  let before_prefetch :=
    (GetOutput <$> seqZ 0 h) ++ [ClearForward] ++ (GetOutput <$> seqZ h (n - 1 - h)) in
  for_range n = before_prefetch ++ [Prefetch; GetOutput (n - 1); SetForward] /\
  is_set (forward_event_after before_prefetch ev) = false /\
  _counter (forward_event_after (for_range n) ev) = _counter ev /\
  (_counter ev = 0 -> is_set (forward_event_after (for_range n) ev) = true).
Proof.
  apply (forward_event_schedule 4 (set init)).
  - lia.
  - repeat constructor.
Defined.

End MainLoopFacts.

(* ===================================================================== *)
(** * The bundle of forward inputs *)
(* ===================================================================== *)

Section ForwardInputsFacts.
Import Engine MainLoop.

(** Every bundle is assembled from one schedule, for prefill only if
    prefill was asked for. *)
Lemma make_forward_inputs_fields schedule cfg prefill enable_empty e fi e' :
  _make_forward_inputs schedule cfg prefill enable_empty e = Ok (Some fi) e' ->
  exists (pf : bool) out,
    running out <> [] /\ (pf = true -> prefill = true) /\
    fi = {| fi_running := running out; fi_is_decoding := negb pf;
            fi_swap_in_map := swap_in_map out; fi_swap_out_map := swap_out_map out;
            loop_count := if pf then 1 else prefill_interval cfg;
            fi_all_ids := fi_all_ids fi;
            fi_sampling_inputs := from_sampling_params (running out);
            num_appendable_ids := __get_num_appendable_ids (running out);
            num_ignore_eos := __get_num_ignore_eos (running out);
            fi_return_logits := __need_logits (running out);
            is_dummy := false |}.
Proof.
  unfold _make_forward_inputs. unfold mbind at 1, M_bind at 1.
  destruct (schedule prefill _ e) as [out1 e1|]; [|done].
  destruct (enable_empty && _); [done|].
  assert (Hbuild : forall (pf : bool) out e2, (pf = true -> prefill = true) ->
    (if bool_decide (length (running out) = 0%nat) then mret None
     else
       all_ids ← __gather_all_ids cfg (running out) (from_sampling_params (running out));
       mret (Some
         {| fi_running := running out; fi_is_decoding := negb pf;
            fi_swap_in_map := swap_in_map out; fi_swap_out_map := swap_out_map out;
            loop_count := if pf then 1 else prefill_interval cfg;
            fi_all_ids := all_ids;
            fi_sampling_inputs := from_sampling_params (running out);
            num_appendable_ids := __get_num_appendable_ids (running out);
            num_ignore_eos := __get_num_ignore_eos (running out);
            fi_return_logits := __need_logits (running out);
            is_dummy := false |})) e2 = Ok (Some fi) e' ->
    exists (pf : bool) out,
      running out <> [] /\ (pf = true -> prefill = true) /\
      fi = {| fi_running := running out; fi_is_decoding := negb pf;
              fi_swap_in_map := swap_in_map out; fi_swap_out_map := swap_out_map out;
              loop_count := if pf then 1 else prefill_interval cfg;
              fi_all_ids := fi_all_ids fi;
              fi_sampling_inputs := from_sampling_params (running out);
              num_appendable_ids := __get_num_appendable_ids (running out);
              num_ignore_eos := __get_num_ignore_eos (running out);
              fi_return_logits := __need_logits (running out);
              is_dummy := false |}).
  { intros pf out e2 Hpf. destruct (running out) as [|seq seqs] eqn:Hrun; [done|].
    rewrite bool_decide_eq_false_2 by done. unfold mbind, M_bind.
    destruct (__gather_all_ids cfg (seq :: seqs) _ e2) as [a e3|]; [|done].
    unfold mret, M_ret. intros [= <- <-].
    exists pf, out. rewrite Hrun. split; [done|]. split; [done|]. done. }
  destruct (prefill && _ && _) eqn:Hp.
  - unfold mbind, M_bind.
    destruct (schedule false _ e1) as [out2 e2|]; [|done].
    unfold mret, M_ret. apply Hbuild. done.
  - unfold mbind, M_bind, mret, M_ret. apply Hbuild. done.
Qed.

Lemma max_list_attained (l : list nat) : l <> [] -> max_list l ∈ l.
Proof.
  induction l as [|x l IH]; [done|]. intros _.
  change (max_list (x :: l)) with (x `max` max_list l)%nat.
  destruct (decide (l = [])) as [->|Hl].
  - cbn. rewrite Nat.max_0_r. by left.
  - destruct (Nat.max_spec x (max_list l)) as [[_ ->]|[_ ->]].
    + right. by apply IH.
    + by left.
Qed.

(** The rows [__gather_all_ids] returns. *)
Lemma gather_all_ids_rows cfg seqs si e rows e' :
  __gather_all_ids cfg seqs si e = Ok (Some rows) e' ->
  rows = (fun seq =>
            replicate (max_list (num_all_ids <$> seqs) - num_all_ids seq)
              (default 0 (bos_token_id cfg)) ++ all_ids seq) <$> seqs.
Proof.
  unfold __gather_all_ids. destruct (_ && _); [done|].
  destruct seqs; [done|]. by intros [= <-].
Qed.

(** X16: the token histories of a bundle.  When [all_ids] is present it
    has one row per scheduled sequence, every row as long as the longest
    history of the batch; a row ends with the history of its sequence and
    is filled up at the left with the BOS token (0 when the model has
    none); and at least one row has no padding at all. *)
Theorem all_ids_rows_aligned schedule cfg prefill enable_empty e fi e' rows :
  _make_forward_inputs schedule cfg prefill enable_empty e = Ok (Some fi) e' ->
  fi_all_ids fi = Some rows ->
  let max_len := max_list (num_all_ids <$> fi_running fi) in
  let pad_id := default 0 (bos_token_id cfg) in
  length rows = length (fi_running fi) /\
  Forall (fun row => length row = max_len) rows /\
  (forall i seq, fi_running fi !! i = Some seq ->
     exists row, rows !! i = Some row /\
       drop (max_len - num_all_ids seq) row = all_ids seq /\
       take (max_len - num_all_ids seq) row =
         replicate (max_len - num_all_ids seq) pad_id) /\
  exists i seq, fi_running fi !! i = Some seq /\ rows !! i = Some (all_ids seq).
Proof.
  intros (Hne & _ & Hg)%make_forward_inputs_bundle Hrows. cbv zeta.
  rewrite Hrows in Hg. apply gather_all_ids_rows in Hg as ->.
  set (l := fi_running fi) in *.
  assert (Hle : forall seq, seq ∈ l -> (num_all_ids seq <= max_list (num_all_ids <$> l))%nat).
  { intros seq Hin. apply max_list_elem_of_le. by apply list_elem_of_fmap_2. }
  split; [by rewrite length_fmap|].
  split; [|split].
  - apply Forall_fmap, Forall_forall. intros seq Hin. cbn.
    rewrite length_app, length_replicate. specialize (Hle seq Hin).
    unfold num_all_ids in *. lia.
  - intros i seq Hi. eexists. split; [by rewrite list_lookup_fmap, Hi|].
    rewrite drop_app_length', take_app_length' by (by rewrite length_replicate).
    done.
  - destruct (list_elem_of_fmap_1 num_all_ids l (max_list (num_all_ids <$> l)))
      as (seq & Hlen & Hin); [apply max_list_attained; by intros ?%fmap_nil_inv|].
    apply list_elem_of_lookup_1 in Hin as [i Hi].
    exists i, seq. split; [done|].
    rewrite list_lookup_fmap, Hi. cbn. by rewrite Hlen, Nat.sub_diag.
Qed.

Lemma all_ids_rows_aligned_witness :
  let max_len := max_list (num_all_ids <$> fi_running two_prompts_bundle) in
  let pad_id := default 0 (bos_token_id cfg0) in
  length [[5; 6; 7; 8]; [1; 1; 1; 9]] = length (fi_running two_prompts_bundle) /\
  Forall (fun row => length row = max_len) [[5; 6; 7; 8]; [1; 1; 1; 9]] /\
  (forall i seq, fi_running two_prompts_bundle !! i = Some seq ->
     exists row, [[5; 6; 7; 8]; [1; 1; 1; 9]] !! i = Some row /\
       drop (max_len - num_all_ids seq) row = all_ids seq /\
       take (max_len - num_all_ids seq) row =
         replicate (max_len - num_all_ids seq) pad_id) /\
  exists i seq, fi_running two_prompts_bundle !! i = Some seq /\
    [[5; 6; 7; 8]; [1; 1; 1; 9]] !! i = Some (all_ids seq).
Proof.
  apply (all_ids_rows_aligned two_prompts cfg0 true false empty_engine
           two_prompts_bundle empty_engine [[5; 6; 7; 8]; [1; 1; 1; 9]]).
  - reflexivity.
  - reflexivity.
Defined.

(** X17: every bundle of forward inputs is consistent.  Its batch is not
    empty and it is not a dummy; a prefill bundle arises only when prefill
    was asked for and runs one forward step, a decode bundle runs
    [prefill_interval] steps; the per-sequence budgets -- tokens still
    allowed, tokens during which EOS is ignored -- stand in the order of
    the batch; and logits are returned exactly when some sequence of the
    batch asks for them.  The main loop spends a prefill bundle in a single
    turn: clear, prefetch, output, set. *)
Theorem forward_inputs_consistent schedule cfg prefill enable_empty e fi e' :
  _make_forward_inputs schedule cfg prefill enable_empty e = Ok (Some fi) e' ->
  fi_running fi <> [] /\ is_dummy fi = false /\
  (fi_is_decoding fi = false -> prefill = true /\ loop_count fi = 1) /\
  (fi_is_decoding fi = true -> loop_count fi = prefill_interval cfg) /\
  length (num_appendable_ids fi) = length (fi_running fi) /\
  length (num_ignore_eos fi) = length (fi_running fi) /\
  (forall i seq, fi_running fi !! i = Some seq ->
     num_appendable_ids fi !! i =
       Some (max_new_tokens (sampling_param seq) - num_new_tokens seq) /\
     num_ignore_eos fi !! i =
       Some (min_new_tokens (sampling_param seq) - num_new_tokens seq)) /\
  (fi_return_logits fi = true <->
     Exists (fun seq => return_logits seq = true) (fi_running fi)) /\
  (fi_is_decoding fi = false ->
     for_range (loop_count fi) = [ClearForward; Prefetch; GetOutput 0; SetForward]).
Proof.
  intros (pf & out & Hne & Hpf & ->)%make_forward_inputs_fields.
  cbn [fi_running is_dummy fi_is_decoding loop_count num_appendable_ids
       num_ignore_eos fi_return_logits].
  split; [done|]. split; [done|].
  split; [intros ->%negb_false_iff; by split; [apply Hpf|]|].
  split; [by intros ->%negb_true_iff|].
  unfold __get_num_appendable_ids, __get_num_ignore_eos, __need_logits.
  rewrite !length_fmap. split; [done|]. split; [done|].
  split; [intros i seq Hi; by rewrite !list_lookup_fmap, Hi|].
  split.
  - rewrite existsb_exists, Exists_exists. setoid_rewrite list_elem_of_In. done.
  - by intros ->%negb_false_iff.
Qed.

Lemma forward_inputs_consistent_witness :
  fi_running two_prompts_bundle <> [] /\ is_dummy two_prompts_bundle = false /\
  (fi_is_decoding two_prompts_bundle = false ->
     true = true /\ loop_count two_prompts_bundle = 1) /\
  (fi_is_decoding two_prompts_bundle = true ->
     loop_count two_prompts_bundle = prefill_interval cfg0) /\
  length (num_appendable_ids two_prompts_bundle) = length (fi_running two_prompts_bundle) /\
  length (num_ignore_eos two_prompts_bundle) = length (fi_running two_prompts_bundle) /\
  (forall i seq, fi_running two_prompts_bundle !! i = Some seq ->
     num_appendable_ids two_prompts_bundle !! i =
       Some (max_new_tokens (sampling_param seq) - num_new_tokens seq) /\
     num_ignore_eos two_prompts_bundle !! i =
       Some (min_new_tokens (sampling_param seq) - num_new_tokens seq)) /\
  (fi_return_logits two_prompts_bundle = true <->
     Exists (fun seq => return_logits seq = true) (fi_running two_prompts_bundle)) /\
  (fi_is_decoding two_prompts_bundle = false ->
     for_range (loop_count two_prompts_bundle) =
       [ClearForward; Prefetch; GetOutput 0; SetForward]).
Proof.
  apply (forward_inputs_consistent two_prompts cfg0 true false empty_engine
           two_prompts_bundle empty_engine).
  reflexivity.
Defined.

End ForwardInputsFacts.

(* ===================================================================== *)
(** * Rendering prompts from chat templates *)
(* ===================================================================== *)

Section ChatTemplateFacts.
Import ChatTemplate.

Lemma drop_end_app {A} (a b : list A) : drop_end (length b) (a ++ b) = a.
Proof.
  unfold drop_end. rewrite length_app.
  replace (length a + length b - length b)%nat with (length a) by lia.
  apply take_app_length.
Qed.

Lemma renders_piece self m :
  renders m ->
  exists box txt eox,
    get_text (content m) = inr txt /\ box_map self (role m) = Some box /\
    eox_map self (role m) = Some eox /\ piece self m = box ++ txt ++ eox /\
    text_of m = txt.
Proof.
  intros [Hrole Hcontent]. unfold piece, text_of.
  assert (Htext : exists txt, get_text (content m) = inr txt).
  { destruct (content m) as [s|[|p ps]]; [by eexists|done|by eexists]. }
  destruct Htext as [txt ->].
  unfold box_map, eox_map.
  repeat (apply elem_of_cons in Hrole as [->|Hrole];
          [eexists _, _, _; cbn; by repeat split|]).
  by apply elem_of_nil in Hrole.
Qed.

Lemma render_app self l1 l2 ret :
  render self (l1 ++ l2) ret =
  match render self l1 ret with inl x => inl x | inr r => render self l2 r end.
Proof.
  revert ret. induction l1 as [|m l1 IH]; intros ret; [done|].
  cbn [app render]. destruct (get_text (content m)); [done|].
  destruct (box_map self (role m)); [|done].
  destruct (eox_map self (role m)); [|done]. apply IH.
Qed.

Lemma render_ok self l : forall ret,
  Forall renders l -> render self l ret = inr (ret ++ concat (piece self <$> l)).
Proof.
  induction l as [|m l IH]; intros ret Hl.
  - cbn. by rewrite app_nil_r.
  - apply Forall_cons in Hl as [Hm Hl].
    destruct (renders_piece self m Hm) as (box & txt & eox & Ht & Hb & He & Hp & _).
    cbn [render]. rewrite Ht, Hb, He, IH by done.
    cbn [fmap list_fmap concat]. rewrite Hp. by rewrite <- !app_assoc.
Qed.

Lemma ends_with_assistant_snoc pre m :
  ends_with_assistant (pre ++ [m]) = bool_decide (role m = "assistant").
Proof. unfold ends_with_assistant. by rewrite last_snoc. Qed.

Lemma header_snoc self pre m start :
  pre <> [] -> header self (pre ++ [m]) start = header self pre start.
Proof. by destruct pre. Qed.

(** X18: a history that renders.  The prompt is the header, the pieces of
    the messages in their order -- begin marker of the role, text, end
    marker of the role -- and the begin marker of the assistant.  A history
    that ends with an assistant message is taken for the prefix of a
    response: when the assistant's end marker is not empty, the prompt
    stops right after the text of that message. *)
Theorem history_rendering self messages sequence_start :
  Forall renders messages ->
  (ends_with_assistant messages = false \/ eoa self ++ separator self = [] ->
   messages2prompt self (History messages) sequence_start =
     inr (header self messages sequence_start ++ concat (piece self <$> messages) ++
          assistant self)) /\
  (forall pre m, messages = pre ++ [m] -> role m = "assistant" ->
     eoa self ++ separator self <> [] ->
     messages2prompt self (History messages) sequence_start =
       inr (header self messages sequence_start ++ concat (piece self <$> pre) ++
            assistant self ++ text_of m)).
Proof.
  intros Hall. unfold messages2prompt, Base_messages2prompt.
  rewrite render_ok by done. split.
  - intros [-> | ->]; [by rewrite <- app_assoc|].
    rewrite andb_false_r. by rewrite <- app_assoc.
  - intros pre m -> Hrole Hne.
    rewrite ends_with_assistant_snoc, bool_decide_eq_true_2 by done.
    rewrite bool_decide_eq_true_2 by (destruct (eoa self ++ separator self); [done|cbn; lia]).
    cbn [andb]. f_equal.
    apply Forall_app in Hall as [_ [Hm _]%Forall_cons].
    destruct (renders_piece self m Hm) as (box & txt & eox & _ & Hb & He & Hp & Ht).
    rewrite fmap_app, concat_app. cbn [fmap list_fmap concat]. rewrite app_nil_r, Hp, Ht.
    unfold box_map, eox_map in Hb, He. rewrite Hrole in Hb, He. cbn in Hb, He.
    injection Hb as <-. injection He as <-.
    transitivity (drop_end (length (eoa self ++ separator self))
      ((header self (pre ++ [m]) sequence_start ++ concat (piece self <$> pre) ++
        assistant self ++ txt) ++ (eoa self ++ separator self)));
      [f_equal; by rewrite <- !app_assoc | apply drop_end_app].
Qed.

Lemma history_rendering_witness :
  let messages :=
    [user_message (lit "Hi"); assistant_message (lit "Hello"); user_message (lit "Why?");
     assistant_message (lit "Because")] in
  (ends_with_assistant messages = false \/
   eoa Vicuna_default ++ separator Vicuna_default = [] ->
   messages2prompt Vicuna_default (History messages) true =
     inr (header Vicuna_default messages true ++
          concat (piece Vicuna_default <$> messages) ++ assistant Vicuna_default)) /\
  (forall pre m, messages = pre ++ [m] -> role m = "assistant" ->
     eoa Vicuna_default ++ separator Vicuna_default <> [] ->
     messages2prompt Vicuna_default (History messages) true =
       inr (header Vicuna_default messages true ++
            concat (piece Vicuna_default <$> pre) ++
            assistant Vicuna_default ++ text_of m)).
Proof.
  apply (history_rendering Vicuna_default
           [user_message (lit "Hi"); assistant_message (lit "Hello");
            user_message (lit "Why?"); assistant_message (lit "Because")] true).
  repeat constructor; (by vm_compute) || (cbn; set_solver).
Defined.

(** X19: one user message against [get_prompt].  As a history of one user
    message the prompt is rendered whatever the capability, while
    [get_prompt] hands a completion prompt back untouched; for the other
    capabilities the two agree at the start of a sequence, and later
    [get_prompt] differs by the separator it puts in front. *)
Theorem single_user_message self prompt sequence_start :
  exists r,
    messages2prompt self (History [user_message prompt]) sequence_start = inr r /\
    r = header self [user_message prompt] sequence_start ++
        user self ++ prompt ++ eoh self ++ assistant self /\
    (capability self <> "completion" ->
     get_prompt self prompt sequence_start =
       (if sequence_start then [] else separator self) ++ r) /\
    (capability self = "completion" -> get_prompt self prompt sequence_start = prompt) /\
    messages2prompt self (Prompt prompt) sequence_start =
      inr (get_prompt self prompt sequence_start).
Proof.
  eexists. split; [reflexivity|]. cbn.
  split; [by rewrite <- !app_assoc|].
  assert (Hh : header self [user_message prompt] sequence_start =
               if sequence_start
               then match meta_instruction self with
                    | Some mi => system self ++ mi ++ eosys self
                    | None => []
                    end
               else []).
  { unfold header. by destruct (meta_instruction self), sequence_start. }
  rewrite Hh. unfold get_prompt.
  split; [|split; [|done]].
  - intros Hc. rewrite decide_False by done.
    destruct sequence_start; [|by rewrite <- !app_assoc].
    destruct (meta_instruction self); cbn; by rewrite <- ?app_assoc.
  - intros Hc. by rewrite decide_True.
Qed.

(** X20: errors of [messages2prompt].  After messages that render, a
    message with an empty list as content raises IndexError, whatever its
    role; a message with a text and a role other than user, assistant,
    system and tool raises KeyError with that role.  What follows the
    message does not matter. *)
Theorem bad_message_raises self pre m post sequence_start :
  Forall renders pre ->
  (content m = Parts [] ->
   messages2prompt self (History (pre ++ m :: post)) sequence_start = inl IndexError) /\
  (content m <> Parts [] -> role m ∉ ["user"; "assistant"; "system"; "tool"] ->
   messages2prompt self (History (pre ++ m :: post)) sequence_start =
     inl (KeyError (role m))).
Proof.
  intros Hpre. unfold messages2prompt, Base_messages2prompt.
  rewrite render_app, render_ok by done. cbn [render]. split.
  - by intros ->.
  - intros Hc Hr.
    assert (Htext : exists txt, get_text (content m) = inr txt).
    { destruct (content m) as [s|[|p ps]]; [by eexists|done|by eexists]. }
    destruct Htext as [txt ->].
    assert (box_map self (role m) = None) as ->; [|done].
    unfold box_map.
    rewrite !not_elem_of_cons in Hr. destruct Hr as (H1 & H2 & H3 & H4 & _).
    by rewrite !decide_False.
Qed.

Lemma bad_message_raises_witness :
  (content {| role := "function"; content := Text (lit "f(x)") |} = Parts [] ->
   messages2prompt Vicuna_default
     (History ([user_message (lit "Hi")] ++
               {| role := "function"; content := Text (lit "f(x)") |} :: []))
     true = inl IndexError) /\
  (content {| role := "function"; content := Text (lit "f(x)") |} <> Parts [] ->
   role {| role := "function"; content := Text (lit "f(x)") |}
     ∉ ["user"; "assistant"; "system"; "tool"] ->
   messages2prompt Vicuna_default
     (History ([user_message (lit "Hi")] ++
               {| role := "function"; content := Text (lit "f(x)") |} :: []))
     true = inl (KeyError (role {| role := "function"; content := Text (lit "f(x)") |}))).
Proof.
  apply (bad_message_raises Vicuna_default [user_message (lit "Hi")]
           {| role := "function"; content := Text (lit "f(x)") |} [] true).
  repeat constructor; (by vm_compute) || (cbn; set_solver).
Defined.

Lemma render_meta_instruction self m l : forall ret,
  render (with_meta_instruction m self) l ret = render self l ret.
Proof.
  induction l as [|x l IH]; intros ret; [done|].
  cbn [render]. destruct (get_text (content x)); [done|].
  change (box_map (with_meta_instruction m self) (role x)) with (box_map self (role x)).
  change (eox_map (with_meta_instruction m self) (role x)) with (eox_map self (role x)).
  destruct (box_map self (role x)); [|done].
  destruct (eox_map self (role x)); [|done]. apply IH.
Qed.

(** X21: the meta instruction of the template opens a sequence and nothing
    else.  A history that continues a sequence, that is empty, or that
    brings its own system message first, is rendered the same whatever
    the meta instruction of the template -- set, empty or None. *)
Theorem meta_instruction_only_opens self m messages sequence_start :
  sequence_start = false \/ messages = [] \/
    (exists first rest, messages = first :: rest /\ role first = "system") ->
  messages2prompt (with_meta_instruction m self) (History messages) sequence_start =
  messages2prompt self (History messages) sequence_start.
Proof.
  intros Hcase. unfold messages2prompt, Base_messages2prompt.
  rewrite render_meta_instruction.
  assert (Hh : forall t, header t messages sequence_start = []).
  { intros t. unfold header. destruct (meta_instruction t); [|done].
    destruct Hcase as [-> | [-> | (first & rest & -> & Hrole)]]; [done|by rewrite andb_false_r|].
    rewrite bool_decide_eq_false_2; [by rewrite andb_false_r|]. by intros ?. }
  by rewrite !Hh.
Qed.

Lemma meta_instruction_only_opens_witness :
  messages2prompt (with_meta_instruction None Vicuna_default)
    (History [ {| role := "system"; content := Text (lit "Be brief.") |};
               user_message (lit "Hi") ]) true =
  messages2prompt Vicuna_default
    (History [ {| role := "system"; content := Text (lit "Be brief.") |};
               user_message (lit "Hi") ]) true.
Proof.
  apply (meta_instruction_only_opens Vicuna_default None).
  right. right. eexists _, _. split; reflexivity.
Defined.

(** X22: [Llama3] puts its begin-of-text marker in front of a prompt once,
    at the start of a sequence, and never when a sequence continues -- for
    a string, which goes through the overridden [get_prompt], and for a
    history alike.  Behind the marker the prompt is the one of the base
    template, and errors are the base template's. *)
Theorem llama3_begin_of_text_once self messages sequence_start :
  Llama3_messages2prompt self messages sequence_start =
  match messages2prompt self messages sequence_start with
  | inl x => inl x
  | inr r => inr ((if sequence_start then lit "<|begin_of_text|>" else []) ++ r)
  end.
Proof.
  unfold Llama3_messages2prompt, messages2prompt.
  destruct messages as [s|l].
  - cbn [is_str negb]. rewrite andb_false_r. cbn [Base_messages2prompt].
    unfold Llama3_get_prompt. by destruct sequence_start.
  - cbn [is_str negb]. rewrite andb_true_r.
    change (Base_messages2prompt (Llama3_get_prompt self) self (History l) sequence_start)
      with (Base_messages2prompt (get_prompt self) self (History l) sequence_start).
    destruct sequence_start; [done|].
    by destruct (Base_messages2prompt _ _ _ _).
Qed.

(** X23: the last character [Vicuna] cuts off a rendered history.  For a
    history that does not end with an assistant message it is the last
    character of the assistant's begin marker (the blank of "ASSISTANT: ").
    For a history that ends with the prefix of a response it is the last
    character of that response. *)
Theorem vicuna_cuts_last_character self pre sequence_start :
  Forall renders pre ->
  (forall a c, assistant self = a ++ [c] -> ends_with_assistant pre = false ->
     Vicuna_messages2prompt self (History pre) sequence_start =
       inr (header self pre sequence_start ++ concat (piece self <$> pre) ++ a)) /\
  (forall response c, eoa self ++ separator self <> [] ->
     Vicuna_messages2prompt self
       (History (pre ++ [assistant_message (response ++ [c])])) sequence_start =
       inr (header self (pre ++ [assistant_message (response ++ [c])]) sequence_start ++
            concat (piece self <$> pre) ++ assistant self ++ response)).
Proof.
  intros Hpre. split.
  - intros a c Ha Hends. unfold Vicuna_messages2prompt, Base_messages2prompt.
    rewrite render_ok, Hends by done. cbn [andb]. f_equal.
    rewrite Ha, !app_assoc. apply (drop_end_app _ [c]).
  - intros response c Hne. unfold Vicuna_messages2prompt, Base_messages2prompt.
    assert (Hall : Forall renders (pre ++ [assistant_message (response ++ [c])])).
    { apply Forall_app. split; [done|]. apply Forall_singleton.
      split; [cbn; set_solver|done]. }
    rewrite render_ok by done.
    rewrite ends_with_assistant_snoc.
    rewrite bool_decide_eq_true_2 by done.
    rewrite bool_decide_eq_true_2 by (destruct (eoa self ++ separator self); [done|cbn; lia]).
    cbn [andb]. f_equal.
    rewrite fmap_app, concat_app. cbn [fmap list_fmap concat]. rewrite app_nil_r.
    unfold piece at 2. cbn.
    replace (header self (pre ++ [assistant_message (response ++ [c])]) sequence_start ++
             concat (piece self <$> pre) ++
             assistant self ++ (response ++ [c]) ++ eoa self ++ separator self)
      with ((header self (pre ++ [assistant_message (response ++ [c])]) sequence_start ++
             concat (piece self <$> pre) ++ assistant self ++ response ++ [c]) ++
            (eoa self ++ separator self)) by (by rewrite <- !app_assoc).
    rewrite drop_end_app. rewrite !app_assoc. apply (drop_end_app _ [c]).
Qed.

Lemma vicuna_cuts_last_character_witness :
  (forall a c, assistant Vicuna_default = a ++ [c] ->
     ends_with_assistant [user_message (lit "Hi")] = false ->
     Vicuna_messages2prompt Vicuna_default (History [user_message (lit "Hi")]) true =
       inr (header Vicuna_default [user_message (lit "Hi")] true ++
            concat (piece Vicuna_default <$> [user_message (lit "Hi")]) ++ a)) /\
  (forall response c, eoa Vicuna_default ++ separator Vicuna_default <> [] ->
     Vicuna_messages2prompt Vicuna_default
       (History ([user_message (lit "Hi")] ++ [assistant_message (response ++ [c])])) true =
       inr (header Vicuna_default
              ([user_message (lit "Hi")] ++ [assistant_message (response ++ [c])]) true ++
            concat (piece Vicuna_default <$> [user_message (lit "Hi")]) ++
            assistant Vicuna_default ++ response)).
Proof.
  apply (vicuna_cuts_last_character Vicuna_default [user_message (lit "Hi")] true).
  repeat constructor; (by vm_compute) || (cbn; set_solver).
Defined.

End ChatTemplateFacts.

(* ===================================================================== *)
(** * Resolution over the full registry *)
(* ===================================================================== *)

Section ModelRegistryFacts.
Import Model ModelRegistry.

Lemma lower_ascii_idem c : lower_ascii (lower_ascii c) = lower_ascii c.
Proof. by destruct c as [[] [] [] [] [] [] [] []]. Qed.

Lemma lower_idem s : lower (lower s) = lower s.
Proof. induction s as [|c s IH]; [done|]. cbn. by rewrite lower_ascii_idem, IH. Qed.

Lemma best_match_within names (reg : Registry) query :
  Forall (fun entry => answers_within names entry.2) reg ->
  best_match_model reg query ∈ "base" :: names.
Proof.
  induction 1 as [|[name model] rest Hm _ IH]; [by left|].
  cbn. destruct (model query) as [matched|] eqn:Hq; [|done].
  case_decide; [done|]. right. by apply (Hm query).
Qed.

Lemma best_match_case_blind (reg : Registry) query :
  Forall (fun entry => case_blind entry.2) reg ->
  best_match_model reg (lower query) = best_match_model reg query.
Proof.
  induction 1 as [|[name model] rest Hm _ IH]; [done|].
  cbn in *. unfold case_blind in Hm. by rewrite Hm, IH.
Qed.

(** The templates of the registry read the path through [lower] only. *)
Ltac case_blind_match :=
  intros model_path; cbv beta iota delta
    [BaseModel_match DeepseekV3_match DeepseekR1_match CogVLM_match CogVLM2_match
     Vicuna_match Llavav1_match InternLMChat7B_match InternLM2Chat7B_match
     InternVLInternLM2Chat_match InternVL2InternLM2_match InternVL2_5_match
     InternLMXComposer2Chat7B_match Baichuan2_match Puyu_match Llama2_match
     Llama3_match Llama3_1_match Qwen7BChat_match Qwen2d5Chat_match Qwen2d5VL_match
     QwQPreview_match QwQ_match Qwen3_match CodeLlama_match ChatGLM2_match SOLAR_match
     UltraChat_match Yi_match MistralChat_match Gemma_match Deepseek_match
     InternVLZH_match DeepseekVL_match DeepseekVL2_match DeepSeek_match YiVL_match
     ChatmlDirect_match Phi3Instruct_match InternVL2Phi3_match ChatGLM3_match
     Glm4Chat_match CodeGeeX4Chat_match InternVLPhi3_match Molmo_match Llama4_match
     InternS1_match snd];
  cbv zeta; rewrite ?lower_idem; reflexivity.

Lemma MODELS_case_blind : Forall (fun entry => case_blind entry.2) MODELS.
Proof.
  unfold MODELS, MODELS_head, MODELS_tail. cbn [app].
  repeat (apply Forall_cons; split; [case_blind_match|]).
  apply Forall_nil_2.
Qed.

Ltac answers_within_match names :=
  intros model_path matched; cbv beta iota delta
    [BaseModel_match DeepseekV3_match DeepseekR1_match CogVLM_match CogVLM2_match
     Vicuna_match Llavav1_match InternLMChat7B_match InternLM2Chat7B_match
     InternVLInternLM2Chat_match InternVL2InternLM2_match InternVL2_5_match
     InternLMXComposer2Chat7B_match Baichuan2_match Puyu_match Llama2_match
     Llama3_match Llama3_1_match Qwen7BChat_match Qwen2d5Chat_match Qwen2d5VL_match
     QwQPreview_match QwQ_match Qwen3_match CodeLlama_match ChatGLM2_match SOLAR_match
     UltraChat_match Yi_match MistralChat_match Gemma_match Deepseek_match
     InternVLZH_match DeepseekVL_match DeepseekVL2_match DeepSeek_match YiVL_match
     ChatmlDirect_match Phi3Instruct_match InternVL2Phi3_match ChatGLM3_match
     Glm4Chat_match CodeGeeX4Chat_match InternVLPhi3_match Molmo_match Llama4_match
     InternS1_match snd];
  cbv zeta;
  repeat match goal with
         | |- context [if ?b then _ else _] => destruct b
         end;
  intros [= <-];
  apply (bool_decide_eq_true_1 (_ ∈ names)); vm_compute; reflexivity.

Lemma MODELS_answers : Forall (fun entry => answers_within answered entry.2) MODELS.
Proof.
  unfold MODELS, MODELS_head, MODELS_tail. cbn [app].
  repeat (apply Forall_cons; split; [answers_within_match answered|]).
  apply Forall_nil_2.
Qed.

(** X24: whatever the path, [best_match_model] returns a name under which
    a template is registered, so the template can be looked up; and three
    registered names are never returned: ['llama'], ['llama3_2'] (the
    Llama 3.2 paths resolve to ['llama3_1']) and ['interns1'] (resolved as
    ['intern-s1']). *)
Theorem best_match_is_registered query :
  best_match_model MODELS query ∈ registered MODELS /\
  best_match_model MODELS query ∉ ["llama"; "llama3_2"; "interns1"].
Proof.
  pose proof (best_match_within answered MODELS query MODELS_answers) as Hin.
  revert Hin. generalize (best_match_model MODELS query). intros name Hin.
  assert (Hsub : Forall (fun n => n ∈ registered MODELS /\
                                  n ∉ ["llama"; "llama3_2"; "interns1"])
                        ("base" :: answered)).
  { apply (bool_decide_eq_true_1 _). vm_compute. reflexivity. }
  rewrite Forall_forall in Hsub. by apply Hsub.
Qed.

(** X25: resolution does not look at the case of the letters of the
    path: every template of the registry matches on the lower-cased
    path. *)
Theorem best_match_ignores_case query :
  best_match_model MODELS (lower query) = best_match_model MODELS query.
Proof. apply best_match_case_blind, MODELS_case_blind. Qed.

Lemma prefix_weaken a b s :
  String.prefix (a +:+ b) s = true -> String.prefix a s = true.
Proof.
  revert s. induction a as [|c a IH]; intros s; [by destruct s|].
  destruct s as [|c' s]; [done|].
  change (String.prefix (String c (a +:+ b)) (String c' s) = true ->
          String.prefix (String c a) (String c' s) = true).
  cbn [String.prefix].
  destruct (Ascii.ascii_dec c c'); [apply IH|done].
Qed.

Lemma contains_weaken a b s : contains (a +:+ b) s = true -> contains a s = true.
Proof.
  induction s as [|c s IH]; cbn [contains].
  - rewrite !orb_false_r. apply prefix_weaken.
  - intros [H|H]%orb_true_iff; apply orb_true_iff; [left|right].
    + by apply (prefix_weaken a b).
    + by apply IH.
Qed.

Lemma best_match_app (reg1 reg2 : Registry) query :
  best_match_model (reg1 ++ reg2) query = best_match_model reg1 query \/
  (Forall (fun entry => rejects entry.2 query) reg1 /\
   best_match_model (reg1 ++ reg2) query = best_match_model reg2 query).
Proof.
  induction reg1 as [|[name model] reg1 IH]; [by right|].
  destruct (accepts_or_rejects model query) as [[matched Hacc]|Hrej].
  - left. cbn [app].
    by rewrite !(best_match_model_hit _ _ _ _ _ Hacc).
  - cbn [app]. rewrite !best_match_model_skip by done.
    destruct IH as [IH|[Hall IH]]; [by left|right].
    split; [|done]. by apply Forall_cons.
Qed.

Lemma before_deepseek_vl2 :
  Forall (fun entry => answers_within answered_by_others entry.2) (take 43 MODELS).
Proof.
  unfold MODELS, MODELS_head, MODELS_tail. cbn [app take].
  repeat (apply Forall_cons; split; [answers_within_match answered_by_others|]).
  apply Forall_nil_2.
Qed.

Lemma after_deepseek_vl2 :
  Forall (fun entry => answers_within answered_by_others entry.2) (drop 44 MODELS).
Proof.
  unfold MODELS, MODELS_head, MODELS_tail. cbn [app drop].
  repeat (apply Forall_cons; split; [answers_within_match answered_by_others|]).
  apply Forall_nil_2.
Qed.

(** X26: the template ['deepseek-vl2'] is resolved only for a path that
    names deepseek-vl2 and does not contain "chat": ['deepseek-vl'] is
    registered before it and answers every path with "deepseek-vl" and
    "chat" in it. *)
Theorem deepseek_vl2_only_without_chat query :
  best_match_model MODELS query = "deepseek-vl2" ->
  contains "deepseek-vl2" (lower query) = true /\
  contains "chat" (lower query) = false.
Proof.
  intros Hres.
  assert (Hothers : "deepseek-vl2" ∉ "base" :: answered_by_others).
  { apply (bool_decide_eq_false_1 _). vm_compute. reflexivity. }
  rewrite <- (take_drop 43 MODELS) in Hres.
  destruct (best_match_app (take 43 MODELS) (drop 43 MODELS) query) as [Heq|[Hrej Heq]];
    rewrite Heq in Hres; clear Heq.
  { exfalso. apply Hothers. rewrite <- Hres.
    apply best_match_within, before_deepseek_vl2. }
  change (drop 43 MODELS) with (("deepseek-vl2", DeepseekVL2_match) :: drop 44 MODELS) in Hres.
  cbn [best_match_model] in Hres. unfold DeepseekVL2_match in Hres. cbv zeta in Hres.
  destruct (contains "deepseek-vl2" (lower query)) eqn:Hvl2.
  2:{ exfalso. apply Hothers. rewrite <- Hres.
      apply best_match_within, after_deepseek_vl2. }
  split; [done|].
  destruct (contains "chat" (lower query)) eqn:Hchat; [exfalso|done].
  (* with "chat" in the path, ['deepseek-vl'] has answered before *)
  pose proof (contains_weaken "deepseek-vl" "2" (lower query) Hvl2) as Hvl.
  rewrite Forall_forall in Hrej.
  apply (Hrej ("deepseek-vl", DeepseekVL_match)) with "deepseek-vl".
  - apply (list_elem_of_lookup_2 _ 42%nat). reflexivity.
  - split; [|done]. cbn. unfold DeepseekVL_match. cbv zeta. by rewrite Hvl, Hchat.
Qed.

Lemma deepseek_vl2_only_without_chat_witness :
  contains "deepseek-vl2" (lower "deepseek-ai/deepseek-vl2-tiny") = true /\
  contains "chat" (lower "deepseek-ai/deepseek-vl2-tiny") = false.
Proof.
  apply (deepseek_vl2_only_without_chat "deepseek-ai/deepseek-vl2-tiny").
  reflexivity.
Defined.

End ModelRegistryFacts.

(* ===================================================================== *)
(** * Support by the PyTorch engine *)
(* ===================================================================== *)

Section SupportedModelsFacts.
Import SupportedModels.

Lemma split_dot_cons s : exists x xs, split_dot s = x :: xs.
Proof.
  destruct s as [|c s]; [by eexists _, _|]. cbn.
  case_decide; [by eexists _, _|].
  destruct (split_dot s); by eexists _, _.
Qed.

Lemma dotless_cons c x :
  String c EmptyString <> "." -> dotless x -> dotless (String c x).
Proof.
  intros Hc Hx. unfold dotless in *.
  change (String.prefix "." (String c x) || Model.contains "." x = false).
  rewrite Hx, orb_false_r. cbn [String.prefix].
  destruct (Ascii.ascii_dec _ c) as [<-|]; done.
Qed.

(** Splitting at the dots and joining with dots gives the string back, and
    no part has a dot. *)
Lemma split_dot_join s :
  join_dot (split_dot s) = s /\ Forall dotless (split_dot s).
Proof.
  induction s as [|c s [IHj IHd]]; [by split; [|repeat constructor]|].
  cbn [split_dot]. destruct (split_dot_cons s) as (x & xs & Hs).
  rewrite Hs in *. case_decide as Hc.
  - injection Hc as ->. split; [|by constructor].
    change (join_dot (EmptyString :: x :: xs))
      with (EmptyString +:+ "." +:+ join_dot (x :: xs)).
    rewrite IHj. reflexivity.
  - apply Forall_cons in IHd as [Hx Hxs]. split.
    + rewrite <- IHj. by destruct xs.
    + constructor; [by apply dotless_cons|done].
Qed.

Lemma last_component_split s :
  exists parts,
    split_dot s = parts ++ [last_component s] /\ Forall dotless parts /\
    dotless (last_component s).
Proof.
  destruct (split_dot_join s) as [_ Hd]. unfold last_component.
  destruct (split_dot_cons s) as (x & xs & Hs).
  destruct (split_dot s) as [|y ys _] using rev_ind; [done|].
  rewrite last_snoc. cbn. exists ys.
  apply Forall_app in Hd as [Hys [Hy _]%Forall_cons]. done.
Qed.

(** X27: [is_supported] answers True only for a model that is not a
    turbomind directory, whose config could be read and names an
    architecture the table marks as supported -- none of the six it marks
    as unsupported -- and that is neither a Baichuan config with the shape
    of baichuan-13B (40 heads, vocabulary 64000) nor a Qwen config with a
    visual part. *)
Theorem is_supported_true triton_models_exists from_pretrained :
  is_supported triton_models_exists from_pretrained = inr true ->
  triton_models_exists = false /\
  exists cfg arch,
    from_pretrained = Some cfg /\ arch_of cfg = inr arch /\
    dict_get _SUPPORTED_ARCHS arch = Some true /\ (arch ∉ unsupported_archs) /\
    (arch = "BaichuanForCausalLM" -> ~ baichuan_13b cfg) /\
    (arch = "QWenLMHeadModel" -> visual cfg <> Some true).
Proof.
  unfold is_supported. destruct triton_models_exists; [done|].
  destruct from_pretrained as [cfg|]; [|done].
  destruct (arch_of cfg) as [|arch] eqn:Harch; [done|].
  destruct (dict_get _SUPPORTED_ARCHS arch) as [b|] eqn:Hb; [|done].
  intros Hres. split; [done|]. exists cfg, arch.
  assert (Hun : b = true -> arch ∉ unsupported_archs).
  { intros -> Hin. unfold unsupported_archs in Hin.
    repeat (apply elem_of_cons in Hin as [->|Hin]; [by vm_compute in Hb|]).
    by apply elem_of_nil in Hin. }
  destruct (decide (arch = "BaichuanForCausalLM")) as [->|Hbai].
  - assert (b = true) as -> by (vm_compute in Hb; congruence).
    do 3 (split; [done|]). split; [by apply Hun|]. split; [|done].
    intros _ [Hh Hv]. rewrite Hh, Hv in Hres. done.
  - destruct (decide (arch = "QWenLMHeadModel")) as [->|Hqwen].
    + assert (b = true) as -> by (vm_compute in Hb; congruence).
      do 3 (split; [done|]). split; [by apply Hun|]. split; [done|].
      intros _ Hv. rewrite Hv in Hres. done.
    + injection Hres as ->.
      do 3 (split; [done|]). split; [by apply Hun|]. done.
Qed.

Lemma is_supported_true_witness :
  false = false /\
  exists cfg arch,
    Some qwen_config = Some cfg /\ arch_of cfg = inr arch /\
    dict_get _SUPPORTED_ARCHS arch = Some true /\ (arch ∉ unsupported_archs) /\
    (arch = "BaichuanForCausalLM" -> ~ baichuan_13b cfg) /\
    (arch = "QWenLMHeadModel" -> visual cfg <> Some true).
Proof.
  apply (is_supported_true false (Some qwen_config)).
  reflexivity.
Defined.

(** X28: a config without [architectures] is identified by the class its
    [auto_map] gives for AutoModelForCausalLM: the architecture is what
    follows the last dot of that entry, so it has no dot in it, and the
    entry is the architecture with the module path in front; without such
    an entry [is_supported] lets a RuntimeError out instead of answering
    False. *)
Theorem auto_map_architecture cfg :
  architectures cfg = None ->
  match auto_map cfg ≫= (fun m => dict_get m "AutoModelForCausalLM") with
  | Some cls =>
      exists arch modules,
        arch_of cfg = inr arch /\ dotless arch /\ Forall dotless modules /\
        cls = join_dot (modules ++ [arch])
  | None =>
      arch_of cfg = inl RuntimeError /\
      is_supported false (Some cfg) = inl RuntimeError
  end.
Proof.
  intros Ha. unfold is_supported, arch_of. rewrite Ha.
  destruct (auto_map cfg) as [m|]; cbn; [|done].
  destruct (dict_get m "AutoModelForCausalLM") as [cls|]; [|done].
  destruct (last_component_split cls) as (parts & Hs & Hp & Hl).
  exists (last_component cls), parts. do 3 (split; [done|]).
  rewrite <- Hs. by destruct (split_dot_join cls) as [-> _].
Qed.

Lemma auto_map_architecture_witness :
  match auto_map qwen_config ≫= (fun m => dict_get m "AutoModelForCausalLM") with
  | Some cls =>
      exists arch modules,
        arch_of qwen_config = inr arch /\ dotless arch /\ Forall dotless modules /\
        cls = join_dot (modules ++ [arch])
  | None =>
      arch_of qwen_config = inl RuntimeError /\
      is_supported false (Some qwen_config) = inl RuntimeError
  end.
Proof.
  apply (auto_map_architecture qwen_config).
  reflexivity.
Defined.

End SupportedModelsFacts.

(* ===================================================================== *)
(** * The command-line chat *)
(* ===================================================================== *)

Section ChatFacts.
Import Chat.

(** The negative slice of [async_infer] picks the new tokens, however far
    back the output reaches. *)
Lemma slice_new_tokens (full : list Z) (prev tokens : Z) (k : nat) :
  0 <= prev < tokens -> tokens <= Z.of_nat (length full) -> (k <= Z.to_nat prev)%nat ->
  take (Z.to_nat prev) full ++
    slice_from (prev - tokens) (drop k (take (Z.to_nat tokens) full)) =
  take (Z.to_nat tokens) full.
Proof.
  intros Hp Ht Hk. unfold slice_from.
  destruct (Z.leb_spec 0 (prev - tokens)); [lia|].
  rewrite length_drop, length_take, drop_drop.
  replace (k + (Z.to_nat tokens `min` length full - k - Z.to_nat (- (prev - tokens))))%nat
    with (Z.to_nat prev) by lia.
  rewrite <- (take_drop (Z.to_nat prev) (take (Z.to_nat tokens) full)) at 2.
  f_equal. rewrite take_take. f_equal. lia.
Qed.

Lemma async_infer_loop input_ids full outputs : forall st,
  0 <= prev_len st <= Z.of_nat (length full) ->
  acc_token_ids st = input_ids ++ take (Z.to_nat (prev_len st)) full ->
  Forall (fun ids => exists n, ids = input_ids ++ take n full) (detokenized st) ->
  streams full (prev_len st) outputs ->
  let st' := foldl async_infer_step st outputs in
  acc_token_ids st' =
    input_ids ++ take (Z.to_nat (foldl Z.max (prev_len st) (num_token <$> outputs))) full /\
  prev_len st' = foldl Z.max (prev_len st) (num_token <$> outputs) /\
  Forall (fun ids => exists n, ids = input_ids ++ take n full) (detokenized st') /\
  tokens st' = from_option (fun o => Some (num_token o)) (tokens st) (last outputs).
Proof.
  induction outputs as [|o outputs IH]; intros st Hp Hacc Hdet Hs; [done|].
  destruct Hs as (Hlen & (k & Hk & Hids) & Hs).
  cbn [foldl fmap list_fmap]. cbv zeta in IH.
  assert (Hlast : forall d : option Z,
            from_option (fun o => Some (num_token o)) d (last (o :: outputs)) =
            from_option (fun o => Some (num_token o)) (Some (num_token o)) (last outputs)).
  { intros d. destruct outputs as [|o' outputs']; [done|]. rewrite last_cons_cons.
    destruct (last (o' :: outputs')) eqn:E; [done|]. by apply last_None in E. }
  rewrite Hlast.
  unfold async_infer_step at 2 4 6 8.
  destruct (Z.ltb_spec (prev_len st) (num_token o)) as [Hlt|Hge].
  - replace (Z.max (prev_len st) (num_token o)) with (num_token o) in * by lia.
    apply IH; cbn.
    + lia.
    + rewrite Hacc, Hids, <- app_assoc. f_equal. apply slice_new_tokens; [lia|done|done].
    + apply Forall_app. split; [done|]. apply Forall_singleton.
      exists (Z.to_nat (num_token o)).
      rewrite Hacc, Hids, <- app_assoc. f_equal. apply slice_new_tokens; [lia|done|done].
    + done.
  - replace (Z.max (prev_len st) (num_token o)) with (prev_len st) in * by lia.
    apply (IH {| acc_token_ids := acc_token_ids st; prev_len := prev_len st;
                 tokens := Some (num_token o); detokenized := detokenized st |});
      cbn; done.
Qed.

(** X29: [async_infer] gathers the generated tokens whether the generator
    streams them cumulatively or piecewise.  If every output carries the
    tokens up to its [num_token] -- all of them, or a tail that reaches
    back at least to what was delivered before -- then the list handed to
    the detokenizer is always the input ids followed by a prefix of the
    generation, at the end by as many tokens as the largest [num_token]
    reported; and the value returned is the [num_token] of the last
    output, none (UnboundLocalError) when there was no output. *)
Theorem async_infer_accumulates input_ids full outputs :
  streams full 0 outputs ->
  let st := async_infer_run input_ids outputs in
  acc_token_ids st = input_ids ++ take (Z.to_nat (most_tokens outputs)) full /\
  prev_len st = most_tokens outputs /\
  Forall (fun ids => exists n, ids = input_ids ++ take n full) (detokenized st) /\
  async_infer input_ids outputs = num_token <$> last outputs.
Proof.
  intros Hs. cbv zeta. unfold async_infer, async_infer_run, most_tokens.
  pose proof (async_infer_loop input_ids full outputs
                {| acc_token_ids := input_ids; prev_len := 0; tokens := None;
                   detokenized := [] |}) as Hloop.
  cbn in Hloop.
  destruct Hloop as (H1 & H2 & H3 & H4); [lia|by rewrite app_nil_r|done|done|].
  do 3 (split; [done|]). rewrite H4. by destruct (last outputs).
Qed.

Lemma async_infer_accumulates_witness :
  let input_ids := [1; 2] in
  let full := [7; 8; 9] in
  let outputs := [ {| num_token := 1; token_ids := [7] |};
                   {| num_token := 3; token_ids := [8; 9] |};
                   {| num_token := 3; token_ids := [7; 8; 9] |} ] in
  let st := async_infer_run input_ids outputs in
  acc_token_ids st = input_ids ++ take (Z.to_nat (most_tokens outputs)) full /\
  prev_len st = most_tokens outputs /\
  Forall (fun ids => exists n, ids = input_ids ++ take n full) (detokenized st) /\
  async_infer input_ids outputs = num_token <$> last outputs.
Proof.
  apply (async_infer_accumulates [1; 2] [7; 8; 9]
           [ {| num_token := 1; token_ids := [7] |};
             {| num_token := 3; token_ids := [8; 9] |};
             {| num_token := 3; token_ids := [7; 8; 9] |} ]).
  cbn. split; [lia|]. split; [exists 0%nat; split; [cbn; lia|reflexivity]|].
  split; [lia|]. split; [exists 1%nat; split; [cbn; lia|reflexivity]|].
  split; [lia|]. split; [exists 0%nat; split; [cbn; lia|reflexivity]|]. exact I.
Defined.

(** The invariant of the loop of [main]. *)
Lemma chat_turn_invariant (chat : bool) request_output_len session_len turn st :
  within_limits request_output_len turn ->
  (1 <= nth_round st.1 /\ 0 <= step st.1 /\
   (step st.1 = 0 \/ step st.1 < session_len) /\
   (chat = true -> nth_round st.1 = 1 -> step st.1 = 0) /\
   Forall (fun r => 0 <= req_step r /\ 0 <= req_input_len r /\
                    req_step r + req_input_len r + request_output_len < session_len /\
                    (sequence_start r = true -> req_step r = 0)) st.2) ->
  let st' := chat_turn chat request_output_len session_len st turn in
  1 <= nth_round st'.1 /\ 0 <= step st'.1 /\
  (step st'.1 = 0 \/ step st'.1 < session_len) /\
  (chat = true -> nth_round st'.1 = 1 -> step st'.1 = 0) /\
  Forall (fun r => 0 <= req_step r /\ 0 <= req_input_len r /\
                   req_step r + req_input_len r + request_output_len < session_len /\
                   (sequence_start r = true -> req_step r = 0)) st'.2.
Proof.
  destruct st as [s sent]. cbn [fst snd]. intros Hturn (Hn & Hs & Hlt & Hfirst & Hsent).
  destruct turn as [|num_input_ids tokens]; cbn.
  { split; [lia|]. split; [lia|]. split; [by left|]. done. }
  destruct Hturn as [Hin Htok]. specialize (Hin (nth_round s =? 1)).
  destruct chat.
  - destruct (Z.leb_spec session_len
                (step s + num_input_ids (nth_round s =? 1) + request_output_len)); cbn.
    + split; [done|]. split; [done|]. split; [done|]. done.
    + split; [lia|]. split; [lia|]. split; [right; lia|]. split; [intros _ ?; lia|].
      apply Forall_app. split; [done|]. apply Forall_singleton. cbn.
      split; [done|]. split; [done|]. split; [lia|].
      intros Hq%Z.eqb_eq. by apply Hfirst.
  - destruct (Z.leb_spec session_len
                (0 + num_input_ids (nth_round s =? 1) + request_output_len)); cbn.
    + split; [done|]. split; [done|]. split; [by left|]. done.
    + split; [lia|]. split; [lia|]. split; [right; lia|]. split; [done|].
      apply Forall_app. split; [done|]. apply Forall_singleton. cbn.
      split; [done|]. split; [done|]. split; [lia|]. done.
Qed.

(** X30: the session of the command-line chat stays within
    [session_len].  As long as the engine answers with at most
    [request_output_len] tokens, every request the loop sends leaves room
    for the input and a full answer below [session_len], and a request
    that starts a sequence starts at step 0; between the rounds [step] is
    0 or below [session_len], and in chat mode it is 0 whenever the next
    prompt opens the session. *)
Theorem main_loop_within_session (chat : bool) request_output_len session_len turns :
  Forall (within_limits request_output_len) turns ->
  let st := main_loop chat request_output_len session_len turns in
  1 <= nth_round st.1 /\ 0 <= step st.1 /\
  (step st.1 = 0 \/ step st.1 < session_len) /\
  (chat = true -> nth_round st.1 = 1 -> step st.1 = 0) /\
  Forall (fun r => 0 <= req_step r /\ 0 <= req_input_len r /\
                   req_step r + req_input_len r + request_output_len < session_len /\
                   (sequence_start r = true -> req_step r = 0)) st.2.
Proof.
  cbv zeta. unfold main_loop.
  induction turns as [|turn turns IH] using rev_ind; intros Hturns.
  - cbn. split; [lia|]. split; [lia|]. split; [by left|]. done.
  - apply Forall_app in Hturns as [Hturns [Hturn _]%Forall_cons].
    rewrite foldl_snoc.
    apply (chat_turn_invariant chat request_output_len session_len turn); [done|].
    by apply IH.
Qed.

Lemma main_loop_within_session_witness :
  let turns := [Say (fun start => if start then 9 else 5) 8; Say (fun _ => 5) 3;
                Say (fun _ => 5) 8; EndSession; Say (fun _ => 4) 0] in
  let st := main_loop true 8 32 turns in
  1 <= nth_round st.1 /\ 0 <= step st.1 /\
  (step st.1 = 0 \/ step st.1 < 32) /\
  (true = true -> nth_round st.1 = 1 -> step st.1 = 0) /\
  Forall (fun r => 0 <= req_step r /\ 0 <= req_input_len r /\
                   req_step r + req_input_len r + 8 < 32 /\
                   (sequence_start r = true -> req_step r = 0)) st.2.
Proof.
  apply (main_loop_within_session true 8 32
           [Say (fun start => if start then 9 else 5) 8; Say (fun _ => 5) 3;
            Say (fun _ => 5) 8; EndSession; Say (fun _ => 4) 0]).
  repeat constructor; try lia; intros []; lia.
Defined.

End ChatFacts.
